(** * Mutual-reachability graph construction (HDBSCAN): a shallow embedding

    This development embeds [cpp/src/hdbscan/detail/reachability.cuh] and
    proves properties of its functions: [check], [core_distances],
    [compute_knn], [compute_knn_GF], [mutual_reachability_graph] and
    [mutual_reachability_graph_GF].

    Conventions of the embedding.
    - Machine integers are [Z] with the wrap-around of their C++ type
      written out: [int] is 32-bit signed, [size_t] 64-bit unsigned, and
      the template parameter [value_idx] is a signed integer of
      [idx_bits] bits; a 64-bit index of the search is a [Z].  For
      [size_t] and for a conversion the wrap-around is what C++ computes.
      An overflow of signed arithmetic is undefined in C++: the
      definitions wrap there only to stay total, and a theorem about a
      value computed by signed arithmetic assumes that it stays in range.
    - Device memory is a family of blocks; a pointer is a block and an
      offset counted in elements.  There is one heap per element type
      ([value_t], [value_idx], [int64_t]).  A fresh allocation keeps
      whatever the heap held in that block: its contents are uninitialised.
    - A function of the source that writes through pointers, throws or
      logs is a computation in the monad [M]: it maps a device state to an
      outcome and the state it leaves behind.  A thrown exception keeps
      the writes made before it.
    - The primitives the source consumes but does not define (the exact
      nearest-neighbour search, the mutual-reachability kernel, the sparse
      symmetrisation and the CSR conversion) are parameters of the
      development, as are the weight type and the metric enumeration.
    - The field [trace] is a history variable: it records the device work
      (allocations, searches, kernel launches) in program order.
    - The debugging output on [std::cout] and the [std::chrono] timing of
      the source are not part of the model. *)

From Stdlib Require Import ZArith List String Bool Lia.
Import ListNotations.
Open Scope Z_scope.

(** ** Machine integers *)

Module MachineInt.

Definition wrap_unsigned (w z : Z) : Z := z mod 2 ^ w.

Definition wrap_signed (w z : Z) : Z :=
  (z + 2 ^ (w - 1)) mod 2 ^ w - 2 ^ (w - 1).

Definition in_signed (w z : Z) : Prop :=
  - 2 ^ (w - 1) <= z < 2 ^ (w - 1).

Definition in_unsigned (w z : Z) : Prop := 0 <= z < 2 ^ w.

(** [int] *)
Definition int_wrap : Z -> Z := wrap_signed 32.
Definition int_range : Z -> Prop := in_signed 32.

(** [size_t] *)
Definition size_t_wrap : Z -> Z := wrap_unsigned 64.
Definition size_t_range : Z -> Prop := in_unsigned 64.

End MachineInt.
Import MachineInt.

(** ** Device memory *)

Module Memory.

Record ptr := mk_ptr { blk : Z; off : Z }.

(** The null pointer. *)
Definition NULL : ptr := mk_ptr 0 0.

(** [p + k] *)
Definition ptr_add (p : ptr) (k : Z) : ptr := mk_ptr (blk p) (off p + k).

Definition heap (T : Type) : Type := Z -> Z -> T.

(** [p[j]] *)
Definition load {T} (h : heap T) (p : ptr) (j : Z) : T :=
  h (blk p) (off p + j).

(** The array a pointer denotes: [fun j => p[j]]. *)
Definition view {T} (h : heap T) (p : ptr) : Z -> T := load h p.

(** The cell at block [b], offset [o] lies in [p[0 .. len-1]]. *)
Definition in_range (p : ptr) (len b o : Z) : bool :=
  (b =? blk p) && (off p <=? o) && (o <? off p + len).

(** Write [src 0 .. src (len-1)] to [p[0 .. len-1]]. *)
Definition store_range {T} (h : heap T) (p : ptr) (len : Z) (src : Z -> T)
  : heap T :=
  fun b o => if in_range p len b o then src (o - off p) else h b o.

End Memory.
Import Memory.

(** ** The CUDA runtime

    [cudaError_t] and the runtime entry points come from the CUDA toolkit.
    The outcome of every runtime call of [compute_knn_GF] is given by the
    environment: [cuda_status] maps a call site to the status it returns. *)

Definition cudaError_t : Type := Z.
Definition cudaSuccess : cudaError_t := 0.

(** The runtime calls of [compute_knn_GF], by source line; [i] is the loop
    index (the device). *)
Inductive cuda_call : Type :=
| call_GetDevice                     (* line 224 *)
| call_GetDeviceCount                (* line 225 *)
| call_stage_SetDevice (i : Z)       (* line 244 *)
| call_stage_Malloc_x1 (i : Z)       (* line 245 *)
| call_stage_Malloc_x2 (i : Z)       (* line 246 *)
| call_stage_Memcpy_x1 (i : Z)       (* line 250 *)
| call_stage_Memcpy_x2 (i : Z)       (* line 251 *)
| call_home_SetDevice                (* line 282 *)
| call_dispatch_SetDevice (i : Z)    (* line 298 *)
| call_gather_Memcpy_dists (i : Z)   (* line 323 *)
| call_gather_Memcpy_inds (i : Z)    (* line 326 *)
| call_Free_x1 (i : Z)               (* line 329 *)
| call_Free_x2 (i : Z)               (* line 333 *)
| call_final_SetDevice.              (* line 362 *)

Record cuda_runtime : Type := mk_cuda_runtime {
  cuda_status : cuda_call -> cudaError_t;
  cuda_current_device : Z;    (* the device cudaGetDevice reports *)
  cuda_device_count : Z;      (* the count cudaGetDeviceCount reports *)
  cuda_last_error : cudaError_t   (* what cudaGetLastError returns *)
}.

(** What [check] and [checkLast] print on [std::cerr]. *)
Record log_entry : Type := cuda_runtime_error {
  log_file : string;
  log_line : Z;
  log_err : cudaError_t;
  log_func : option string
}.

(** The device work recorded in the history variable [trace]. *)
Inductive event : Type :=
| ev_alloc (count : Z)
| ev_cuda (c : cuda_call)
| ev_brute_force_knn (n_search_items k : Z)
| ev_brute_force_knn_GF (device n_search_items k : Z)
| ev_narrow (count : Z)
| ev_core_distances (min_samples n_neighbors n : Z)
| ev_mutual_reachability_knn_l2 (k : Z)
| ev_coo_rows (count min_samples : Z)
| ev_symmetrize (nnz : Z)
| ev_sorted_coo_to_csr (m : Z)
| ev_self_loops (nnz : Z).

(** ** Sparse coordinate graph: [raft::sparse::COO<value_t, value_idx>] *)

Record COO (T : Type) : Type := mk_COO {
  rows : Z -> Z;
  cols : Z -> Z;
  vals : Z -> T;
  nnz : Z
}.
Arguments mk_COO {T} _ _ _ _.
Arguments rows {T} _ _.
Arguments cols {T} _ _.
Arguments vals {T} _ _.
Arguments nnz {T} _.

(** ** What the source consumes but does not define *)

Record Externals : Type := mk_Externals {
  (** template parameter [value_t], with [sizeof(value_t)],
      [std::numeric_limits<value_t>::max()], [(value_t)1.0] and [/] *)
  value_t : Type;
  sizeof_value_t : Z;
  value_max : value_t;
  value_one : value_t;
  value_div : value_t -> value_t -> value_t;
  (** width in bits of the template parameter [value_idx] *)
  idx_bits : Z;
  (** [raft::distance::DistanceType] and its enumerator [L2SqrtExpanded] *)
  DistanceType : Type;
  L2SqrtExpanded : DistanceType;
  metric_eq_dec : forall a b : DistanceType, {a = b} + {a <> b};
  (** [brute_force_knn(handle, input, sizes, D, search_items, n, res_I,
      res_D, k, rowMajorIndex, rowMajorQuery, metric)]: the contents it
      leaves in [res_I] and [res_D] *)
  brute_force_knn :
    list (Z -> value_t) -> list Z -> Z -> (Z -> value_t) -> Z -> Z ->
    bool -> bool -> DistanceType -> (Z -> Z) * (Z -> value_t);
  (** [brute_force_knn_GF(handle, input1, input2, sizes, D1, D2,
      search_items1, search_items2, n, res_I, res_D, k, rowMajorIndex,
      rowMajorQuery, metric)] *)
  brute_force_knn_GF :
    list (Z -> value_t) -> list (Z -> value_t) -> list Z -> Z -> Z ->
    (Z -> value_t) -> (Z -> value_t) -> Z -> Z ->
    bool -> bool -> DistanceType -> (Z -> Z) * (Z -> value_t);
  (** [mutual_reachability_knn_l2(handle, out_inds, out_dists, X, m, n, k,
      core_dists, core_dist_weight)]: the contents it leaves in [out_inds]
      and [out_dists] *)
  mutual_reachability_knn_l2 :
    (Z -> Z) -> (Z -> value_t) -> (Z -> value_t) -> Z -> Z -> Z ->
    (Z -> value_t) -> value_t -> (Z -> Z) * (Z -> value_t);
  (** [raft::sparse::linalg::symmetrize(handle, rows, cols, vals, m, n,
      nnz, out)]: the graph it leaves in [out] *)
  symmetrize :
    (Z -> Z) -> (Z -> Z) -> (Z -> value_t) -> Z -> Z -> Z -> COO value_t;
  (** [raft::sparse::convert::sorted_coo_to_csr(rows, nnz, row_ind, m,
      stream)]: the contents it leaves in [row_ind] *)
  sorted_coo_to_csr : (Z -> Z) -> Z -> Z -> (Z -> Z);
  (** the CUDA runtime *)
  cuda : cuda_runtime
}.

(** ** Device state and the monad of device computations *)

Record device_state (E : Externals) : Type := mk_state {
  fmem : heap (value_t E);      (* cells of type value_t *)
  imem : heap Z;                (* cells of type value_idx *)
  lmem : heap Z;                (* cells of type int64_t *)
  next_block : Z;               (* the next block an allocation returns *)
  out : COO (value_t E);        (* the caller's COO object *)
  cerr : list log_entry;        (* std::cerr *)
  trace : list event            (* history of device work *)
}.
Arguments mk_state {E} _ _ _ _ _ _ _.
Arguments fmem {E} _ _ _.
Arguments imem {E} _ _ _.
Arguments lmem {E} _ _ _.
Arguments next_block {E} _.
Arguments out {E} _.
Arguments cerr {E} _.
Arguments trace {E} _.

Inductive error : Type :=
| invalid_configuration (msg : string)
| unsupported_metric (msg : string).

Inductive result (A : Type) : Type :=
| Ok (a : A)
| Err (e : error).
Arguments Ok {A} _.
Arguments Err {A} _.

Definition M (E : Externals) (A : Type) : Type :=
  device_state E -> result A * device_state E.

Definition ret {E A} (a : A) : M E A := fun s => (Ok a, s).

Definition bind {E A B} (c : M E A) (k : A -> M E B) : M E B :=
  fun s =>
    match c s with
    | (Ok a, s') => k a s'
    | (Err e, s') => (Err e, s')
    end.

Declare Scope dev_scope.
Delimit Scope dev_scope with dev.
Notation "x <- c ;; k" := (bind c (fun x => k))
  (at level 61, c at next level, right associativity) : dev_scope.
Notation "c ;; k" := (bind c (fun _ => k))
  (at level 61, right associativity) : dev_scope.
Open Scope dev_scope.

Fixpoint for_each {E A} (l : list A) (body : A -> M E unit) : M E unit :=
  match l with
  | [] => ret tt
  | x :: l' => body x ;; for_each l' body
  end.

Fixpoint fold_M {E A B} (f : B -> A -> M E B) (l : list A) (b : B) : M E B :=
  match l with
  | [] => ret b
  | x :: l' => b' <- f b x ;; fold_M f l' b'
  end.

(** The indices [0, 1, ..., n-1] of [for (int i = 0; i < n; i++)]. *)
Definition range (n : Z) : list Z := map Z.of_nat (seq 0 (Z.to_nat n)).

(** ** The functions of [reachability.cuh] *)

Section Reachability.

Variable E : Externals.

Local Abbreviation state := (device_state E).
Local Abbreviation Dev := (M E).

(** *** State updates *)

Definition set_fmem (h : heap (value_t E)) (s : state) : state :=
  mk_state h (imem s) (lmem s) (next_block s) (out s) (cerr s) (trace s).

Definition set_imem (h : heap Z) (s : state) : state :=
  mk_state (fmem s) h (lmem s) (next_block s) (out s) (cerr s) (trace s).

Definition set_lmem (h : heap Z) (s : state) : state :=
  mk_state (fmem s) (imem s) h (next_block s) (out s) (cerr s) (trace s).

Definition set_next_block (b : Z) (s : state) : state :=
  mk_state (fmem s) (imem s) (lmem s) b (out s) (cerr s) (trace s).

Definition set_out (o : COO (value_t E)) (s : state) : state :=
  mk_state (fmem s) (imem s) (lmem s) (next_block s) o (cerr s) (trace s).

Definition log_cerr (l : log_entry) (s : state) : state :=
  mk_state (fmem s) (imem s) (lmem s) (next_block s) (out s)
           (cerr s ++ [l]) (trace s).

Definition record (ev : event) (s : state) : state :=
  mk_state (fmem s) (imem s) (lmem s) (next_block s) (out s) (cerr s)
           (trace s ++ [ev]).

(** *** Integer conversions of the template parameter [value_idx] *)

(** Conversion to [value_idx]; this is also the lambda
    [[] __device__(int64_t in) -> value_idx { return in; }] of lines 166
    and 369. *)
Definition narrow (inp : Z) : Z := wrap_signed (idx_bits E) inp.

Definition idx_range (z : Z) : Prop := in_signed (idx_bits E) z.

(** Arithmetic between a [value_idx] and an [int] is done in the wider of
    the two types. *)
Definition arith_wrap (z : Z) : Z := wrap_signed (Z.max (idx_bits E) 32) z.

(** *** Error macros *)

(** Modelled from the spec: the macro [ASSERT] comes from raft and is not
    under src/; by section 4.2 a violated precondition fails with an
    invalid-configuration error. *)
Definition ASSERT (cond : bool) (msg : string) : Dev unit :=
  fun s => if cond then (Ok tt, s) else (Err (invalid_configuration msg), s).

(** Modelled from the spec: the macro [RAFT_EXPECTS] comes from raft and is
    not under src/; by section 4.1 a metric other than the supported one
    fails fast with an unsupported-metric error. *)
Definition RAFT_EXPECTS (cond : bool) (msg : string) : Dev unit :=
  fun s => if cond then (Ok tt, s) else (Err (unsupported_metric msg), s).

(** *** [check] and [checkLast], lines 42-69 *)

Definition __FILE__ : string := "reachability.cuh".

(** Prints when [err != cudaSuccess]; the call to [std::exit] is commented
    out in the source, so control always returns to the caller. *)
Definition check (err : cudaError_t) (func : string) (file : string)
  (line : Z) : Dev unit :=
  fun s =>
    if negb (err =? cudaSuccess)
    then (Ok tt, log_cerr (cuda_runtime_error file line err (Some func)) s)
    else (Ok tt, s).

Definition checkLast (file : string) (line : Z) : Dev unit :=
  fun s =>
    let err := cuda_last_error (cuda E) in
    if negb (err =? cudaSuccess)
    then (Ok tt, log_cerr (cuda_runtime_error file line err None) s)
    else (Ok tt, s).

(** [CHECK_CUDA_ERROR(val)] *)
Definition CHECK_CUDA_ERROR (val : Dev cudaError_t) (func : string)
  (line : Z) : Dev unit :=
  err <- val ;; check err func __FILE__ line.

(** *** Device primitives *)

(** [rmm::device_uvector<T> v(count, stream)]: a fresh block, contents
    uninitialised. *)
Definition device_uvector (count : Z) : Dev ptr :=
  fun s =>
    (Ok (mk_ptr (next_block s) 0),
     set_next_block (next_block s + 1) (record (ev_alloc count) s)).

(** [thrust::transform] over [count] elements into an array of [value_t]:
    element [j] of the output is [f j], computed from the state at launch. *)
Definition transform_value (count : Z) (dst : ptr)
  (f : state -> Z -> value_t E) : Dev unit :=
  fun s => (Ok tt, set_fmem (store_range (fmem s) dst count (f s)) s).

(** The same into an array of [value_idx]. *)
Definition transform_idx (count : Z) (dst : ptr) (f : state -> Z -> Z)
  : Dev unit :=
  fun s => (Ok tt, set_imem (store_range (imem s) dst count (f s)) s).

Definition emit (ev : event) : Dev unit := fun s => (Ok tt, record ev s).

(** The number of elements between [indices] and [indices + n] when
    [indices] is a [thrust::counting_iterator<value_idx>] at 0: the second
    iterator holds [(value_idx) n], and the distance is the difference of
    the two counters. *)
Definition counting_distance (n : Z) : Z := narrow n - 0.

(** *** [core_distances], lines 90-106

    The local [blocks] of line 97 is never read.  The lambda captures
    [knn_dists], [n_neighbors] and [min_samples] by value; [row] is the
    counter of the counting iterator, a [value_idx].  The flat index
    [row * n_neighbors + (min_samples - 1)] is signed arithmetic: where it
    leaves its type the source has no defined behaviour, and the cell the
    definition reads there means nothing. *)

Definition core_distances (knn_dists : ptr) (min_samples n_neighbors : Z)
  (n : Z) (out_ptr : ptr) : Dev unit :=
  ASSERT (n_neighbors >=? min_samples)
    "the size of the neighborhood should be greater than or equal to min_samples" ;;
  emit (ev_core_distances min_samples n_neighbors n) ;;
  transform_value (counting_distance n) out_ptr
    (fun s j =>
       let row := narrow j in
       load (fmem s) knn_dists
            (arith_wrap (row * n_neighbors + int_wrap (min_samples - 1)))).

(** *** [compute_knn], lines 123-167 *)

(** The call of [brute_force_knn] with output pointers [res_I], [res_D]. *)
Definition call_brute_force_knn (inputs : list ptr) (sizes : list Z)
  (D : Z) (search_items : ptr) (n : Z) (res_I res_D : ptr) (k : Z)
  (rowMajorIndex rowMajorQuery : bool) (metric : DistanceType E)
  : Dev unit :=
  fun s =>
    let r := brute_force_knn E (map (view (fmem s)) inputs) sizes D
               (view (fmem s) search_items) n k
               rowMajorIndex rowMajorQuery metric in
    (Ok tt,
     record (ev_brute_force_knn n k)
       (set_fmem (store_range (fmem s) res_D (n * k) (snd r))
          (set_lmem (store_range (lmem s) res_I (n * k) (fst r)) s))).

(** Lines 161-166 and 364-369: convert the 64-bit indices to [value_idx]. *)
Definition narrow_indices (int64_indices : ptr) (size : Z) (inds : ptr)
  : Dev unit :=
  emit (ev_narrow size) ;;
  transform_idx size inds (fun s j => narrow (load (lmem s) int64_indices j)).

Definition compute_knn (X inds dists : ptr) (m n : Z) (search_items : ptr)
  (n_search_items : Z) (k : Z) (metric : DistanceType E) : Dev unit :=
  let inputs := [X] in
  let sizes := [int_wrap m] in
  int64_indices <- device_uvector (size_t_wrap (k * n_search_items)) ;;
  call_brute_force_knn inputs sizes n search_items n_search_items
    int64_indices dists k true true metric ;;
  narrow_indices int64_indices (size_t_wrap (k * n_search_items)) inds.

(** *** CUDA runtime calls used by [compute_knn_GF] *)

(** [cudaGetDevice(&device)]: writes [device] only on success. *)
Definition cudaGetDevice (device : Z) : Dev (cudaError_t * Z) :=
  fun s =>
    let st := cuda_status (cuda E) call_GetDevice in
    (Ok (st, if st =? cudaSuccess then cuda_current_device (cuda E)
             else device),
     record (ev_cuda call_GetDevice) s).

(** [cudaGetDeviceCount(&count)] *)
Definition cudaGetDeviceCount (count : Z) : Dev (cudaError_t * Z) :=
  fun s =>
    let st := cuda_status (cuda E) call_GetDeviceCount in
    (Ok (st, if st =? cudaSuccess then cuda_device_count (cuda E)
             else count),
     record (ev_cuda call_GetDeviceCount) s).

(** [cudaSetDevice(i)] at call site [c] *)
Definition cudaSetDevice (c : cuda_call) : Dev cudaError_t :=
  fun s => (Ok (cuda_status (cuda E) c), record (ev_cuda c) s).

(** [cudaMalloc(&p, bytes)]: on success [p] is a fresh block, otherwise it
    keeps its value. *)
Definition cudaMalloc (c : cuda_call) (p : ptr) (bytes : Z)
  : Dev (cudaError_t * ptr) :=
  fun s =>
    let st := cuda_status (cuda E) c in
    if st =? cudaSuccess
    then (Ok (st, mk_ptr (next_block s) 0),
          set_next_block (next_block s + 1) (record (ev_cuda c) s))
    else (Ok (st, p), record (ev_cuda c) s).

(** [cudaMemcpy(dst, src, bytes, cudaMemcpyDeviceToDevice)] between arrays
    of [value_t]: nothing is copied when the call fails. *)
Definition cudaMemcpy_value (c : cuda_call) (dst src : ptr) (bytes : Z)
  : Dev cudaError_t :=
  fun s =>
    let st := cuda_status (cuda E) c in
    if st =? cudaSuccess
    then (Ok st,
          record (ev_cuda c)
            (set_fmem (store_range (fmem s) dst (bytes / sizeof_value_t E)
                         (view (fmem s) src)) s))
    else (Ok st, record (ev_cuda c) s).

Definition sizeof_int64_t : Z := 8.

(** The same between arrays of [int64_t]. *)
Definition cudaMemcpy_int64 (c : cuda_call) (dst src : ptr) (bytes : Z)
  : Dev cudaError_t :=
  fun s =>
    let st := cuda_status (cuda E) c in
    if st =? cudaSuccess
    then (Ok st,
          record (ev_cuda c)
            (set_lmem (store_range (lmem s) dst (bytes / sizeof_int64_t)
                         (view (lmem s) src)) s))
    else (Ok st, record (ev_cuda c) s).

(** [cudaFree(p)] *)
Definition cudaFree (c : cuda_call) (p : ptr) : Dev cudaError_t :=
  fun s => (Ok (cuda_status (cuda E) c), record (ev_cuda c) s).

(** *** [compute_knn_GF], lines 170-370 *)

(** The call of [brute_force_knn_GF] on device [i] with output pointers
    [res_I], [res_D]. *)
Definition call_brute_force_knn_GF (i : Z) (inputs1 inputs2 : list ptr)
  (sizes : list Z) (D1 D2 : Z) (search_items1 search_items2 : ptr) (n : Z)
  (res_I res_D : ptr) (k : Z) (rowMajorIndex rowMajorQuery : bool)
  (metric : DistanceType E) : Dev unit :=
  fun s =>
    let r := brute_force_knn_GF E
               (map (view (fmem s)) inputs1) (map (view (fmem s)) inputs2)
               sizes D1 D2
               (view (fmem s) search_items1) (view (fmem s) search_items2)
               n k rowMajorIndex rowMajorQuery metric in
    (Ok tt,
     record (ev_brute_force_knn_GF i n k)
       (set_fmem (store_range (fmem s) res_D (n * k) (snd r))
          (set_lmem (store_range (lmem s) res_I (n * k) (fst r)) s))).

(** The vectors filled by the staging loop. *)
Record staged : Type := mk_staged {
  per_device_x1 : list ptr;
  per_device_x2 : list ptr;
  inputs1_vec : list (list ptr);
  inputs2_vec : list (list ptr)
}.

(** [v.push_back(x)] *)
Definition push_back {A} (v : list A) (x : A) : list A := v ++ [x].

(** [v[i]] *)
Definition at_ptr (v : list ptr) (i : Z) : ptr := nth (Z.to_nat i) v NULL.
Definition at_vec (v : list (list ptr)) (i : Z) : list ptr :=
  nth (Z.to_nat i) v [].

(** Body of the staging loop, lines 236-279. *)
Definition stage_device (X1 X2 : ptr) (m n1 n2 : Z) (sentinel_device : Z)
  (st : staged) (i : Z) : Dev staged :=
  let new_ptr_x1 := NULL in
  let new_ptr_x2 := NULL in
  if negb (i =? sentinel_device) then
    CHECK_CUDA_ERROR (cudaSetDevice (call_stage_SetDevice i))
      "cudaSetDevice(i)" 244 ;;
    r1 <- cudaMalloc (call_stage_Malloc_x1 i) new_ptr_x1
            (size_t_wrap (m * n1 * sizeof_value_t E)) ;;
    CHECK_CUDA_ERROR (ret (fst r1))
      "cudaMalloc(&new_ptr_x1, m*n1*sizeof(value_t))" 245 ;;
    let new_ptr_x1 := snd r1 in
    r2 <- cudaMalloc (call_stage_Malloc_x2 i) new_ptr_x2
            (size_t_wrap (m * n2 * sizeof_value_t E)) ;;
    CHECK_CUDA_ERROR (ret (fst r2))
      "cudaMalloc(&new_ptr_x2, m*n2*sizeof(value_t))" 246 ;;
    let new_ptr_x2 := snd r2 in
    CHECK_CUDA_ERROR
      (cudaMemcpy_value (call_stage_Memcpy_x1 i) new_ptr_x1 X1
         (size_t_wrap (m * n1 * sizeof_value_t E)))
      "cudaMemcpy(new_ptr_x1, X1, m*n1*sizeof(value_t) ,cudaMemcpyDeviceToDevice)"
      250 ;;
    CHECK_CUDA_ERROR
      (cudaMemcpy_value (call_stage_Memcpy_x2 i) new_ptr_x2 X2
         (size_t_wrap (m * n2 * sizeof_value_t E)))
      "cudaMemcpy(new_ptr_x2, X2, m*n2*sizeof(value_t) ,cudaMemcpyDeviceToDevice)"
      251 ;;
    ret (mk_staged (push_back (per_device_x1 st) new_ptr_x1)
                   (push_back (per_device_x2 st) new_ptr_x2)
                   (push_back (inputs1_vec st) [new_ptr_x1])
                   (push_back (inputs2_vec st) [new_ptr_x2]))
  else
    ret (mk_staged (push_back (per_device_x1 st) X1)
                   (push_back (per_device_x2 st) X2)
                   (push_back (inputs1_vec st) [X1])
                   (push_back (inputs2_vec st) [X2])).

(** Line 304: the number of query rows of device [i]. *)
Definition num_search_items_me (n_search_items num_devices i : Z) : Z :=
  if i =? int_wrap (num_devices - 1)
  then size_t_wrap (n_search_items / size_t_wrap num_devices
                    + n_search_items mod size_t_wrap num_devices)
  else n_search_items / size_t_wrap num_devices.

(** Line 305: the first query row of device [i]. *)
Definition start_pos_idx (n_search_items num_devices i : Z) : Z :=
  size_t_wrap ((n_search_items / size_t_wrap num_devices) * i).

(** Body of the dispatch loop, lines 290-340.  The iterations of the
    [omp parallel for] are run one after the other, in index order. *)
Definition dispatch_device (st : staged) (sizes : list Z)
  (dists int64_indices : ptr) (n1 n2 : Z) (n_search_items : Z) (k : Z)
  (metric : DistanceType E) (num_devices sentinel_device : Z) (i : Z)
  : Dev unit :=
  let inputs1 := at_vec (inputs1_vec st) i in
  let inputs2 := at_vec (inputs2_vec st) i in
  CHECK_CUDA_ERROR (cudaSetDevice (call_dispatch_SetDevice i))
    "cudaSetDevice(i)" 298 ;;
  let num_search_items_me := num_search_items_me n_search_items num_devices i in
  let start_pos_idx := start_pos_idx n_search_items num_devices i in
  let search_items_x1_local :=
    ptr_add (at_ptr (per_device_x1 st) i) (size_t_wrap (n1 * start_pos_idx)) in
  let search_items_x2_local :=
    ptr_add (at_ptr (per_device_x2 st) i) (size_t_wrap (n2 * start_pos_idx)) in
  if negb (i =? sentinel_device) then
    int64_indices_me <- device_uvector (size_t_wrap (k * num_search_items_me)) ;;
    dists_me <- device_uvector (size_t_wrap (k * num_search_items_me)) ;;
    call_brute_force_knn_GF i inputs1 inputs2 sizes n1 n2
      search_items_x1_local search_items_x2_local num_search_items_me
      int64_indices_me dists_me k true true metric ;;
    CHECK_CUDA_ERROR
      (cudaMemcpy_value (call_gather_Memcpy_dists i)
         (ptr_add dists (size_t_wrap (start_pos_idx * k))) dists_me
         (size_t_wrap (num_search_items_me * k * sizeof_value_t E)))
      "cudaMemcpy(dists + start_pos_idx*k, dists_me.data(), num_search_items_me*k*sizeof(value_t) ,cudaMemcpyDeviceToDevice)"
      323 ;;
    CHECK_CUDA_ERROR
      (cudaMemcpy_int64 (call_gather_Memcpy_inds i)
         (ptr_add int64_indices (size_t_wrap (start_pos_idx * k)))
         int64_indices_me
         (size_t_wrap (num_search_items_me * k * sizeof_int64_t)))
      "cudaMemcpy(int64_indices.data() + start_pos_idx*k, int64_indices_me.data(), num_search_items_me*k*sizeof(int64_t) ,cudaMemcpyDeviceToDevice)"
      326 ;;
    CHECK_CUDA_ERROR (cudaFree (call_Free_x1 i) (at_ptr (per_device_x1 st) i))
      "cudaFree(per_device_x1[i])" 329 ;;
    CHECK_CUDA_ERROR (cudaFree (call_Free_x2 i) (at_ptr (per_device_x2 st) i))
      "cudaFree(per_device_x2[i])" 333
  else
    call_brute_force_knn_GF i inputs1 inputs2 sizes n1 n2
      search_items_x1_local search_items_x2_local num_search_items_me
      (ptr_add int64_indices (size_t_wrap (start_pos_idx * k)))
      (ptr_add dists (size_t_wrap (start_pos_idx * k))) k true true metric.

(** Lines 185-362: the multi-device search.  It returns
    [int64_indices.data()], the merged 64-bit indices. *)
Definition compute_knn_GF_search (X1 X2 dists : ptr) (m n1 n2 : Z)
  (n_search_items : Z) (k : Z) (metric : DistanceType E) : Dev ptr :=
  let sizes := [int_wrap m] in
  let num_devices := 0 in
  let sentinel_device := 0 in
  r <- cudaGetDevice sentinel_device ;;
  CHECK_CUDA_ERROR (ret (fst r)) "cudaGetDevice(&sentinel_device)" 224 ;;
  let sentinel_device := snd r in
  r <- cudaGetDeviceCount num_devices ;;
  CHECK_CUDA_ERROR (ret (fst r)) "cudaGetDeviceCount(&num_devices)" 225 ;;
  let num_devices := snd r in
  st <- fold_M (stage_device X1 X2 m n1 n2 sentinel_device)
          (range num_devices) (mk_staged [] [] [] []) ;;
  CHECK_CUDA_ERROR (cudaSetDevice call_home_SetDevice)
    "cudaSetDevice(sentinel_device)" 282 ;;
  int64_indices <- device_uvector (size_t_wrap (k * n_search_items)) ;;
  for_each (range num_devices)
    (dispatch_device st sizes dists int64_indices n1 n2 n_search_items k
       metric num_devices sentinel_device) ;;
  _ <- cudaSetDevice call_final_SetDevice ;;
  ret int64_indices.

Definition compute_knn_GF (X1 X2 inds dists : ptr) (m n1 n2 : Z)
  (search_items1 search_items2 : ptr) (n_search_items : Z) (k : Z)
  (metric : DistanceType E) : Dev unit :=
  int64_indices <- compute_knn_GF_search X1 X2 dists m n1 n2
                     n_search_items k metric ;;
  narrow_indices int64_indices (size_t_wrap (k * n_search_items)) inds.

(** *** Steps shared by the two graph builders *)

(** The calls of the external kernels, with their output pointers. *)
Definition call_mutual_reachability_knn_l2 (out_inds out_dists X : ptr)
  (m n : Z) (k : Z) (core_dists : ptr) (core_dist_weight : value_t E)
  : Dev unit :=
  fun s =>
    let r := mutual_reachability_knn_l2 E
               (view (imem s) out_inds) (view (fmem s) out_dists)
               (view (fmem s) X) m n k (view (fmem s) core_dists)
               core_dist_weight in
    (Ok tt,
     record (ev_mutual_reachability_knn_l2 k)
       (set_fmem (store_range (fmem s) out_dists (m * k) (snd r))
          (set_imem (store_range (imem s) out_inds (m * k) (fst r)) s))).

Definition call_symmetrize (rows_ptr cols_ptr vals_ptr : ptr) (m n : Z)
  (nnz_in : Z) : Dev unit :=
  fun s =>
    (Ok tt,
     record (ev_symmetrize nnz_in)
       (set_out (symmetrize E (view (imem s) rows_ptr) (view (imem s) cols_ptr)
                   (view (fmem s) vals_ptr) m n nnz_in) s)).

Definition call_sorted_coo_to_csr (row_ind : ptr) (m : Z) : Dev unit :=
  fun s =>
    (Ok tt,
     record (ev_sorted_coo_to_csr m)
       (set_imem (store_range (imem s) row_ind m
                    (sorted_coo_to_csr E (rows (out s)) (nnz (out s)) m)) s)).

(** Lines 451-456 and 533-538: [coo_rows[c] = c / min_samples]. *)
Definition fill_coo_rows (coo_rows : ptr) (m : Z) (min_samples : Z)
  : Dev unit :=
  emit (ev_coo_rows (size_t_wrap (m * min_samples)) min_samples) ;;
  transform_idx (counting_distance (size_t_wrap (m * min_samples))) coo_rows
    (fun _ j => let c := narrow j in
                narrow (arith_wrap (Z.quot c min_samples))).

(** The lambda of lines 471-475 and 553-557. *)
Definition self_loop_weight (tup : Z * Z * value_t E) : value_t E :=
  let '(r, c, v) := tup in
  if r =? c then value_max E else v.

(** Lines 464-475 and 546-557: the final pass over the [out.nnz] edges of
    the output graph, written in place to [out.vals()]. *)
Definition self_loops_get_max_distance : Dev unit :=
  fun s =>
    let o := out s in
    (Ok tt,
     record (ev_self_loops (nnz o))
       (set_out
          (mk_COO (rows o) (cols o)
             (fun e => if (0 <=? e) && (e <? nnz o)
                       then self_loop_weight (rows o e, cols o e, vals o e)
                       else vals o e)
             (nnz o)) s)).

(** *** [mutual_reachability_graph], lines 416-476 *)

(** Lines 428-461: everything before the final self-loop pass. *)
Definition mutual_reachability_graph_to_csr (X : ptr) (m n : Z)
  (metric : DistanceType E) (min_samples : Z) (alpha : value_t E)
  (indptr core_dists : ptr) : Dev unit :=
  RAFT_EXPECTS (if metric_eq_dec E metric (L2SqrtExpanded E) then true else false)
    "Currently only L2 expanded distance is supported" ;;
  coo_rows <- device_uvector (size_t_wrap (min_samples * m)) ;;
  inds <- device_uvector (size_t_wrap (min_samples * m)) ;;
  dists <- device_uvector (size_t_wrap (min_samples * m)) ;;
  compute_knn X inds dists m n X m min_samples metric ;;
  core_distances dists min_samples min_samples m core_dists ;;
  call_mutual_reachability_knn_l2 inds dists X m n min_samples core_dists
    (value_div E (value_one E) alpha) ;;
  fill_coo_rows coo_rows m min_samples ;;
  call_symmetrize coo_rows inds dists m m (size_t_wrap (min_samples * m)) ;;
  call_sorted_coo_to_csr indptr (size_t_wrap (m + 1)).

Definition mutual_reachability_graph (X : ptr) (m n : Z)
  (metric : DistanceType E) (min_samples : Z) (alpha : value_t E)
  (indptr core_dists : ptr) : Dev unit :=
  mutual_reachability_graph_to_csr X m n metric min_samples alpha
    indptr core_dists ;;
  self_loops_get_max_distance.

(** *** [mutual_reachability_graph_GF], lines 479-558 *)

(** Lines 493-543: everything before the final self-loop pass. *)
Definition mutual_reachability_graph_GF_to_csr (X1 X2 : ptr) (m n1 n2 : Z)
  (metric : DistanceType E) (min_samples : Z) (alpha : value_t E)
  (indptr core_dists : ptr) : Dev unit :=
  RAFT_EXPECTS (if metric_eq_dec E metric (L2SqrtExpanded E) then true else false)
    "Currently only L2 expanded distance is supported" ;;
  let min_samples := 64 in
  coo_rows <- device_uvector (size_t_wrap (min_samples * m)) ;;
  inds <- device_uvector (size_t_wrap (min_samples * m)) ;;
  dists <- device_uvector (size_t_wrap (min_samples * m)) ;;
  compute_knn_GF X1 X2 inds dists m n1 n2 X1 X2 m min_samples metric ;;
  core_distances dists min_samples 64 m core_dists ;;
  fill_coo_rows coo_rows m min_samples ;;
  call_symmetrize coo_rows inds dists m m (size_t_wrap (min_samples * m)) ;;
  call_sorted_coo_to_csr indptr (size_t_wrap (m + 1)).

Definition mutual_reachability_graph_GF (X1 X2 : ptr) (m n1 n2 : Z)
  (metric : DistanceType E) (min_samples : Z) (alpha : value_t E)
  (indptr core_dists : ptr) : Dev unit :=
  mutual_reachability_graph_GF_to_csr X1 X2 m n1 n2 metric min_samples alpha
    indptr core_dists ;;
  self_loops_get_max_distance.

End Reachability.


(** ** Vocabulary of the specifications *)

Section Specifications.

Variable E : Externals.

(** The computation never throws. *)
Definition always_ok {A} (c : M E A) : Prop :=
  forall s, exists a s', c s = (Ok a, s').

(** Whatever the outcome, the computation only appends to the history, and
    every event it appends satisfies [P]. *)
Definition appends (P : event -> Prop) {A} (c : M E A) : Prop :=
  forall s r s', c s = (r, s') ->
    exists t, trace s' = trace s ++ t /\ Forall P t.

(** The computation leaves the cells [C] of block [b] of the [value_t]
    heap as they are, provided [b] was allocated before it starts; [b] is
    still allocated afterwards, and a value it returns satisfies [Q]. *)
Definition keeps (b : Z) (C : Z -> Prop) {A} (Q : A -> Prop) (c : M E A)
  : Prop :=
  forall s r s', c s = (r, s') -> b < next_block s ->
    b < next_block s' /\
    (forall o, C o -> fmem s' b o = fmem s b o) /\
    (forall a, r = Ok a -> Q a).

(** When the computation returns normally, [ev] is in the history. *)
Definition emits (ev : event) {A} (c : M E A) : Prop :=
  forall s a s', c s = (Ok a, s') -> In ev (trace s').

(** A value the computation returns satisfies [Q]. *)
Definition returns {A} (Q : A -> Prop) (c : M E A) : Prop :=
  forall s a s', c s = (Ok a, s') -> Q a.

(** The home device and the device count [compute_knn_GF] works with:
    what the runtime reports, or the initial 0 when the query fails. *)
Definition sentinel_device_of : Z :=
  if cuda_status (cuda E) call_GetDevice =? cudaSuccess
  then cuda_current_device (cuda E) else 0.

Definition num_devices_of : Z :=
  if cuda_status (cuda E) call_GetDeviceCount =? cudaSuccess
  then cuda_device_count (cuda E) else 0.

End Specifications.
Arguments always_ok {E A} c.
Arguments appends {E} P {A} c.
Arguments keeps {E} b C {A} Q c.
Arguments emits {E} ev {A} c.
Arguments returns {E A} Q c.

(** No constraint on an event. *)
Definition any_event (ev : event) : Prop := True.

(** Offset [o] lies in the slice of the merged output ([k] entries per
    query row) that belongs to device [i] of [num_devices]. *)
Definition chunk_cells (base : ptr) (n_search_items k num_devices i : Z)
  (o : Z) : Prop :=
  off base + start_pos_idx n_search_items num_devices i * k <= o
  < off base + (start_pos_idx n_search_items num_devices i
                + num_search_items_me n_search_items num_devices i) * k.

(** What the history of [mutual_reachability_graph_GF] may contain: every
    search of the GF primitive and the core-distance kernel run with
    neighbourhood size 64, and neither the single-set search nor the
    mutual-reachability kernel is launched. *)
Definition gf_event_ok (ev : event) : Prop :=
  match ev with
  | ev_brute_force_knn_GF _ _ k => k = 64
  | ev_core_distances min_samples n_neighbors _ =>
      min_samples = 64 /\ n_neighbors = 64
  | ev_brute_force_knn _ _ => False
  | ev_mutual_reachability_knn_l2 _ => False
  | _ => True
  end.

(** The event is not a launch of the mutual-reachability kernel. *)
Definition not_mutual_reachability (ev : event) : Prop :=
  match ev with
  | ev_mutual_reachability_knn_l2 _ => False
  | _ => True
  end.

(** What the history of [mutual_reachability_graph] may contain: the
    core-distance kernel, the search and the mutual-reachability kernel all
    run with the caller's [min_samples] as neighbourhood size. *)
Definition mr_event_ok (min_samples : Z) (ev : event) : Prop :=
  match ev with
  | ev_core_distances ms n_neighbors _ =>
      ms = min_samples /\ n_neighbors = min_samples
  | ev_brute_force_knn _ k => k = min_samples
  | ev_mutual_reachability_knn_l2 k => k = min_samples
  | ev_brute_force_knn_GF _ _ _ => False
  | _ => True
  end.

(** ** A concrete instance

    Weights are integers, [value_idx] is 32 bits wide, the search
    primitives return neighbour [j mod k] at distance [100 + j] in position
    [j],
    and [symmetrize] hands its input through.  Cell [o] of block [b] of
    the [value_t] heap initially holds [1000 * b + o]. *)

Module Example.

Inductive metric : Type :=
| m_L2Expanded
| m_L2SqrtExpanded
| m_CosineExpanded
| m_L1.

Definition metric_eq_dec (a b : metric) : {a = b} + {a <> b}.
Proof. decide equality. Defined.

Definition knn (inputs : list (Z -> Z)) (sizes : list Z) (D : Z)
  (search_items : Z -> Z) (n k : Z) (rowMajorIndex rowMajorQuery : bool)
  (metric_arg : metric) : (Z -> Z) * (Z -> Z) :=
  (fun j => j mod k, fun j => 100 + j).

Definition knn_GF (inputs1 inputs2 : list (Z -> Z)) (sizes : list Z)
  (D1 D2 : Z) (search_items1 search_items2 : Z -> Z) (n k : Z)
  (rowMajorIndex rowMajorQuery : bool) (metric_arg : metric)
  : (Z -> Z) * (Z -> Z) :=
  (fun j => j mod k, fun j => 100 + j).

Definition mr_knn (inds : Z -> Z) (dists X : Z -> Z) (m n k : Z)
  (core_dists : Z -> Z) (weight : Z) : (Z -> Z) * (Z -> Z) :=
  (inds, fun j => Z.max (dists j) (core_dists (j / k)) * weight).

Definition sym (r c : Z -> Z) (v : Z -> Z) (m n nnz_in : Z) : COO Z :=
  mk_COO r c v nnz_in.

Definition csr (r : Z -> Z) (nnz_in m : Z) : Z -> Z := fun row => 2 * row.

(** Every runtime call succeeds; two devices, the caller is on device 0. *)
Definition runtime_ok : cuda_runtime :=
  mk_cuda_runtime (fun _ => cudaSuccess) 0 2 cudaSuccess.

(** The copy that gathers the distances of device 1 fails. *)
Definition runtime_gather_fails : cuda_runtime :=
  mk_cuda_runtime
    (fun c => match c with
              | call_gather_Memcpy_dists 1 => 700
              | _ => cudaSuccess
              end)
    0 2 cudaSuccess.

Definition FLT_MAX : Z := 340282346638528859811704183484516925440.

Definition E32 (rt : cuda_runtime) : Externals :=
  mk_Externals Z 4 FLT_MAX 1 Z.div 32 metric m_L2SqrtExpanded metric_eq_dec
    knn knn_GF mr_knn sym csr rt.

Definition initial (rt : cuda_runtime) : device_state (E32 rt) :=
  mk_state (E := E32 rt)
    (fun b o => 1000 * b + o) (fun _ _ => -7) (fun _ _ => -9) 10
    (mk_COO (fun e => e) (fun e => 1) (fun e => 5 * e) 3) [] [].

Definition X1 : ptr := mk_ptr 1 0.
Definition X2 : ptr := mk_ptr 2 0.
Definition dists : ptr := mk_ptr 3 0.
Definition inds : ptr := mk_ptr 4 0.
Definition indptr : ptr := mk_ptr 5 0.
Definition core_dists : ptr := mk_ptr 6 0.

End Example.

(** ** Further vocabulary *)

Section MoreSpecifications.

Variable E : Externals.

(** The computation prints nothing on the error stream, and a value it
    returns satisfies [Q]. *)
Definition silent {A} (Q : A -> Prop) (c : M E A) : Prop :=
  forall s r s', c s = (r, s') ->
    cerr s' = cerr s /\ (forall a, r = Ok a -> Q a).

(** Started with [nb] as the next block, the computation leaves the three
    heaps as they are and ends with [nb'] as the next block; a value it
    returns satisfies [Q]. *)
Definition heaps_fixed (nb nb' : Z) {A} (Q : A -> Prop) (c : M E A) : Prop :=
  forall s r s', c s = (r, s') -> next_block s = nb ->
    fmem s' = fmem s /\ imem s' = imem s /\ lmem s' = lmem s /\
    next_block s' = nb' /\ (forall a, r = Ok a -> Q a).

(** The three heaps of [s] are those of [s0], and [nb] is the next block. *)
Definition same_heaps (s0 : device_state E) (nb : Z) (s : device_state E)
  : Prop :=
  fmem s = fmem s0 /\ imem s = imem s0 /\ lmem s = lmem s0 /\
  next_block s = nb.

(** The heaps of [s] are [F], [I] and [L], and [N] is the next block. *)
Definition heaps_are (F : heap (value_t E)) (I L : heap Z) (N : Z)
  (s : device_state E) : Prop :=
  fmem s = F /\ imem s = I /\ lmem s = L /\ next_block s = N.

(** Started in a state that satisfies [P], the computation returns a value
    [a] and ends in a state that satisfy [Q a]. *)
Definition hoare (P : device_state E -> Prop) {A} (c : M E A)
  (Q : A -> device_state E -> Prop) : Prop :=
  forall s, P s -> exists a s', c s = (Ok a, s') /\ Q a s'.

(** The search that device [i] of [num_devices] runs in the dispatch loop
    (lines 290-336): the GF primitive with the device's two pointers [p1]
    and [p2] as index, read from the value heap [h], and with the device's
    share of the rows as queries. *)
Definition device_search (h : heap (value_t E)) (p1 p2 : ptr)
  (m n1 n2 n_search_items k : Z) (metric : DistanceType E)
  (num_devices i : Z) : (Z -> Z) * (Z -> value_t E) :=
  brute_force_knn_GF E [view h p1] [view h p2] [int_wrap m] n1 n2
    (view h (ptr_add p1 (size_t_wrap
                           (n1 * start_pos_idx n_search_items num_devices i))))
    (view h (ptr_add p2 (size_t_wrap
                           (n2 * start_pos_idx n_search_items num_devices i))))
    (num_search_items_me n_search_items num_devices i) k true true metric.

End MoreSpecifications.
Arguments silent {E A} Q c.
Arguments heaps_fixed {E} nb nb' {A} Q c.
Arguments same_heaps {E} s0 nb s.
Arguments heaps_are {E} F I L N s.
Arguments device_search {E} h p1 p2 m n1 n2 n_search_items k metric
  num_devices i.
Arguments hoare {E} P {A} c Q.

(** Every pointer into a block that satisfies [B] denotes the same array
    in [h'] as in [h]. *)
Definition same_views {T} (B : Z -> Prop) (h h' : heap T) : Prop :=
  forall p, B (blk p) -> view h' p = view h p.

(** The event is not a launch of a search primitive. *)
Definition no_search (ev : event) : Prop :=
  match ev with
  | ev_brute_force_knn _ _ => False
  | ev_brute_force_knn_GF _ _ _ => False
  | _ => True
  end.

(** What the staging loop of [compute_knn_GF] has built after [a] devices:
    one entry per device in each of the four vectors, the input vectors
    holding the per-device pointers, and the caller's own pointers at the
    index of the home device. *)
Definition staged_for (X1 X2 : ptr) (sentinel_device : Z) (st : staged)
  (a : nat) : Prop :=
  List.length (per_device_x1 st) = a /\ List.length (per_device_x2 st) = a /\
  List.length (inputs1_vec st) = a /\ List.length (inputs2_vec st) = a /\
  (forall h, (h < a)%nat ->
     nth h (inputs1_vec st) [] = [nth h (per_device_x1 st) NULL] /\
     nth h (inputs2_vec st) [] = [nth h (per_device_x2 st) NULL]) /\
  (forall h, (h < a)%nat -> Z.of_nat h = sentinel_device ->
     nth h (per_device_x1 st) NULL = X1 /\
     nth h (per_device_x2 st) NULL = X2).

(** What the staging loop of [compute_knn_GF] maintains, after [a]
    devices, about the vectors [st], the value heap [F] and the next block
    [N]; [F0] and [N0] are the heap and the next block when the loop
    starts, and [bd] is a block allocated before.
    - The vectors are as [staged_for] says.
    - The arrays of the blocks allocated before the loop are untouched.
    - Every pointer of the vectors lies in an allocated block other than
      [bd].
    - A device other than the home device whose allocation and copy
      succeeded holds, in a block of its own, a copy of the caller's array:
      the first [m*n1] elements of [X1], the first [m*n2] of [X2]. *)
Definition staging_inv (E : Externals) (X1 X2 : ptr) (m n1 n2 h : Z)
  (F0 : heap (value_t E)) (N0 bd : Z) (a : nat) (st : staged)
  (F : heap (value_t E)) (N : Z) : Prop :=
  staged_for X1 X2 h st a /\
  N0 <= N /\
  same_views (fun b => 0 < b < N0) F0 F /\
  (forall i,
     (blk (nth i (per_device_x1 st) NULL) < N /\
      blk (nth i (per_device_x1 st) NULL) <> bd) /\
     (blk (nth i (per_device_x2 st) NULL) < N /\
      blk (nth i (per_device_x2 st) NULL) <> bd)) /\
  (forall i, (i < a)%nat -> Z.of_nat i <> h ->
     (cuda_status (cuda E) (call_stage_Malloc_x1 (Z.of_nat i)) = cudaSuccess ->
      cuda_status (cuda E) (call_stage_Memcpy_x1 (Z.of_nat i)) = cudaSuccess ->
      N0 <= blk (nth i (per_device_x1 st) NULL) /\
      forall o,
        0 <= o < size_t_wrap (m * n1 * sizeof_value_t E) / sizeof_value_t E ->
        load F (nth i (per_device_x1 st) NULL) o = load F0 X1 o) /\
     (cuda_status (cuda E) (call_stage_Malloc_x2 (Z.of_nat i)) = cudaSuccess ->
      cuda_status (cuda E) (call_stage_Memcpy_x2 (Z.of_nat i)) = cudaSuccess ->
      N0 <= blk (nth i (per_device_x2 st) NULL) /\
      forall o,
        0 <= o < size_t_wrap (m * n2 * sizeof_value_t E) / sizeof_value_t E ->
        load F (nth i (per_device_x2 st) NULL) o = load F0 X2 o)).

(** What the dispatch loop of [compute_knn_GF] maintains, after the devices
    below [a], about the value heap [F], the 64-bit heap [L] and the next
    block [N]; [Fd] and [Nd] are the value heap and the next block when the
    loop starts, and [p] is the merged 64-bit index buffer.
    - The arrays of the blocks allocated before the loop are untouched,
      the block of [dists] excepted.
    - The slice of [dists] and of [p] that belongs to a device below [a]
      holds the distances and the indices which the search of that device
      returned. *)
Definition dispatch_inv (E : Externals) (st : staged) (dists p : ptr)
  (m n1 n2 n_search_items k : Z) (metric : DistanceType E)
  (num_devices : Z) (Fd : heap (value_t E)) (Nd : Z) (a : Z)
  (F : heap (value_t E)) (L : heap Z) (N : Z) : Prop :=
  Nd <= N /\
  same_views (fun b => b < Nd /\ b <> blk dists) Fd F /\
  (forall i, 0 <= i < a ->
     forall j,
       0 <= j < num_search_items_me n_search_items num_devices i * k ->
       let r :=
         device_search Fd (at_ptr (per_device_x1 st) i)
           (at_ptr (per_device_x2 st) i) m n1 n2 n_search_items k metric
           num_devices i in
       load F dists (start_pos_idx n_search_items num_devices i * k + j)
       = snd r j /\
       load L p (start_pos_idx n_search_items num_devices i * k + j)
       = fst r j).

(** Further runtimes for the examples. *)
Module MoreExample.

(** The count query succeeds and reports no device. *)
Definition runtime_no_device : cuda_runtime :=
  mk_cuda_runtime (fun _ => cudaSuccess) 0 0 cudaSuccess.

(** One device; the calls of [cudaSetDevice] fail on it, all others
    succeed. *)
Definition runtime_one_device : cuda_runtime :=
  mk_cuda_runtime
    (fun c => match c with
              | call_home_SetDevice => 101
              | call_dispatch_SetDevice _ => 101
              | call_final_SetDevice => 101
              | _ => cudaSuccess
              end)
    0 1 cudaSuccess.

(** The block of the edge sources in the examples. *)
Definition coo_rows : ptr := mk_ptr 7 0.

End MoreExample.

(** * Properties *)

(** ** Machine integers *)

Lemma pow2_double (w : Z) : 0 < w -> 2 ^ w = 2 * 2 ^ (w - 1).
Proof.
  intros Hw. replace w with (Z.succ (w - 1)) at 1 by lia.
  rewrite Z.pow_succ_r by lia. reflexivity.
Qed.

Lemma wrap_signed_id (w z : Z) :
  0 < w -> in_signed w z -> wrap_signed w z = z.
Proof.
  intros Hw [Hlo Hhi]. unfold wrap_signed.
  pose proof (pow2_double w Hw) as Hp.
  rewrite Z.mod_small by lia. lia.
Qed.

Lemma wrap_unsigned_id (w z : Z) :
  in_unsigned w z -> wrap_unsigned w z = z.
Proof. intros H. unfold wrap_unsigned. apply Z.mod_small. exact H. Qed.

Lemma size_t_wrap_id (z : Z) : size_t_range z -> size_t_wrap z = z.
Proof. apply wrap_unsigned_id. Qed.

Lemma int_wrap_id (z : Z) : int_range z -> int_wrap z = z.
Proof. apply wrap_signed_id. lia. Qed.

Lemma int_range_size_t (z : Z) : 0 <= z -> int_range z -> size_t_range z.
Proof.
  unfold int_range, in_signed, size_t_range, in_unsigned.
  change (2 ^ (32 - 1)) with 2147483648.
  change (2 ^ 64) with 18446744073709551616. lia.
Qed.

(** ** Device memory *)

Lemma in_range_spec p len b o :
  in_range p len b o = true <-> b = blk p /\ off p <= o < off p + len.
Proof.
  unfold in_range. rewrite !andb_true_iff, Z.eqb_eq, Z.leb_le, Z.ltb_lt.
  tauto.
Qed.

Lemma in_range_false p len b o :
  ~ (b = blk p /\ off p <= o < off p + len) -> in_range p len b o = false.
Proof.
  intros H. destruct (in_range p len b o) eqn:Hr; [|reflexivity].
  apply in_range_spec in Hr. contradiction.
Qed.

Lemma load_store_range_in {T} (h : heap T) p len src j :
  0 <= j < len -> load (store_range h p len src) p j = src j.
Proof.
  intros Hj. unfold load, store_range.
  replace (in_range p len (blk p) (off p + j)) with true.
  - f_equal. lia.
  - symmetry. apply in_range_spec. lia.
Qed.

Lemma store_range_out {T} (h : heap T) p len src b o :
  ~ (b = blk p /\ off p <= o < off p + len) ->
  store_range h p len src b o = h b o.
Proof.
  intros H. unfold store_range. rewrite in_range_false by exact H.
  reflexivity.
Qed.

Lemma store_range_other_block {T} (h : heap T) p len src b o :
  b <> blk p -> store_range h p len src b o = h b o.
Proof. intros H. apply store_range_out. tauto. Qed.

(** ** The monad *)

Lemma bind_inv {E A B} (c : M E A) (k : A -> M E B) s r s' :
  bind c k s = (r, s') ->
  (exists a s1, c s = (Ok a, s1) /\ k a s1 = (r, s')) \/
  (exists e, c s = (Err e, s') /\ r = Err e).
Proof.
  unfold bind. destruct (c s) as [[a|e] s1]; intros H.
  - left. exists a, s1. split; [reflexivity|exact H].
  - right. exists e. inversion H; subst. split; reflexivity.
Qed.

Lemma bind_ok_inv {E A B} (c : M E A) (k : A -> M E B) s b s' :
  bind c k s = (Ok b, s') ->
  exists a s1, c s = (Ok a, s1) /\ k a s1 = (Ok b, s').
Proof.
  intros H. apply bind_inv in H. destruct H as [H|[e [_ H]]].
  - exact H.
  - discriminate.
Qed.

Lemma bind_ok {E A B} (c : M E A) (k : A -> M E B) s a s1 :
  c s = (Ok a, s1) -> bind c k s = k a s1.
Proof. intros H. unfold bind. rewrite H. reflexivity. Qed.

Lemma bind_err {E A B} (c : M E A) (k : A -> M E B) s e s1 :
  c s = (Err e, s1) -> bind c k s = (Err e, s1).
Proof. intros H. unfold bind. rewrite H. reflexivity. Qed.

(** ** The partition of the query rows, lines 303-305 *)

Lemma chunk_facts (n d : Z) :
  size_t_range n -> 1 <= d -> int_range d ->
  size_t_wrap d = d /\ int_wrap (d - 1) = d - 1 /\
  0 <= n / d /\ 0 <= n mod d < d /\ n = d * (n / d) + n mod d.
Proof.
  intros Hn Hd Hdr.
  split; [apply size_t_wrap_id, int_range_size_t; [lia|exact Hdr]|].
  split; [apply int_wrap_id; unfold int_range, in_signed in *; lia|].
  split; [apply Z.div_pos; unfold size_t_range, in_unsigned in Hn; lia|].
  split; [apply Z.mod_pos_bound; lia|].
  apply Z_div_mod_eq_full.
Qed.

Lemma start_pos_idx_eq (n d i : Z) :
  size_t_range n -> 1 <= d -> int_range d -> 0 <= i < d ->
  start_pos_idx n d i = i * (n / d).
Proof.
  intros Hn Hd Hdr Hi.
  destruct (chunk_facts n d Hn Hd Hdr) as (Hsd & _ & Hq & Hr & Hdiv).
  unfold start_pos_idx. rewrite Hsd.
  rewrite size_t_wrap_id; [lia|].
  unfold size_t_range, in_unsigned in *. nia.
Qed.

Lemma num_search_items_me_eq (n d i : Z) :
  size_t_range n -> 1 <= d -> int_range d -> 0 <= i < d ->
  num_search_items_me n d i
  = if i =? d - 1 then n / d + n mod d else n / d.
Proof.
  intros Hn Hd Hdr Hi.
  destruct (chunk_facts n d Hn Hd Hdr) as (Hsd & Hid & Hq & Hr & Hdiv).
  unfold num_search_items_me. rewrite Hsd, Hid.
  destruct (i =? d - 1); [|reflexivity].
  apply size_t_wrap_id. unfold size_t_range, in_unsigned in *. nia.
Qed.

Lemma chunk_end_le_next_start (n d i j : Z) :
  size_t_range n -> 1 <= d -> int_range d -> 0 <= i < j -> j < d ->
  start_pos_idx n d i + num_search_items_me n d i <= start_pos_idx n d j.
Proof.
  intros Hn Hd Hdr Hij Hj.
  rewrite !start_pos_idx_eq, num_search_items_me_eq by (assumption || lia).
  destruct (chunk_facts n d Hn Hd Hdr) as (_ & _ & Hq & _ & _).
  replace (i =? d - 1) with false by (symmetry; apply Z.eqb_neq; lia).
  nia.
Qed.

Lemma last_chunk_end (n d : Z) :
  size_t_range n -> 1 <= d -> int_range d ->
  start_pos_idx n d (d - 1) + num_search_items_me n d (d - 1) = n.
Proof.
  intros Hn Hd Hdr.
  rewrite start_pos_idx_eq, num_search_items_me_eq by (assumption || lia).
  rewrite Z.eqb_refl.
  destruct (chunk_facts n d Hn Hd Hdr) as (_ & _ & _ & _ & Hdiv). nia.
Qed.

(** C5.  For a row count [n_search_items] and a device count
    [num_devices >= 1], device [i] gets the rows from
    [i * floor(n_search_items / num_devices)] on, as many as
    [floor(n_search_items / num_devices)], and the last device
    [n_search_items mod num_devices] more; the chunks of two different
    devices do not overlap and every row in [0 .. n_search_items-1] lies in
    the chunk of some device. *)
Theorem partition_is_contiguous_disjoint_and_covers
  (n_search_items num_devices : Z) :
  size_t_range n_search_items -> 1 <= num_devices -> int_range num_devices ->
  (forall i, 0 <= i < num_devices ->
     start_pos_idx n_search_items num_devices i
       = i * (n_search_items / num_devices) /\
     num_search_items_me n_search_items num_devices i
       = if i =? num_devices - 1
         then n_search_items / num_devices + n_search_items mod num_devices
         else n_search_items / num_devices) /\
  (forall i j, 0 <= i < j -> j < num_devices ->
     start_pos_idx n_search_items num_devices i
     + num_search_items_me n_search_items num_devices i
     <= start_pos_idx n_search_items num_devices j) /\
  (forall r, 0 <= r < n_search_items ->
     exists i, 0 <= i < num_devices /\
       start_pos_idx n_search_items num_devices i <= r
       < start_pos_idx n_search_items num_devices i
         + num_search_items_me n_search_items num_devices i).
Proof.
  intros Hn Hd Hdr.
  destruct (chunk_facts _ _ Hn Hd Hdr) as (_ & _ & Hq & Hr & Hdiv).
  split; [|split].
  - intros i Hi. split.
    + apply start_pos_idx_eq; assumption.
    + apply num_search_items_me_eq; assumption.
  - intros i j Hij Hj. apply chunk_end_le_next_start; assumption.
  - intros r Hrow.
    set (q := n_search_items / num_devices) in *.
    destruct (Z_lt_le_dec r (q * (num_devices - 1))) as [Hin|Hlast].
    + (* a device before the last: the row's quotient by the chunk size *)
      assert (Hqpos : 0 < q) by nia.
      exists (r / q).
      assert (Hrq : r = q * (r / q) + r mod q) by apply Z_div_mod_eq_full.
      pose proof (Z.mod_pos_bound r q Hqpos) as Hm.
      assert (Hlo : 0 <= r / q) by (apply Z.div_pos; lia).
      assert (Hhi : r / q < num_devices - 1).
      { apply Z.div_lt_upper_bound; lia. }
      rewrite start_pos_idx_eq, num_search_items_me_eq by (assumption || lia).
      replace (r / q =? num_devices - 1) with false
        by (symmetry; apply Z.eqb_neq; lia).
      fold q. split; [lia|]. nia.
    + (* the last device *)
      exists (num_devices - 1).
      pose proof (last_chunk_end _ _ Hn Hd Hdr) as Hend.
      rewrite start_pos_idx_eq in * by (assumption || lia).
      fold q in Hend |- *. split; [lia|]. split; [lia|]. lia.
Qed.

Lemma num_search_items_me_nonneg (n d i : Z) :
  size_t_range n -> 1 <= d -> int_range d -> 0 <= i < d ->
  0 <= num_search_items_me n d i.
Proof.
  intros Hn Hd Hdr Hi. rewrite num_search_items_me_eq by assumption.
  destruct (chunk_facts n d Hn Hd Hdr) as (_ & _ & Hq & Hr & _).
  destruct (i =? d - 1); lia.
Qed.

Lemma chunk_offset_exact (n d k x : Z) :
  size_t_range n -> 1 <= d -> int_range d -> 0 <= k ->
  size_t_range (n * k) -> 0 <= x < d ->
  size_t_wrap (start_pos_idx n d x * k) = start_pos_idx n d x * k.
Proof.
  intros Hn Hd Hdr Hk Hnk Hx.
  destruct (chunk_facts n d Hn Hd Hdr) as (_ & _ & Hq & Hr & Hdiv).
  rewrite start_pos_idx_eq by assumption.
  apply size_t_wrap_id. unfold size_t_range, in_unsigned in *.
  assert (Hle : x * (n / d) <= n) by nia.
  split; [nia|].
  apply Z.le_lt_trans with (n * k); [|lia].
  apply Z.mul_le_mono_nonneg_r; lia.
Qed.

Lemma chunk_cells_disjoint (base : ptr) (n d k x i o len : Z) :
  size_t_range n -> 1 <= d -> int_range d -> 0 <= k ->
  0 <= x < d -> 0 <= i < d -> x <> i ->
  len <= num_search_items_me n d x * k ->
  chunk_cells base n k d i o ->
  ~ (off base + start_pos_idx n d x * k <= o
     < off base + start_pos_idx n d x * k + len).
Proof.
  intros Hn Hd Hdr Hk Hx Hi Hxi Hlen [Hlo Hhi] [Hlo' Hhi'].
  destruct (Z_lt_le_dec x i) as [Hlt|Hge].
  - pose proof (chunk_end_le_next_start n d x i Hn Hd Hdr
                  (conj (proj1 Hx) Hlt) (proj2 Hi)) as Hsep.
    assert (Hmul : (start_pos_idx n d x + num_search_items_me n d x) * k
                   <= start_pos_idx n d i * k)
      by (apply Z.mul_le_mono_nonneg_r; lia).
    lia.
  - assert (Hgt : i < x) by lia.
    pose proof (chunk_end_le_next_start n d i x Hn Hd Hdr
                  (conj (proj1 Hi) Hgt) (proj2 Hx)) as Hsep.
    assert (Hmul : (start_pos_idx n d i + num_search_items_me n d i) * k
                   <= start_pos_idx n d x * k)
      by (apply Z.mul_le_mono_nonneg_r; lia).
    lia.
Qed.

Lemma memcpy_len_le (count sz : Z) :
  0 < sz -> 0 <= count -> size_t_wrap (count * sz) / sz <= count.
Proof.
  intros Hsz Hcount. unfold size_t_wrap, wrap_unsigned.
  rewrite <- (Z.div_mul count sz) at 2 by lia.
  apply Z.div_le_mono; [exact Hsz|].
  apply Z.mod_le; [nia|]. apply Z.pow_pos_nonneg; lia.
Qed.

Lemma in_range_list (n x : Z) : In x (range n) -> 0 <= x < n.
Proof.
  unfold range. intros Hin. apply in_map_iff in Hin.
  destruct Hin as (j & <- & Hj). apply in_seq in Hj. lia.
Qed.

Section ReachabilityFacts.

Variable E : Externals.

Local Abbreviation state := (device_state E).

(** ** [core_distances] *)

Lemma narrow_id (v : Z) : 0 < idx_bits E -> idx_range E v -> narrow E v = v.
Proof. intros Hw Hv. apply wrap_signed_id; assumption. Qed.

Lemma arith_wrap_id (v : Z) :
  in_signed (Z.max (idx_bits E) 32) v -> arith_wrap E v = v.
Proof. intros Hv. apply wrap_signed_id; [lia|assumption]. Qed.

Lemma counting_distance_id (n : Z) :
  0 < idx_bits E -> idx_range E n -> counting_distance E n = n.
Proof.
  intros Hw Hn. unfold counting_distance. rewrite narrow_id by assumption.
  lia.
Qed.

Lemma idx_range_below (n i : Z) :
  0 < idx_bits E -> idx_range E n -> 0 <= i < n -> idx_range E i.
Proof.
  unfold idx_range, in_signed. intros Hw [Hlo Hhi] Hi.
  assert (0 < 2 ^ (idx_bits E - 1)) by (apply Z.pow_pos_nonneg; lia).
  lia.
Qed.


(** C4.  When [n_neighbors < min_samples], [core_distances] fails with an
    invalid-configuration error and leaves the device state as it found
    it: no entry of the output array, and nothing else, is written. *)
Theorem core_distances_rejects_small_neighborhood
  (knn_dists out_ptr : ptr) (min_samples n_neighbors n : Z) (s : state) :
  n_neighbors < min_samples ->
  exists msg,
    core_distances E knn_dists min_samples n_neighbors n out_ptr s
      = (Err (invalid_configuration msg), s).
Proof.
  intros Hlt. unfold core_distances, ASSERT, bind.
  replace (n_neighbors >=? min_samples) with false
    by (symmetry; rewrite Z.geb_leb; apply Z.leb_gt; exact Hlt).
  eexists. reflexivity.
Qed.

(** ** Narrowing of the 64-bit indices *)

Lemma narrow_indices_run (int64_indices : ptr) (size : Z) (inds : ptr)
  (s : state) :
  narrow_indices E int64_indices size inds s
  = (Ok tt,
     set_imem E
       (store_range (imem s) inds size
          (fun j => narrow E (load (lmem s) int64_indices j)))
       (record E (ev_narrow size) s)).
Proof. reflexivity. Qed.

Lemma narrow_indices_exact (int64_indices : ptr) (size : Z) (inds : ptr)
  (s : state) (j : Z) :
  0 < idx_bits E -> 0 <= j < size ->
  idx_range E (load (lmem s) int64_indices j) ->
  load (imem (snd (narrow_indices E int64_indices size inds s))) inds j
  = load (lmem s) int64_indices j.
Proof.
  intros Hw Hj Hrep. rewrite narrow_indices_run.
  unfold set_imem; cbn [snd imem].
  rewrite load_store_range_in by exact Hj.
  apply narrow_id; assumption.
Qed.

(** C8.  The conversion of a 64-bit index to [value_idx] returns the index
    itself whenever the index is representable in [value_idx].  Hence the
    pass that ends [compute_knn] and [compute_knn_GF] stores in [inds[j]]
    the very index the search left at position [j], for every position
    whose 64-bit index is representable. *)
Theorem index_narrowing_is_lossless :
  0 < idx_bits E ->
  (forall v, idx_range E v -> narrow E v = v) /\
  (forall X inds dists m n search_items n_search_items k metric s j,
     let found :=
       fst (brute_force_knn E [view (fmem s) X] [int_wrap m] n
              (view (fmem s) search_items) n_search_items k true true metric)
     in
     0 <= j < size_t_wrap (k * n_search_items) ->
     j < n_search_items * k ->
     idx_range E (found j) ->
     load (imem (snd (compute_knn E X inds dists m n search_items
                        n_search_items k metric s))) inds j
     = found j) /\
  (forall X1 X2 inds dists m n1 n2 si1 si2 n_search_items k metric s
          int64_indices s_mid j,
     compute_knn_GF_search E X1 X2 dists m n1 n2 n_search_items k metric s
       = (Ok int64_indices, s_mid) ->
     0 <= j < size_t_wrap (k * n_search_items) ->
     idx_range E (load (lmem s_mid) int64_indices j) ->
     load (imem (snd (compute_knn_GF E X1 X2 inds dists m n1 n2 si1 si2
                        n_search_items k metric s))) inds j
     = load (lmem s_mid) int64_indices j).
Proof.
  intros Hw. split; [|split].
  - intros v Hv. apply narrow_id; assumption.
  - intros X inds dists m n search_items n_search_items k metric s j
           found Hj Hjk Hrep.
    unfold compute_knn, device_uvector, call_brute_force_knn, bind.
    rewrite narrow_indices_exact; try assumption.
    + unfold set_fmem, set_lmem, set_next_block, record;
        cbn [fmem imem lmem next_block out cerr trace].
      rewrite load_store_range_in by lia. reflexivity.
    + unfold set_fmem, set_lmem, set_next_block, record;
        cbn [fmem imem lmem next_block out cerr trace].
      rewrite load_store_range_in by lia. exact Hrep.
  - intros X1 X2 inds dists m n1 n2 si1 si2 n_search_items k metric s
           int64_indices s_mid j Hsearch Hj Hrep.
    unfold compute_knn_GF. rewrite (bind_ok _ _ _ _ _ Hsearch).
    apply narrow_indices_exact; assumption.
Qed.

(** ** The metric check *)

Lemma RAFT_EXPECTS_metric_false (metric : DistanceType E) (msg : string)
  (s : state) :
  metric <> L2SqrtExpanded E ->
  RAFT_EXPECTS E
    (if metric_eq_dec E metric (L2SqrtExpanded E) then true else false) msg s
  = (Err (unsupported_metric msg), s).
Proof.
  intros Hne. unfold RAFT_EXPECTS.
  destruct (metric_eq_dec E metric (L2SqrtExpanded E)) as [Heq|_].
  - contradiction.
  - reflexivity.
Qed.

Lemma RAFT_EXPECTS_metric_true (msg : string) (s : state) :
  RAFT_EXPECTS E
    (if metric_eq_dec E (L2SqrtExpanded E) (L2SqrtExpanded E)
     then true else false) msg s
  = (Ok tt, s).
Proof.
  unfold RAFT_EXPECTS.
  destruct (metric_eq_dec E (L2SqrtExpanded E) (L2SqrtExpanded E)) as [_|Hne].
  - reflexivity.
  - contradiction Hne. reflexivity.
Qed.

(** C3.  With a metric other than the supported one ([L2SqrtExpanded]),
    [mutual_reachability_graph] and [mutual_reachability_graph_GF] fail
    with an unsupported-metric error and return the device state they were
    given: no allocation and no device work has taken place, and [indptr],
    [core_dists] and the COO output are unchanged. *)
Theorem unsupported_metric_fails_fast
  (X X1 X2 : ptr) (m n n1 n2 : Z) (metric : DistanceType E)
  (min_samples : Z) (alpha : value_t E) (indptr core_dists : ptr)
  (s : state) :
  metric <> L2SqrtExpanded E ->
  (exists msg,
     mutual_reachability_graph E X m n metric min_samples alpha
       indptr core_dists s
     = (Err (unsupported_metric msg), s)) /\
  (exists msg,
     mutual_reachability_graph_GF E X1 X2 m n1 n2 metric min_samples alpha
       indptr core_dists s
     = (Err (unsupported_metric msg), s)).
Proof.
  intros Hne. split; eexists.
  - unfold mutual_reachability_graph, mutual_reachability_graph_to_csr.
    apply bind_err. apply bind_err.
    apply RAFT_EXPECTS_metric_false. exact Hne.
  - unfold mutual_reachability_graph_GF, mutual_reachability_graph_GF_to_csr.
    apply bind_err. apply bind_err.
    apply RAFT_EXPECTS_metric_false. exact Hne.
Qed.

(** ** The self-loop pass *)

Lemma self_loops_run (s : state) :
  self_loops_get_max_distance E s
  = (Ok tt,
     record E (ev_self_loops (nnz (out s)))
       (set_out E
          (mk_COO (rows (out s)) (cols (out s))
             (fun e => if (0 <=? e) && (e <? nnz (out s))
                       then self_loop_weight E
                              (rows (out s) e, cols (out s) e, vals (out s) e)
                       else vals (out s) e)
             (nnz (out s))) s)).
Proof. reflexivity. Qed.

Lemma self_loops_post (s_pre s' : state) :
  self_loops_get_max_distance E s_pre = (Ok tt, s') ->
  nnz (out s') = nnz (out s_pre) /\
  (forall e, rows (out s') e = rows (out s_pre) e) /\
  (forall e, cols (out s') e = cols (out s_pre) e) /\
  (forall e, 0 <= e < nnz (out s') ->
     (rows (out s') e = cols (out s') e -> vals (out s') e = value_max E) /\
     (rows (out s') e <> cols (out s') e ->
        vals (out s') e = vals (out s_pre) e)).
Proof.
  rewrite self_loops_run. intros H. inversion H; subst; clear H.
  unfold record, set_out; cbn [out nnz rows cols vals].
  repeat split; try reflexivity.
  - intros Heq. destruct H as [Hlo Hhi].
    replace ((0 <=? e) && (e <? nnz (out s_pre))) with true
      by (symmetry; apply andb_true_iff; rewrite Z.leb_le, Z.ltb_lt; lia).
    unfold self_loop_weight. rewrite Heq, Z.eqb_refl. reflexivity.
  - intros Hne. destruct H as [Hlo Hhi].
    replace ((0 <=? e) && (e <? nnz (out s_pre))) with true
      by (symmetry; apply andb_true_iff; rewrite Z.leb_le, Z.ltb_lt; lia).
    unfold self_loop_weight.
    replace (rows (out s_pre) e =? cols (out s_pre) e) with false
      by (symmetry; apply Z.eqb_neq; exact Hne).
    reflexivity.
Qed.

(** C2.  When [mutual_reachability_graph] (or its GF variant) returns, the
    output graph has the edges it had before the final self-loop pass;
    every edge [e] with [rows[e] = cols[e]] has the weight
    [std::numeric_limits<value_t>::max()], and every edge with
    [rows[e] <> cols[e]] has the weight it had before that pass. *)
Theorem self_loops_get_max_weight
  (X X1 X2 : ptr) (m n n1 n2 : Z) (metric : DistanceType E)
  (min_samples : Z) (alpha : value_t E) (indptr core_dists : ptr)
  (s : state) :
  (forall s',
     mutual_reachability_graph E X m n metric min_samples alpha
       indptr core_dists s = (Ok tt, s') ->
     exists s_pre,
       mutual_reachability_graph_to_csr E X m n metric min_samples alpha
         indptr core_dists s = (Ok tt, s_pre) /\
       self_loops_get_max_distance E s_pre = (Ok tt, s') /\
       nnz (out s') = nnz (out s_pre) /\
       (forall e, rows (out s') e = rows (out s_pre) e) /\
       (forall e, cols (out s') e = cols (out s_pre) e) /\
       (forall e, 0 <= e < nnz (out s') ->
          (rows (out s') e = cols (out s') e ->
             vals (out s') e = value_max E) /\
          (rows (out s') e <> cols (out s') e ->
             vals (out s') e = vals (out s_pre) e))) /\
  (forall s',
     mutual_reachability_graph_GF E X1 X2 m n1 n2 metric min_samples alpha
       indptr core_dists s = (Ok tt, s') ->
     exists s_pre,
       mutual_reachability_graph_GF_to_csr E X1 X2 m n1 n2 metric min_samples
         alpha indptr core_dists s = (Ok tt, s_pre) /\
       self_loops_get_max_distance E s_pre = (Ok tt, s') /\
       nnz (out s') = nnz (out s_pre) /\
       (forall e, rows (out s') e = rows (out s_pre) e) /\
       (forall e, cols (out s') e = cols (out s_pre) e) /\
       (forall e, 0 <= e < nnz (out s') ->
          (rows (out s') e = cols (out s') e ->
             vals (out s') e = value_max E) /\
          (rows (out s') e <> cols (out s') e ->
             vals (out s') e = vals (out s_pre) e))).
Proof.
  split; intros s' Hrun.
  - unfold mutual_reachability_graph in Hrun.
    apply bind_ok_inv in Hrun. destruct Hrun as ([] & s_pre & Hpre & Hpass).
    exists s_pre. split; [exact Hpre|]. split; [exact Hpass|].
    apply self_loops_post. exact Hpass.
  - unfold mutual_reachability_graph_GF in Hrun.
    apply bind_ok_inv in Hrun. destruct Hrun as ([] & s_pre & Hpre & Hpass).
    exists s_pre. split; [exact Hpre|]. split; [exact Hpass|].
    apply self_loops_post. exact Hpass.
Qed.

(** ** Computations that never throw *)

Lemma always_ok_ret {A} (a : A) : always_ok (@ret E A a).
Proof. intros s. exists a, s. reflexivity. Qed.

Lemma always_ok_bind {A B} (c : M E A) (k : A -> M E B) :
  always_ok c -> (forall a, always_ok (k a)) -> always_ok (bind c k).
Proof.
  intros Hc Hk s. destruct (Hc s) as (a & s1 & H1).
  destruct (Hk a s1) as (b & s2 & H2).
  exists b, s2. rewrite (bind_ok _ _ _ _ _ H1). exact H2.
Qed.

Lemma always_ok_for_each {A} (l : list A) (body : A -> M E unit) :
  (forall x, always_ok (body x)) -> always_ok (for_each l body).
Proof.
  intros Hbody. induction l as [|x l IH]; simpl.
  - apply always_ok_ret.
  - apply always_ok_bind; [apply Hbody|intros _; exact IH].
Qed.

Lemma always_ok_fold_M {A B} (f : B -> A -> M E B) (l : list A) (b : B) :
  (forall b x, always_ok (f b x)) -> always_ok (fold_M f l b).
Proof.
  intros Hf. revert b. induction l as [|x l IH]; intros b; simpl.
  - apply always_ok_ret.
  - apply always_ok_bind; [apply Hf|intros b'; apply IH].
Qed.

(** A computation whose body is a single state update. *)
Ltac total_step :=
  let s := fresh "s" in
  intros s;
  repeat match goal with
         | |- context [Z.eqb ?a ?b] => destruct (Z.eqb a b)
         end;
  eexists; eexists; reflexivity.

Lemma always_ok_check err func file line :
  always_ok (check E err func file line).
Proof. unfold check. total_step. Qed.

Lemma always_ok_checkLast file line : always_ok (checkLast E file line).
Proof. unfold checkLast. total_step. Qed.

Lemma always_ok_CHECK_CUDA_ERROR val func line :
  always_ok val -> always_ok (CHECK_CUDA_ERROR E val func line).
Proof.
  intros Hval. unfold CHECK_CUDA_ERROR.
  apply always_ok_bind; [exact Hval|intros err; apply always_ok_check].
Qed.

Lemma always_ok_device_uvector count : always_ok (device_uvector E count).
Proof. unfold device_uvector. total_step. Qed.

Lemma always_ok_emit ev : always_ok (emit E ev).
Proof. unfold emit. total_step. Qed.

Lemma always_ok_transform_value count dst f :
  always_ok (transform_value E count dst f).
Proof. unfold transform_value. total_step. Qed.

Lemma always_ok_transform_idx count dst f :
  always_ok (transform_idx E count dst f).
Proof. unfold transform_idx. total_step. Qed.

Lemma always_ok_cudaGetDevice d : always_ok (cudaGetDevice E d).
Proof. unfold cudaGetDevice. intros s. eexists; eexists; reflexivity. Qed.

Lemma always_ok_cudaGetDeviceCount d : always_ok (cudaGetDeviceCount E d).
Proof. unfold cudaGetDeviceCount. intros s. eexists; eexists; reflexivity. Qed.

Lemma always_ok_cudaSetDevice c : always_ok (cudaSetDevice E c).
Proof. unfold cudaSetDevice. total_step. Qed.

Lemma always_ok_cudaMalloc c p bytes : always_ok (cudaMalloc E c p bytes).
Proof. unfold cudaMalloc. total_step. Qed.

Lemma always_ok_cudaMemcpy_value c dst src bytes :
  always_ok (cudaMemcpy_value E c dst src bytes).
Proof. unfold cudaMemcpy_value. total_step. Qed.

Lemma always_ok_cudaMemcpy_int64 c dst src bytes :
  always_ok (cudaMemcpy_int64 E c dst src bytes).
Proof. unfold cudaMemcpy_int64. total_step. Qed.

Lemma always_ok_cudaFree c p : always_ok (cudaFree E c p).
Proof. unfold cudaFree. total_step. Qed.

Lemma always_ok_call_brute_force_knn inputs sizes D si n rI rD k a b metric :
  always_ok (call_brute_force_knn E inputs sizes D si n rI rD k a b metric).
Proof. unfold call_brute_force_knn. total_step. Qed.

Lemma always_ok_call_brute_force_knn_GF i in1 in2 sizes D1 D2 s1 s2 n rI rD
  k a b metric :
  always_ok (call_brute_force_knn_GF E i in1 in2 sizes D1 D2 s1 s2 n rI rD
               k a b metric).
Proof. unfold call_brute_force_knn_GF. total_step. Qed.

Lemma always_ok_call_mutual_reachability_knn_l2 oi od X m n k cd w :
  always_ok (call_mutual_reachability_knn_l2 E oi od X m n k cd w).
Proof. unfold call_mutual_reachability_knn_l2. total_step. Qed.

Lemma always_ok_call_symmetrize r c v m n z :
  always_ok (call_symmetrize E r c v m n z).
Proof. unfold call_symmetrize. total_step. Qed.

Lemma always_ok_call_sorted_coo_to_csr p m :
  always_ok (call_sorted_coo_to_csr E p m).
Proof. unfold call_sorted_coo_to_csr. total_step. Qed.

Lemma always_ok_self_loops : always_ok (self_loops_get_max_distance E).
Proof. unfold self_loops_get_max_distance. total_step. Qed.

Create HintDb dev_ok.
#[local] Hint Resolve always_ok_ret always_ok_check always_ok_checkLast
  always_ok_CHECK_CUDA_ERROR always_ok_device_uvector always_ok_emit
  always_ok_transform_value always_ok_transform_idx always_ok_cudaGetDevice
  always_ok_cudaGetDeviceCount always_ok_cudaSetDevice always_ok_cudaMalloc
  always_ok_cudaMemcpy_value always_ok_cudaMemcpy_int64 always_ok_cudaFree
  always_ok_call_brute_force_knn always_ok_call_brute_force_knn_GF
  always_ok_call_mutual_reachability_knn_l2 always_ok_call_symmetrize
  always_ok_call_sorted_coo_to_csr always_ok_self_loops : dev_ok.

(** Walk through a sequence of binds. *)
Ltac total_seq :=
  repeat first
    [ apply always_ok_bind; [|intro]
    | apply always_ok_for_each; intro
    | apply always_ok_fold_M; intros
    | solve [auto with dev_ok] ].

Lemma always_ok_narrow_indices p size inds :
  always_ok (narrow_indices E p size inds).
Proof. unfold narrow_indices. total_seq. Qed.

Lemma always_ok_fill_coo_rows p m ms : always_ok (fill_coo_rows E p m ms).
Proof. unfold fill_coo_rows. total_seq. Qed.

Lemma always_ok_compute_knn X inds dists m n si nsi k metric :
  always_ok (compute_knn E X inds dists m n si nsi k metric).
Proof.
  unfold compute_knn. total_seq.
Qed.

Lemma always_ok_stage_device X1 X2 m n1 n2 sentinel st i :
  always_ok (stage_device E X1 X2 m n1 n2 sentinel st i).
Proof.
  unfold stage_device. destruct (negb (i =? sentinel)); total_seq.
Qed.

Lemma always_ok_dispatch_device st sizes dists ii n1 n2 nsi k metric nd sd i :
  always_ok (dispatch_device E st sizes dists ii n1 n2 nsi k metric nd sd i).
Proof.
  unfold dispatch_device. apply always_ok_bind; [auto with dev_ok|intros _].
  destruct (negb (i =? sd)); total_seq.
Qed.

Lemma always_ok_compute_knn_GF_search X1 X2 dists m n1 n2 nsi k metric :
  always_ok (compute_knn_GF_search E X1 X2 dists m n1 n2 nsi k metric).
Proof.
  unfold compute_knn_GF_search.
  repeat (apply always_ok_bind; [|intro]); auto with dev_ok.
  - apply always_ok_fold_M. intros. apply always_ok_stage_device.
  - apply always_ok_for_each. intros. apply always_ok_dispatch_device.
Qed.

Lemma always_ok_compute_knn_GF X1 X2 inds dists m n1 n2 s1 s2 nsi k metric :
  always_ok (compute_knn_GF E X1 X2 inds dists m n1 n2 s1 s2 nsi k metric).
Proof.
  unfold compute_knn_GF. apply always_ok_bind.
  - apply always_ok_compute_knn_GF_search.
  - intros p. apply always_ok_narrow_indices.
Qed.

(** ** The history of device work *)

Lemma appends_ret (P : event -> Prop) {A} (a : A) : appends P (@ret E A a).
Proof.
  intros s r s' H. inversion H; subst. exists [].
  rewrite app_nil_r. split; [reflexivity|constructor].
Qed.

Lemma appends_bind (P : event -> Prop) {A B} (c : M E A) (k : A -> M E B) :
  appends P c -> (forall a, appends P (k a)) -> appends P (bind c k).
Proof.
  intros Hc Hk s r s' H. apply bind_inv in H.
  destruct H as [(a & s1 & H1 & H2)|(e & H1 & _)].
  - destruct (Hc _ _ _ H1) as (t1 & Ht1 & Hall1).
    destruct (Hk a _ _ _ H2) as (t2 & Ht2 & Hall2).
    exists (t1 ++ t2). rewrite Ht2, Ht1, app_assoc.
    split; [reflexivity|]. apply Forall_app. split; assumption.
  - exact (Hc _ _ _ H1).
Qed.

Lemma appends_for_each (P : event -> Prop) {A} (l : list A)
  (body : A -> M E unit) :
  (forall x, appends P (body x)) -> appends P (for_each l body).
Proof.
  intros Hbody. induction l as [|x l IH]; simpl.
  - apply appends_ret.
  - apply appends_bind; [apply Hbody|intros _; exact IH].
Qed.

Lemma appends_fold_M (P : event -> Prop) {A B} (f : B -> A -> M E B)
  (l : list A) (b : B) :
  (forall b x, appends P (f b x)) -> appends P (fold_M f l b).
Proof.
  intros Hf. revert b. induction l as [|x l IH]; intros b; simpl.
  - apply appends_ret.
  - apply appends_bind; [apply Hf|intros b'; apply IH].
Qed.

Lemma appends_keeps (P : event -> Prop) {A} (c : M E A) s r s' ev :
  appends P c -> c s = (r, s') -> In ev (trace s) -> In ev (trace s').
Proof.
  intros Hc H Hin. destruct (Hc _ _ _ H) as (t & Ht & _).
  rewrite Ht. apply in_or_app. left. exact Hin.
Qed.

(** A computation whose body is a single state update: it appends nothing,
    or the one event whose property is at hand. *)
Ltac trace_step :=
  let s := fresh "s" in
  let r := fresh "r" in
  let s' := fresh "s'" in
  let H := fresh "H" in
  intros s r s' H;
  repeat match type of H with
         | context [if ?b then _ else _] => destruct b
         end;
  inversion H; subst; clear H;
  unfold set_fmem, set_imem, set_lmem, set_next_block, set_out, log_cerr,
    record;
  cbn [trace];
  first [ exists []; rewrite app_nil_r; split; [reflexivity|constructor]
        | eexists [_]; split;
          [reflexivity|constructor; [assumption|constructor]] ].

Lemma appends_ASSERT P cond msg : appends P (ASSERT E cond msg).
Proof. unfold ASSERT. trace_step. Qed.

Lemma appends_RAFT_EXPECTS P cond msg : appends P (RAFT_EXPECTS E cond msg).
Proof. unfold RAFT_EXPECTS. trace_step. Qed.

Lemma appends_check P err func file line :
  appends P (check E err func file line).
Proof. unfold check. trace_step. Qed.

Lemma appends_emit P ev : P ev -> appends P (emit E ev).
Proof. intros HP. unfold emit. trace_step. Qed.

Lemma appends_device_uvector P count :
  P (ev_alloc count) -> appends P (device_uvector E count).
Proof. intros HP. unfold device_uvector. trace_step. Qed.

Lemma appends_transform_value P count dst f :
  appends P (transform_value E count dst f).
Proof. unfold transform_value. trace_step. Qed.

Lemma appends_transform_idx P count dst f :
  appends P (transform_idx E count dst f).
Proof. unfold transform_idx. trace_step. Qed.

Lemma appends_cudaGetDevice P d :
  P (ev_cuda call_GetDevice) -> appends P (cudaGetDevice E d).
Proof. intros HP. unfold cudaGetDevice. trace_step. Qed.

Lemma appends_cudaGetDeviceCount P d :
  P (ev_cuda call_GetDeviceCount) -> appends P (cudaGetDeviceCount E d).
Proof. intros HP. unfold cudaGetDeviceCount. trace_step. Qed.

Lemma appends_cudaSetDevice P c :
  P (ev_cuda c) -> appends P (cudaSetDevice E c).
Proof. intros HP. unfold cudaSetDevice. trace_step. Qed.

Lemma appends_cudaMalloc P c p bytes :
  P (ev_cuda c) -> appends P (cudaMalloc E c p bytes).
Proof. intros HP. unfold cudaMalloc. trace_step. Qed.

Lemma appends_cudaMemcpy_value P c dst src bytes :
  P (ev_cuda c) -> appends P (cudaMemcpy_value E c dst src bytes).
Proof. intros HP. unfold cudaMemcpy_value. trace_step. Qed.

Lemma appends_cudaMemcpy_int64 P c dst src bytes :
  P (ev_cuda c) -> appends P (cudaMemcpy_int64 E c dst src bytes).
Proof. intros HP. unfold cudaMemcpy_int64. trace_step. Qed.

Lemma appends_cudaFree P c p : P (ev_cuda c) -> appends P (cudaFree E c p).
Proof. intros HP. unfold cudaFree. trace_step. Qed.

Lemma appends_call_brute_force_knn P inputs sizes D si n rI rD k a b metric :
  P (ev_brute_force_knn n k) ->
  appends P (call_brute_force_knn E inputs sizes D si n rI rD k a b metric).
Proof. intros HP. unfold call_brute_force_knn. trace_step. Qed.

Lemma appends_call_brute_force_knn_GF P i in1 in2 sizes D1 D2 s1 s2 n rI rD
  k a b metric :
  P (ev_brute_force_knn_GF i n k) ->
  appends P (call_brute_force_knn_GF E i in1 in2 sizes D1 D2 s1 s2 n rI rD
               k a b metric).
Proof. intros HP. unfold call_brute_force_knn_GF. trace_step. Qed.

Lemma appends_call_mutual_reachability_knn_l2 P oi od X m n k cd w :
  P (ev_mutual_reachability_knn_l2 k) ->
  appends P (call_mutual_reachability_knn_l2 E oi od X m n k cd w).
Proof. intros HP. unfold call_mutual_reachability_knn_l2. trace_step. Qed.

Lemma appends_call_symmetrize P r c v m n z :
  P (ev_symmetrize z) -> appends P (call_symmetrize E r c v m n z).
Proof. intros HP. unfold call_symmetrize. trace_step. Qed.

Lemma appends_call_sorted_coo_to_csr P p m :
  P (ev_sorted_coo_to_csr m) -> appends P (call_sorted_coo_to_csr E p m).
Proof. intros HP. unfold call_sorted_coo_to_csr. trace_step. Qed.

Lemma appends_self_loops P :
  (forall z, P (ev_self_loops z)) ->
  appends P (self_loops_get_max_distance E).
Proof.
  intros HP. unfold self_loops_get_max_distance.
  intros s r s' H. inversion H; subst; clear H.
  exists [ev_self_loops (nnz (out s))]. split; [reflexivity|].
  constructor; [apply HP|constructor].
Qed.

Create HintDb dev_trace.
#[local] Hint Resolve appends_ret appends_ASSERT appends_RAFT_EXPECTS
  appends_check appends_emit appends_device_uvector appends_transform_value
  appends_transform_idx appends_cudaGetDevice appends_cudaGetDeviceCount
  appends_cudaSetDevice appends_cudaMalloc appends_cudaMemcpy_value
  appends_cudaMemcpy_int64 appends_cudaFree appends_call_brute_force_knn
  appends_call_brute_force_knn_GF appends_call_mutual_reachability_knn_l2
  appends_call_symmetrize appends_call_sorted_coo_to_csr appends_self_loops
  : dev_trace.
#[local] Hint Extern 1 (gf_event_ok _) => (cbn; auto) : dev_trace.
#[local] Hint Extern 1 (mr_event_ok _ _) => (cbn; auto) : dev_trace.
#[local] Hint Extern 1 (any_event _) => exact I : dev_trace.

(** Walk through a sequence of binds, one history lemma per step. *)
Ltac trace_seq :=
  repeat first
    [ solve [auto with dev_trace]
    | apply appends_bind; [|intro] ].

Lemma gf_trace_stage_device X1 X2 m n1 n2 sentinel st i :
  appends gf_event_ok (stage_device E X1 X2 m n1 n2 sentinel st i).
Proof.
  unfold stage_device. destruct (negb (i =? sentinel)); trace_seq.
Qed.

Lemma gf_trace_dispatch_device st sizes dists ii n1 n2 nsi metric nd sd i :
  appends gf_event_ok
    (dispatch_device E st sizes dists ii n1 n2 nsi 64 metric nd sd i).
Proof.
  unfold dispatch_device. apply appends_bind; [trace_seq|intros _].
  destruct (negb (i =? sd)); trace_seq.
Qed.

Lemma gf_trace_compute_knn_GF X1 X2 inds dists m n1 n2 s1 s2 nsi metric :
  appends gf_event_ok
    (compute_knn_GF E X1 X2 inds dists m n1 n2 s1 s2 nsi 64 metric).
Proof.
  unfold compute_knn_GF, compute_knn_GF_search.
  repeat (apply appends_bind; [|intro]); auto with dev_trace.
  - apply appends_fold_M. intros. apply gf_trace_stage_device.
  - apply appends_for_each. intros. apply gf_trace_dispatch_device.
Qed.

Lemma gf_trace (X1 X2 : ptr) (m n1 n2 : Z) (metric : DistanceType E)
  (min_samples : Z) (alpha : value_t E) (indptr core_dists : ptr) :
  appends gf_event_ok
    (mutual_reachability_graph_GF E X1 X2 m n1 n2 metric min_samples alpha
       indptr core_dists).
Proof.
  unfold mutual_reachability_graph_GF, mutual_reachability_graph_GF_to_csr.
  repeat (apply appends_bind; [|intro]); auto with dev_trace.
  - apply appends_fold_M. intros. apply gf_trace_stage_device.
  - apply appends_for_each. intros. apply gf_trace_dispatch_device.
Qed.

Lemma mr_trace (X : ptr) (m n : Z) (metric : DistanceType E)
  (min_samples : Z) (alpha : value_t E) (indptr core_dists : ptr) :
  appends (mr_event_ok min_samples)
    (mutual_reachability_graph E X m n metric min_samples alpha
       indptr core_dists).
Proof.
  unfold mutual_reachability_graph, mutual_reachability_graph_to_csr,
    compute_knn.
  repeat (apply appends_bind; [|intro]); auto with dev_trace.
Qed.

(** ** Running the graph builders on a supported metric *)

Lemma always_ok_run (c : M E unit) (s : state) :
  always_ok c -> c s = (Ok tt, snd (c s)).
Proof.
  intros Hc. destruct (Hc s) as ([] & s' & Heq). rewrite Heq. reflexivity.
Qed.

Lemma bind_total {B} (c : M E unit) (k : unit -> M E B) (s : state) :
  always_ok c -> bind c k s = k tt (snd (c s)).
Proof. intros Hc. apply bind_ok. apply always_ok_run. exact Hc. Qed.

Lemma bind_device_uvector {B} (count : Z) (k : ptr -> M E B) (s : state) :
  bind (device_uvector E count) k s
  = k (mk_ptr (next_block s) 0) (snd (device_uvector E count s)).
Proof. reflexivity. Qed.

Lemma always_ok_RAFT_EXPECTS_supported msg :
  always_ok
    (RAFT_EXPECTS E
       (if metric_eq_dec E (L2SqrtExpanded E) (L2SqrtExpanded E)
        then true else false) msg).
Proof. intros s. exists tt, s. apply RAFT_EXPECTS_metric_true. Qed.

Lemma RAFT_EXPECTS_supported_state msg (s : state) :
  snd (RAFT_EXPECTS E
         (if metric_eq_dec E (L2SqrtExpanded E) (L2SqrtExpanded E)
          then true else false) msg s) = s.
Proof. rewrite RAFT_EXPECTS_metric_true. reflexivity. Qed.

Lemma always_ok_core_distances knn_dists min_samples n_neighbors n out_ptr :
  min_samples <= n_neighbors ->
  always_ok (core_distances E knn_dists min_samples n_neighbors n out_ptr).
Proof.
  intros Hle. unfold core_distances.
  replace (n_neighbors >=? min_samples) with true
    by (symmetry; rewrite Z.geb_leb; apply Z.leb_le; exact Hle).
  apply always_ok_bind; [intros s; exists tt, s; reflexivity|intros _].
  total_seq.
Qed.

(** The run of [mutual_reachability_graph_GF] on the supported metric,
    step by step. *)
Lemma gf_run (X1 X2 : ptr) (m n1 n2 : Z) (min_samples : Z)
  (alpha : value_t E) (indptr core_dists : ptr) (s : state) :
  let count := size_t_wrap (64 * m) in
  let coo_rows := mk_ptr (next_block s) 0 in
  let inds := mk_ptr (next_block s + 1) 0 in
  let dists := mk_ptr (next_block s + 1 + 1) 0 in
  let s0 :=
    snd (device_uvector E count
           (snd (device_uvector E count
                   (snd (device_uvector E count s))))) in
  let s_knn :=
    snd (compute_knn_GF E X1 X2 inds dists m n1 n2 X1 X2 m 64
           (L2SqrtExpanded E) s0) in
  let s_core := snd (core_distances E dists 64 64 m core_dists s_knn) in
  let s_rows := snd (fill_coo_rows E coo_rows m 64 s_core) in
  let s_sym := snd (call_symmetrize E coo_rows inds dists m m count s_rows) in
  let s_csr :=
    snd (call_sorted_coo_to_csr E indptr (size_t_wrap (m + 1)) s_sym) in
  mutual_reachability_graph_GF E X1 X2 m n1 n2 (L2SqrtExpanded E)
    min_samples alpha indptr core_dists s
  = (Ok tt, snd (self_loops_get_max_distance E s_csr)).
Proof.
  intros count coo_rows inds dists s0 s_knn s_core s_rows s_sym s_csr.
  unfold mutual_reachability_graph_GF, mutual_reachability_graph_GF_to_csr.
  rewrite bind_total.
  2:{ apply always_ok_bind; [apply always_ok_RAFT_EXPECTS_supported|intros _].
      do 3 (apply always_ok_bind; [apply always_ok_device_uvector|intro]).
      apply always_ok_bind; [apply always_ok_compute_knn_GF|intros _].
      apply always_ok_bind; [apply always_ok_core_distances; lia|intros _].
      apply always_ok_bind; [apply always_ok_fill_coo_rows|intros _].
      apply always_ok_bind; [apply always_ok_call_symmetrize|intros _].
      apply always_ok_call_sorted_coo_to_csr. }
  rewrite (always_ok_run (self_loops_get_max_distance E))
    by apply always_ok_self_loops.
  f_equal. f_equal.
  rewrite bind_total by apply always_ok_RAFT_EXPECTS_supported.
  rewrite RAFT_EXPECTS_supported_state.
  rewrite !bind_device_uvector.
  rewrite bind_total by apply always_ok_compute_knn_GF.
  rewrite bind_total by (apply always_ok_core_distances; lia).
  rewrite bind_total by apply always_ok_fill_coo_rows.
  rewrite bind_total by apply always_ok_call_symmetrize.
  reflexivity.
Qed.

(** *** What each step leaves behind *)

Lemma core_distances_trace knn_dists min_samples n_neighbors n out_ptr
  (s : state) :
  min_samples <= n_neighbors ->
  trace (snd (core_distances E knn_dists min_samples n_neighbors n out_ptr s))
  = trace s ++ [ev_core_distances min_samples n_neighbors n].
Proof.
  intros Hle. unfold core_distances, ASSERT, bind.
  replace (n_neighbors >=? min_samples) with true
    by (symmetry; rewrite Z.geb_leb; apply Z.leb_le; exact Hle).
  reflexivity.
Qed.

Lemma core_distances_fmem_other knn_dists min_samples n_neighbors n out_ptr
  (s : state) b o :
  b <> blk out_ptr ->
  fmem (snd (core_distances E knn_dists min_samples n_neighbors n out_ptr s))
       b o
  = fmem s b o.
Proof.
  intros Hb. unfold core_distances, ASSERT, bind.
  destruct (n_neighbors >=? min_samples); [|reflexivity].
  cbn. apply store_range_other_block. exact Hb.
Qed.

Lemma core_distances_imem knn_dists min_samples n_neighbors n out_ptr
  (s : state) :
  imem (snd (core_distances E knn_dists min_samples n_neighbors n out_ptr s))
  = imem s.
Proof.
  unfold core_distances, ASSERT, bind.
  destruct (n_neighbors >=? min_samples); reflexivity.
Qed.

Lemma fill_coo_rows_fmem coo_rows m min_samples (s : state) :
  fmem (snd (fill_coo_rows E coo_rows m min_samples s)) = fmem s.
Proof. reflexivity. Qed.

Lemma fill_coo_rows_imem_other coo_rows m min_samples (s : state) b o :
  b <> blk coo_rows ->
  imem (snd (fill_coo_rows E coo_rows m min_samples s)) b o = imem s b o.
Proof. intros Hb. cbn. apply store_range_other_block. exact Hb. Qed.

Lemma fill_coo_rows_imem_in coo_rows m min_samples (s : state) c :
  0 <= c < counting_distance E (size_t_wrap (m * min_samples)) ->
  load (imem (snd (fill_coo_rows E coo_rows m min_samples s))) coo_rows c
  = narrow E (arith_wrap E (Z.quot (narrow E c) min_samples)).
Proof.
  intros Hc. unfold fill_coo_rows, emit, transform_idx, bind.
  cbn [snd]. unfold set_imem; cbn [imem].
  rewrite load_store_range_in by exact Hc. reflexivity.
Qed.

Lemma call_symmetrize_out r c v m n z (s : state) :
  out (snd (call_symmetrize E r c v m n z s))
  = symmetrize E (view (imem s) r) (view (imem s) c) (view (fmem s) v) m n z.
Proof. reflexivity. Qed.

Lemma call_sorted_coo_to_csr_out p m (s : state) :
  out (snd (call_sorted_coo_to_csr E p m s)) = out s.
Proof. reflexivity. Qed.

(** ** Cells a computation leaves alone *)

Lemma keeps_ret b C {A} (Q : A -> Prop) (a : A) :
  Q a -> keeps b C Q (@ret E A a).
Proof.
  intros HQ s r s' H Hb. inversion H; subst.
  split; [exact Hb|]. split; [reflexivity|].
  intros a' Ha'. inversion Ha'; subst. exact HQ.
Qed.

Lemma keeps_bind b C {A B} (Q : A -> Prop) (R : B -> Prop) (c : M E A)
  (k : A -> M E B) :
  keeps b C Q c -> (forall a, Q a -> keeps b C R (k a)) ->
  keeps b C R (bind c k).
Proof.
  intros Hc Hk s r s' H Hb. apply bind_inv in H.
  destruct H as [(a & s1 & H1 & H2)|(e & H1 & ->)].
  - destruct (Hc _ _ _ H1 Hb) as (Hb1 & Hf1 & HQ).
    destruct (Hk a (HQ a eq_refl) _ _ _ H2 Hb1) as (Hb2 & Hf2 & HR).
    split; [exact Hb2|]. split; [|exact HR].
    intros o Ho. rewrite Hf2, Hf1 by exact Ho. reflexivity.
  - destruct (Hc _ _ _ H1 Hb) as (Hb1 & Hf1 & _).
    split; [exact Hb1|]. split; [exact Hf1|].
    intros a Ha. discriminate.
Qed.

Lemma keeps_weaken b C {A} (Q R : A -> Prop) (c : M E A) :
  (forall a, Q a -> R a) -> keeps b C Q c -> keeps b C R c.
Proof.
  intros HQR Hc s r s' H Hb. destruct (Hc _ _ _ H Hb) as (Hb1 & Hf & HQ).
  split; [exact Hb1|]. split; [exact Hf|].
  intros a Ha. apply HQR, HQ, Ha.
Qed.

Lemma keeps_for_each b C {A} (l : list A) (body : A -> M E unit) :
  (forall x, In x l -> keeps b C (fun _ => True) (body x)) ->
  keeps b C (fun _ => True) (for_each l body).
Proof.
  induction l as [|x l IH]; intros Hbody; simpl.
  - apply keeps_ret. exact I.
  - apply keeps_bind with (Q := fun _ => True).
    + apply Hbody. left. reflexivity.
    + intros _ _. apply IH. intros y Hy. apply Hbody. right. exact Hy.
Qed.

Lemma keeps_fold_M b C {A B} (f : B -> A -> M E B) (l : list A) (b0 : B) :
  (forall b1 x, keeps b C (fun _ => True) (f b1 x)) ->
  keeps b C (fun _ => True) (fold_M f l b0).
Proof.
  intros Hf. revert b0. induction l as [|x l IH]; intros b0; simpl.
  - apply keeps_ret. exact I.
  - apply keeps_bind with (Q := fun _ => True); [apply Hf|].
    intros b1 _. apply IH.
Qed.

(** A step that does not write to the [value_t] heap. *)
Ltac keeps_step :=
  let s := fresh "s" in
  let r := fresh "r" in
  let s' := fresh "s'" in
  let H := fresh "H" in
  let Hb := fresh "Hb" in
  intros s r s' H Hb;
  repeat match type of H with
         | context [if ?b then _ else _] => destruct b eqn:?
         end;
  inversion H; subst; clear H;
  unfold set_fmem, set_imem, set_lmem, set_next_block, set_out, log_cerr,
    record;
  cbn [fmem next_block];
  (split; [lia|]); (split; [intros; reflexivity|]).

Lemma keeps_check b C err func file line :
  keeps b C (fun _ => True) (check E err func file line).
Proof. unfold check. keeps_step; intros; exact I. Qed.

Lemma keeps_CHECK_CUDA_ERROR b C val func line :
  keeps b C (fun _ => True) val ->
  keeps b C (fun _ => True) (CHECK_CUDA_ERROR E val func line).
Proof.
  intros Hval. unfold CHECK_CUDA_ERROR.
  apply keeps_bind with (Q := fun _ => True); [exact Hval|].
  intros err _. apply keeps_check.
Qed.

Lemma keeps_cudaGetDevice b C :
  keeps b C (fun r => snd r = sentinel_device_of E) (cudaGetDevice E 0).
Proof.
  unfold cudaGetDevice, sentinel_device_of.
  keeps_step; intros a Ha; inversion Ha; subst; reflexivity.
Qed.

Lemma keeps_cudaGetDeviceCount b C :
  keeps b C (fun r => snd r = num_devices_of E) (cudaGetDeviceCount E 0).
Proof.
  unfold cudaGetDeviceCount, num_devices_of.
  keeps_step; intros a Ha; inversion Ha; subst; reflexivity.
Qed.

Lemma keeps_cudaSetDevice b C c :
  keeps b C (fun _ => True) (cudaSetDevice E c).
Proof. unfold cudaSetDevice. keeps_step; intros; exact I. Qed.

Lemma keeps_cudaFree b C c p : keeps b C (fun _ => True) (cudaFree E c p).
Proof. unfold cudaFree. keeps_step; intros; exact I. Qed.

Lemma keeps_device_uvector b C count :
  keeps b C (fun p => blk p <> b) (device_uvector E count).
Proof.
  unfold device_uvector.
  keeps_step. intros a Ha; inversion Ha; subst. cbn [blk]. lia.
Qed.

Lemma keeps_cudaMalloc b C c p bytes :
  blk p <> b ->
  keeps b C (fun r => blk (snd r) <> b) (cudaMalloc E c p bytes).
Proof.
  intros Hp. unfold cudaMalloc.
  keeps_step; intros a Ha; inversion Ha; subst; cbn [snd blk]; [lia|exact Hp].
Qed.

Lemma keeps_transform_idx b C count dst f :
  keeps b C (fun _ => True) (transform_idx E count dst f).
Proof. unfold transform_idx. keeps_step; intros; exact I. Qed.

Lemma keeps_emit b C ev : keeps b C (fun _ => True) (emit E ev).
Proof. unfold emit. keeps_step; intros; exact I. Qed.

Lemma keeps_cudaMemcpy_int64 b C c dst src bytes :
  keeps b C (fun _ => True) (cudaMemcpy_int64 E c dst src bytes).
Proof. unfold cudaMemcpy_int64. keeps_step; intros; exact I. Qed.

Lemma keeps_cudaMemcpy_value b C c dst src bytes :
  (cuda_status (cuda E) c = cudaSuccess -> blk dst = b ->
   forall o, C o -> ~ (off dst <= o < off dst + bytes / sizeof_value_t E)) ->
  keeps b C (fun _ => True) (cudaMemcpy_value E c dst src bytes).
Proof.
  intros Hsafe s r s' H Hb. unfold cudaMemcpy_value in H.
  destruct (cuda_status (cuda E) c =? cudaSuccess) eqn:Hst;
    inversion H; subst; clear H;
    unfold set_fmem, record; cbn [fmem next_block];
    (split; [exact Hb|]); (split; [|intros; exact I]).
  - intros o Ho. apply store_range_out. intros [Hblk Hrange].
    apply Z.eqb_eq in Hst.
    exact (Hsafe Hst (eq_sym Hblk) o Ho Hrange).
  - intros o Ho. reflexivity.
Qed.

Lemma keeps_call_brute_force_knn_GF b C i in1 in2 sizes D1 D2 s1 s2 n rI rD
  k x y metric :
  (blk rD = b -> forall o, C o -> ~ (off rD <= o < off rD + n * k)) ->
  keeps b C (fun _ => True)
    (call_brute_force_knn_GF E i in1 in2 sizes D1 D2 s1 s2 n rI rD k x y
       metric).
Proof.
  intros Hsafe s r s' H Hb. unfold call_brute_force_knn_GF in H.
  inversion H; subst; clear H.
  unfold set_fmem, set_lmem, record; cbn [fmem next_block].
  split; [exact Hb|]. split; [|intros; exact I].
  intros o Ho. apply store_range_out. intros [Hblk Hrange].
  exact (Hsafe (eq_sym Hblk) o Ho Hrange).
Qed.

Lemma keeps_narrow_indices b C p size inds :
  keeps b C (fun _ => True) (narrow_indices E p size inds).
Proof.
  unfold narrow_indices.
  apply keeps_bind with (Q := fun _ => True); [apply keeps_emit|].
  intros _ _. apply keeps_transform_idx.
Qed.

(** The staging loop writes to fresh blocks only (or through the null
    pointer, when an allocation failed). *)
Lemma keeps_stage_device b C X1 X2 m n1 n2 sentinel st i :
  b <> blk NULL ->
  keeps b C (fun _ => True) (stage_device E X1 X2 m n1 n2 sentinel st i).
Proof.
  intros Hnull. unfold stage_device.
  destruct (negb (i =? sentinel)); [|apply keeps_ret; exact I].
  apply keeps_bind with (Q := fun _ => True);
    [apply keeps_CHECK_CUDA_ERROR, keeps_cudaSetDevice|intros _ _].
  apply keeps_bind with (Q := fun r => blk (snd r) <> b);
    [apply keeps_cudaMalloc; intros Heq; apply Hnull; symmetry; exact Heq|].
  intros r1 Hr1.
  apply keeps_bind with (Q := fun _ => True);
    [apply keeps_CHECK_CUDA_ERROR, keeps_ret; exact I|intros _ _].
  apply keeps_bind with (Q := fun r => blk (snd r) <> b);
    [apply keeps_cudaMalloc; intros Heq; apply Hnull; symmetry; exact Heq|].
  intros r2 Hr2.
  apply keeps_bind with (Q := fun _ => True);
    [apply keeps_CHECK_CUDA_ERROR, keeps_ret; exact I|intros _ _].
  apply keeps_bind with (Q := fun _ => True).
  { apply keeps_CHECK_CUDA_ERROR, keeps_cudaMemcpy_value.
    intros _ Heq. contradiction. }
  intros _ _.
  apply keeps_bind with (Q := fun _ => True).
  { apply keeps_CHECK_CUDA_ERROR, keeps_cudaMemcpy_value.
    intros _ Heq. contradiction. }
  intros _ _. apply keeps_ret. exact I.
Qed.

(** *** The dispatch loop *)

Section Dispatch.

Variables (dists : ptr) (n_search_items k num_devices : Z).
Variable i : Z.

Hypothesis Hn : size_t_range n_search_items.
Hypothesis Hdr : int_range num_devices.
Hypothesis Hk : 0 <= k.
Hypothesis Hnk : size_t_range (n_search_items * k).
Hypothesis Hsz : 0 < sizeof_value_t E.
Hypothesis Hi : 0 <= i < num_devices.

Local Abbreviation cells :=
  (chunk_cells dists n_search_items k num_devices i).

(** Another device writes its own slice only. *)
Lemma keeps_dispatch_other st sizes ii n1 n2 metric sd x :
  0 <= x < num_devices -> x <> i ->
  keeps (blk dists) cells (fun _ => True)
    (dispatch_device E st sizes dists ii n1 n2 n_search_items k metric
       num_devices sd x).
Proof.
  intros Hx Hxi. unfold dispatch_device.
  assert (Hd : 1 <= num_devices) by lia.
  pose proof (chunk_offset_exact _ _ _ _ Hn Hd Hdr Hk Hnk Hx) as Hoff.
  pose proof (num_search_items_me_nonneg _ _ _ Hn Hd Hdr Hx) as Hnum.
  apply keeps_bind with (Q := fun _ => True);
    [apply keeps_CHECK_CUDA_ERROR, keeps_cudaSetDevice|intros _ _].
  destruct (negb (x =? sd)).
  - apply keeps_bind with (Q := fun p => blk p <> blk dists);
      [apply keeps_device_uvector|intros p1 Hp1].
    apply keeps_bind with (Q := fun p => blk p <> blk dists);
      [apply keeps_device_uvector|intros p2 Hp2].
    apply keeps_bind with (Q := fun _ => True).
    { apply keeps_call_brute_force_knn_GF. intros Heq. contradiction. }
    intros _ _.
    apply keeps_bind with (Q := fun _ => True).
    { apply keeps_CHECK_CUDA_ERROR, keeps_cudaMemcpy_value.
      intros _ _ o Ho. cbn [ptr_add off]. rewrite Hoff, <- Z.add_assoc.
      rewrite Z.add_assoc.
      apply (chunk_cells_disjoint dists n_search_items num_devices k x i o);
        try assumption.
      apply memcpy_len_le; [exact Hsz|]. apply Z.mul_nonneg_nonneg; lia. }
    intros _ _.
    apply keeps_bind with (Q := fun _ => True);
      [apply keeps_CHECK_CUDA_ERROR, keeps_cudaMemcpy_int64|intros _ _].
    apply keeps_bind with (Q := fun _ => True);
      [apply keeps_CHECK_CUDA_ERROR, keeps_cudaFree|intros _ _].
    apply keeps_CHECK_CUDA_ERROR, keeps_cudaFree.
  - apply keeps_call_brute_force_knn_GF.
    intros _ o Ho. cbn [ptr_add off]. rewrite Hoff.
    apply (chunk_cells_disjoint dists n_search_items num_devices k x i o);
      try assumption.
    lia.
Qed.

(** A device that is not the home device and whose gather copy fails
    writes nothing to the merged distances. *)
Lemma keeps_dispatch_failed st sizes ii n1 n2 metric sd :
  i <> sd ->
  cuda_status (cuda E) (call_gather_Memcpy_dists i) <> cudaSuccess ->
  keeps (blk dists) cells (fun _ => True)
    (dispatch_device E st sizes dists ii n1 n2 n_search_items k metric
       num_devices sd i).
Proof.
  intros Hsd Hfail. unfold dispatch_device.
  apply keeps_bind with (Q := fun _ => True);
    [apply keeps_CHECK_CUDA_ERROR, keeps_cudaSetDevice|intros _ _].
  replace (i =? sd) with false by (symmetry; apply Z.eqb_neq; exact Hsd).
  cbn [negb].
  apply keeps_bind with (Q := fun p => blk p <> blk dists);
    [apply keeps_device_uvector|intros p1 Hp1].
  apply keeps_bind with (Q := fun p => blk p <> blk dists);
    [apply keeps_device_uvector|intros p2 Hp2].
  apply keeps_bind with (Q := fun _ => True).
  { apply keeps_call_brute_force_knn_GF. intros Heq. contradiction. }
  intros _ _.
  apply keeps_bind with (Q := fun _ => True).
  { apply keeps_CHECK_CUDA_ERROR, keeps_cudaMemcpy_value.
    intros Hok. contradiction. }
  intros _ _.
  apply keeps_bind with (Q := fun _ => True);
    [apply keeps_CHECK_CUDA_ERROR, keeps_cudaMemcpy_int64|intros _ _].
  apply keeps_bind with (Q := fun _ => True);
    [apply keeps_CHECK_CUDA_ERROR, keeps_cudaFree|intros _ _].
  apply keeps_CHECK_CUDA_ERROR, keeps_cudaFree.
Qed.

End Dispatch.

(** ** Steps that are reached *)

Lemma emits_bind_right ev {A B} (c : M E A) (k : A -> M E B) :
  (forall a, emits ev (k a)) -> emits ev (bind c k).
Proof.
  intros Hk s b s' H. apply bind_ok_inv in H.
  destruct H as (a & s1 & _ & H2). exact (Hk a _ _ _ H2).
Qed.

Lemma emits_bind_left ev (P : event -> Prop) {A B} (c : M E A)
  (k : A -> M E B) :
  emits ev c -> (forall a, appends P (k a)) -> emits ev (bind c k).
Proof.
  intros Hc Hk s b s' H. apply bind_ok_inv in H.
  destruct H as (a & s1 & H1 & H2).
  eapply appends_keeps; [apply Hk|exact H2|]. exact (Hc _ _ _ H1).
Qed.

Lemma emits_cudaSetDevice c : emits (ev_cuda c) (cudaSetDevice E c).
Proof.
  intros s a s' H. unfold cudaSetDevice in H. inversion H; subst.
  unfold record; cbn [trace]. apply in_or_app. right. left. reflexivity.
Qed.

Lemma emits_emit ev : emits ev (emit E ev).
Proof.
  intros s a s' H. unfold emit in H. inversion H; subst.
  unfold record; cbn [trace]. apply in_or_app. right. left. reflexivity.
Qed.

Lemma emits_run ev (c : M E unit) (s : state) :
  always_ok c -> emits ev c -> In ev (trace (snd (c s))).
Proof.
  intros Hok Hev. apply (Hev s tt). apply always_ok_run. exact Hok.
Qed.

Lemma emits_compute_knn_GF_final X1 X2 inds dists m n1 n2 s1 s2 nsi k metric :
  emits (ev_cuda call_final_SetDevice)
    (compute_knn_GF E X1 X2 inds dists m n1 n2 s1 s2 nsi k metric).
Proof.
  unfold compute_knn_GF.
  apply emits_bind_left with (P := fun _ => True).
  - unfold compute_knn_GF_search.
    do 8 (apply emits_bind_right; intro).
    apply emits_bind_left with (P := fun _ => True).
    + apply emits_cudaSetDevice.
    + intros _. apply appends_ret.
  - intros p. unfold narrow_indices.
    apply appends_bind; [apply appends_emit; exact I|intros _].
    apply appends_transform_idx.
Qed.

Lemma emits_compute_knn_GF_narrow X1 X2 inds dists m n1 n2 s1 s2 nsi k metric :
  emits (ev_narrow (size_t_wrap (k * nsi)))
    (compute_knn_GF E X1 X2 inds dists m n1 n2 s1 s2 nsi k metric).
Proof.
  unfold compute_knn_GF. apply emits_bind_right. intros p.
  unfold narrow_indices.
  apply emits_bind_left with (P := fun _ => True).
  - apply emits_emit.
  - intros _. apply appends_transform_idx.
Qed.


Lemma returns_cudaGetDeviceCount :
  returns (fun r => snd r = num_devices_of E) (cudaGetDeviceCount E 0).
Proof.
  intros s a s' H. unfold cudaGetDeviceCount in H. inversion H; subst.
  reflexivity.
Qed.







Lemma emits_core_distances knn_dists min_samples n_neighbors n out_ptr :
  emits (ev_core_distances min_samples n_neighbors n)
    (core_distances E knn_dists min_samples n_neighbors n out_ptr).
Proof.
  unfold core_distances. apply emits_bind_right. intros _.
  apply emits_bind_left with (P := any_event).
  - apply emits_emit.
  - intros _. apply appends_transform_value.
Qed.

Lemma emits_call_brute_force_knn inputs sizes D si n rI rD k x y metric :
  emits (ev_brute_force_knn n k)
    (call_brute_force_knn E inputs sizes D si n rI rD k x y metric).
Proof.
  intros s a s' H. unfold call_brute_force_knn in H. inversion H; subst.
  unfold record; cbn [trace]. apply in_or_app. right. left. reflexivity.
Qed.

(** *** The merged distances of a device whose gather copy failed *)

Lemma keeps_compute_knn_GF (X1 X2 inds dists : ptr) (m n1 n2 : Z)
  (si1 si2 : ptr) (n_search_items k : Z) (metric : DistanceType E) (i : Z) :
  size_t_range n_search_items -> int_range (num_devices_of E) ->
  0 <= k -> size_t_range (n_search_items * k) -> 0 < sizeof_value_t E ->
  blk dists <> blk NULL ->
  0 <= i < num_devices_of E -> i <> sentinel_device_of E ->
  cuda_status (cuda E) (call_gather_Memcpy_dists i) <> cudaSuccess ->
  keeps (blk dists)
    (chunk_cells dists n_search_items k (num_devices_of E) i)
    (fun _ => True)
    (compute_knn_GF E X1 X2 inds dists m n1 n2 si1 si2 n_search_items k
       metric).
Proof.
  intros Hn Hdr Hk Hnk Hsz Hnull Hi Hhome Hfail.
  unfold compute_knn_GF.
  apply keeps_bind with (Q := fun _ => True);
    [|intros p _; apply keeps_narrow_indices].
  unfold compute_knn_GF_search.
  apply keeps_bind with (Q := fun r => snd r = sentinel_device_of E);
    [apply keeps_cudaGetDevice|intros r Hr].
  apply keeps_bind with (Q := fun _ => True);
    [apply keeps_CHECK_CUDA_ERROR, keeps_ret; exact I|intros _ _].
  apply keeps_bind with (Q := fun r => snd r = num_devices_of E);
    [apply keeps_cudaGetDeviceCount|intros r' Hr'].
  apply keeps_bind with (Q := fun _ => True);
    [apply keeps_CHECK_CUDA_ERROR, keeps_ret; exact I|intros _ _].
  rewrite Hr, Hr'.
  apply keeps_bind with (Q := fun _ => True).
  { apply keeps_fold_M. intros st x. apply keeps_stage_device. exact Hnull. }
  intros st _.
  apply keeps_bind with (Q := fun _ => True);
    [apply keeps_CHECK_CUDA_ERROR, keeps_cudaSetDevice|intros _ _].
  apply keeps_bind with (Q := fun _ => True);
    [eapply keeps_weaken; [|apply keeps_device_uvector]; intros; exact I|].
  intros int64_indices _.
  apply keeps_bind with (Q := fun _ => True).
  { apply keeps_for_each. intros x Hx. apply in_range_list in Hx.
    destruct (Z.eq_dec x i) as [->|Hxi].
    - apply keeps_dispatch_failed; assumption.
    - apply keeps_dispatch_other; assumption. }
  intros _ _.
  apply keeps_bind with (Q := fun _ => True);
    [apply keeps_cudaSetDevice|intros _ _].
  apply keeps_ret. exact I.
Qed.

(** C6, as the code has it.  A status other than [cudaSuccess] passed to
    [check], or found by [checkLast], is written to the error stream and
    control returns to the caller; [compute_knn_GF] therefore returns
    normally whatever the CUDA runtime calls report, after running through
    its last runtime call and the final index conversion; and when the
    copy that gathers the distances of a device other than the home device
    fails, the slice of the merged distances that belongs to that device
    holds what it held before the call. *)
Theorem device_failures_are_logged_not_raised
  (X1 X2 inds dists : ptr) (m n1 n2 : Z) (si1 si2 : ptr)
  (n_search_items k : Z) (metric : DistanceType E) (s : state) :
  (forall err func file line (s0 : state),
     err <> cudaSuccess ->
     check E err func file line s0
     = (Ok tt, log_cerr E (cuda_runtime_error file line err (Some func)) s0))
  /\
  (forall file line (s0 : state),
     cuda_last_error (cuda E) <> cudaSuccess ->
     checkLast E file line s0
     = (Ok tt,
        log_cerr E
          (cuda_runtime_error file line (cuda_last_error (cuda E)) None) s0))
  /\
  (fst (compute_knn_GF E X1 X2 inds dists m n1 n2 si1 si2 n_search_items k
          metric s) = Ok tt /\
   In (ev_cuda call_final_SetDevice)
      (trace (snd (compute_knn_GF E X1 X2 inds dists m n1 n2 si1 si2
                     n_search_items k metric s))) /\
   In (ev_narrow (size_t_wrap (k * n_search_items)))
      (trace (snd (compute_knn_GF E X1 X2 inds dists m n1 n2 si1 si2
                     n_search_items k metric s)))) /\
  (forall i,
     size_t_range n_search_items -> int_range (num_devices_of E) ->
     0 <= k -> size_t_range (n_search_items * k) -> 0 < sizeof_value_t E ->
     blk dists <> blk NULL -> blk dists < next_block s ->
     0 <= i < num_devices_of E -> i <> sentinel_device_of E ->
     cuda_status (cuda E) (call_gather_Memcpy_dists i) <> cudaSuccess ->
     forall o,
       chunk_cells dists n_search_items k (num_devices_of E) i o ->
       fmem (snd (compute_knn_GF E X1 X2 inds dists m n1 n2 si1 si2
                    n_search_items k metric s)) (blk dists) o
       = fmem s (blk dists) o).
Proof.
  split; [|split; [|split]].
  - intros err func file line s0 Herr. unfold check.
    replace (err =? cudaSuccess) with false
      by (symmetry; apply Z.eqb_neq; exact Herr).
    reflexivity.
  - intros file line s0 Herr. unfold checkLast.
    replace (cuda_last_error (cuda E) =? cudaSuccess) with false
      by (symmetry; apply Z.eqb_neq; exact Herr).
    reflexivity.
  - pose proof (always_ok_compute_knn_GF X1 X2 inds dists m n1 n2 si1 si2
                  n_search_items k metric) as Hok.
    split; [rewrite (always_ok_run _ s Hok); reflexivity|]. split.
    + apply emits_run; [exact Hok|apply emits_compute_knn_GF_final].
    + apply emits_run; [exact Hok|apply emits_compute_knn_GF_narrow].
  - intros i Hn Hdr Hk Hnk Hsz Hnull Hlive Hi Hhome Hfail o Ho.
    pose proof (keeps_compute_knn_GF X1 X2 inds dists m n1 n2 si1 si2
                  n_search_items k metric i Hn Hdr Hk Hnk Hsz Hnull Hi
                  Hhome Hfail) as Hkeeps.
    destruct (Hkeeps s _ _ (surjective_pairing _) Hlive) as (_ & Hmem & _).
    apply Hmem. exact Ho.
Qed.

(** ** The GF variant *)




(** ** The single-set variant *)

Lemma always_ok_mutual_reachability_graph_supported
  (X : ptr) (m n : Z) (min_samples : Z) (alpha : value_t E)
  (indptr core_dists : ptr) :
  always_ok
    (mutual_reachability_graph E X m n (L2SqrtExpanded E) min_samples alpha
       indptr core_dists).
Proof.
  unfold mutual_reachability_graph, mutual_reachability_graph_to_csr.
  apply always_ok_bind; [|intros _; apply always_ok_self_loops].
  apply always_ok_bind; [apply always_ok_RAFT_EXPECTS_supported|intros _].
  do 3 (apply always_ok_bind; [apply always_ok_device_uvector|intro]).
  apply always_ok_bind; [apply always_ok_compute_knn|intros _].
  apply always_ok_bind; [apply always_ok_core_distances; lia|intros _].
  apply always_ok_bind;
    [apply always_ok_call_mutual_reachability_knn_l2|intros _].
  apply always_ok_bind; [apply always_ok_fill_coo_rows|intros _].
  apply always_ok_bind; [apply always_ok_call_symmetrize|intros _].
  apply always_ok_call_sorted_coo_to_csr.
Qed.

Lemma emits_mr_core_distances (X : ptr) (m n : Z)
  (metric : DistanceType E) (min_samples : Z) (alpha : value_t E)
  (indptr core_dists : ptr) :
  emits (ev_core_distances min_samples min_samples m)
    (mutual_reachability_graph E X m n metric min_samples alpha
       indptr core_dists).
Proof.
  unfold mutual_reachability_graph, mutual_reachability_graph_to_csr.
  apply emits_bind_left with (P := any_event);
    [|intros _; apply appends_self_loops; intros; exact I].
  do 5 (apply emits_bind_right; intro).
  apply emits_bind_left with (P := any_event).
  - apply emits_core_distances.
  - intros _. unfold fill_coo_rows. trace_seq.
Qed.

Lemma emits_mr_search (X : ptr) (m n : Z)
  (metric : DistanceType E) (min_samples : Z) (alpha : value_t E)
  (indptr core_dists : ptr) :
  emits (ev_brute_force_knn m min_samples)
    (mutual_reachability_graph E X m n metric min_samples alpha
       indptr core_dists).
Proof.
  unfold mutual_reachability_graph, mutual_reachability_graph_to_csr.
  apply emits_bind_left with (P := any_event);
    [|intros _; apply appends_self_loops; intros; exact I].
  do 4 (apply emits_bind_right; intro).
  apply emits_bind_left with (P := any_event).
  - unfold compute_knn. apply emits_bind_right. intros p.
    apply emits_bind_left with (P := any_event).
    + apply emits_call_brute_force_knn.
    + intros _. unfold narrow_indices. trace_seq.
  - intros _. unfold core_distances, fill_coo_rows. trace_seq.
Qed.

(** C10.  [mutual_reachability_graph] never fails with the
    invalid-configuration error of [core_distances]: whatever it launches,
    the search, the core-distance kernel and the mutual-reachability
    kernel carry the one value [min_samples] as neighbourhood size, so
    that [n_neighbors = min_samples] in its call of [core_distances]; on
    the supported metric it returns normally, having run the search with
    [k = min_samples] and [core_distances] with
    [(min_samples, min_samples)]. *)
Theorem invalid_configuration_is_unreachable
  (X : ptr) (m n : Z) (metric : DistanceType E) (min_samples : Z)
  (alpha : value_t E) (indptr core_dists : ptr) (s : state) :
  (forall msg,
     fst (mutual_reachability_graph E X m n metric min_samples alpha
            indptr core_dists s) <> Err (invalid_configuration msg)) /\
  (exists t,
     trace (snd (mutual_reachability_graph E X m n metric min_samples alpha
                   indptr core_dists s))
     = trace s ++ t /\
     Forall (mr_event_ok min_samples) t) /\
  (metric = L2SqrtExpanded E ->
     fst (mutual_reachability_graph E X m n metric min_samples alpha
            indptr core_dists s) = Ok tt /\
     In (ev_brute_force_knn m min_samples)
        (trace (snd (mutual_reachability_graph E X m n metric min_samples
                       alpha indptr core_dists s))) /\
     In (ev_core_distances min_samples min_samples m)
        (trace (snd (mutual_reachability_graph E X m n metric min_samples
                       alpha indptr core_dists s)))).
Proof.
  assert (Hrun : metric = L2SqrtExpanded E ->
                 mutual_reachability_graph E X m n metric min_samples
                   alpha indptr core_dists s
                 = (Ok tt,
                    snd (mutual_reachability_graph E X m n metric
                           min_samples alpha indptr core_dists s))).
  { intros ->. apply always_ok_run.
    apply always_ok_mutual_reachability_graph_supported. }
  split; [|split].
  - intros msg.
    destruct (metric_eq_dec E metric (L2SqrtExpanded E)) as [Heq|Hne].
    + rewrite (Hrun Heq). cbn [fst]. discriminate.
    + unfold mutual_reachability_graph, mutual_reachability_graph_to_csr.
      erewrite bind_err;
        [|apply bind_err; apply RAFT_EXPECTS_metric_false; exact Hne].
      cbn [fst]. discriminate.
  - apply (mr_trace X m n metric min_samples alpha indptr core_dists s _ _
             (surjective_pairing _)).
  - intros Hm. specialize (Hrun Hm).
    split; [rewrite Hrun; reflexivity|]. split.
    + exact (emits_mr_search X m n metric min_samples alpha indptr
               core_dists s tt _ Hrun).
    + exact (emits_mr_core_distances X m n metric min_samples alpha indptr
               core_dists s tt _ Hrun).
Qed.

End ReachabilityFacts.

(** * Further properties of the code *)

Lemma wrap_signed_range (w z : Z) : 0 < w -> in_signed w (wrap_signed w z).
Proof.
  intros Hw. unfold in_signed, wrap_signed.
  pose proof (pow2_double w Hw) as Hp.
  assert (Hpos : 0 < 2 ^ (w - 1)) by (apply Z.pow_pos_nonneg; lia).
  pose proof (Z.mod_pos_bound (z + 2 ^ (w - 1)) (2 ^ w)). lia.
Qed.

Lemma wrap_signed_le (w z : Z) : 0 < w -> 0 <= z -> wrap_signed w z <= z.
Proof.
  intros Hw Hz. unfold wrap_signed.
  assert (Hpos : 0 < 2 ^ (w - 1)) by (apply Z.pow_pos_nonneg; lia).
  assert (Hpw : 0 < 2 ^ w) by (apply Z.pow_pos_nonneg; lia).
  pose proof (Z.mod_le (z + 2 ^ (w - 1)) (2 ^ w)). lia.
Qed.

Lemma store_range_in {T} (h : heap T) p len src b o :
  in_range p len b o = true ->
  store_range h p len src b o = src (o - off p).
Proof. intros H. unfold store_range. rewrite H. reflexivity. Qed.

Lemma store_range_notin {T} (h : heap T) p len src b o :
  in_range p len b o = false -> store_range h p len src b o = h b o.
Proof. intros H. unfold store_range. rewrite H. reflexivity. Qed.

Lemma in_signed_wider (w w' z : Z) :
  0 < w -> w <= w' -> in_signed w z -> in_signed w' z.
Proof.
  unfold in_signed. intros Hw Hle [Hlo Hhi].
  assert (Hmono : 2 ^ (w - 1) <= 2 ^ (w' - 1))
    by (apply Z.pow_le_mono_r; lia).
  lia.
Qed.

(** X1.  The partition leaves no gap: the first chunk starts at row 0, each
    chunk starts where the one before it ends, and the last chunk ends at
    row [n_search_items]. *)
Theorem partition_tiles_the_rows (n_search_items num_devices : Z) :
  size_t_range n_search_items -> 1 <= num_devices -> int_range num_devices ->
  start_pos_idx n_search_items num_devices 0 = 0 /\
  (forall i, 0 <= i < num_devices - 1 ->
     start_pos_idx n_search_items num_devices (i + 1)
     = start_pos_idx n_search_items num_devices i
       + num_search_items_me n_search_items num_devices i) /\
  start_pos_idx n_search_items num_devices (num_devices - 1)
  + num_search_items_me n_search_items num_devices (num_devices - 1)
  = n_search_items.
Proof.
  intros Hn Hd Hdr. split; [|split].
  - rewrite start_pos_idx_eq by (assumption || lia). lia.
  - intros i Hi.
    rewrite !start_pos_idx_eq, num_search_items_me_eq by (assumption || lia).
    replace (i =? num_devices - 1) with false
      by (symmetry; apply Z.eqb_neq; lia).
    lia.
  - apply last_chunk_end; assumption.
Qed.

Section MoreFacts.

Variable E : Externals.

Local Abbreviation state := (device_state E).

(** ** Index conversion *)

(** X2.  The conversion to [value_idx] keeps exactly the representable indices:
    its result is always representable, and it returns its argument if and
    only if the argument is; any other 64-bit index is changed. *)
Theorem narrow_keeps_exactly_the_representable (v : Z) :
  0 < idx_bits E ->
  idx_range E (narrow E v) /\ (narrow E v = v <-> idx_range E v).
Proof.
  intros Hw. split.
  - apply wrap_signed_range. exact Hw.
  - split.
    + intros Heq. rewrite <- Heq. apply wrap_signed_range. exact Hw.
    + intros Hv. apply narrow_id; assumption.
Qed.

(** ** [core_distances] *)

Lemma counting_distance_le (n : Z) :
  0 < idx_bits E -> 0 <= n -> counting_distance E n <= n.
Proof.
  intros Hw Hn. unfold counting_distance, narrow.
  pose proof (wrap_signed_le (idx_bits E) n Hw Hn). lia.
Qed.

(** X3.  Whatever its arguments, [core_distances] writes no cell outside
    [out[0 .. n-1]]: also when it fails, and also when [n] or the flat
    indices leave [value_idx]. *)
Theorem core_distances_writes_within_output
  (knn_dists out_ptr : ptr) (min_samples n_neighbors n : Z) (s : state) :
  0 < idx_bits E -> 0 <= n ->
  let s' :=
    snd (core_distances E knn_dists min_samples n_neighbors n out_ptr s) in
  (forall b o, ~ (b = blk out_ptr /\ off out_ptr <= o < off out_ptr + n) ->
     fmem s' b o = fmem s b o) /\
  imem s' = imem s /\ lmem s' = lmem s /\ out s' = out s /\
  cerr s' = cerr s /\ next_block s' = next_block s.
Proof.
  intros Hw Hn. unfold core_distances, ASSERT, emit, transform_value, bind.
  destruct (n_neighbors >=? min_samples); cbn [snd].
  - unfold set_fmem, record; cbn [fmem imem lmem next_block out cerr trace].
    split; [|repeat split].
    intros b o Hout. apply store_range_out.
    pose proof (counting_distance_le n Hw Hn). lia.
  - repeat split.
Qed.

(** X4.  Extracting the core distances a second time changes nothing, when the
    output array lies in another block than the KNN distances. *)
Theorem core_distances_is_idempotent
  (knn_dists out_ptr : ptr) (min_samples n_neighbors n : Z) (s : state) :
  blk out_ptr <> blk knn_dists ->
  let once :=
    snd (core_distances E knn_dists min_samples n_neighbors n out_ptr s) in
  let twice :=
    snd (core_distances E knn_dists min_samples n_neighbors n out_ptr once) in
  forall b o, fmem twice b o = fmem once b o.
Proof.
  intros Hblk once twice b o. subst once twice.
  unfold core_distances, ASSERT, emit, transform_value, bind.
  destruct (n_neighbors >=? min_samples); cbn [snd]; [|reflexivity].
  unfold set_fmem, record; cbn [fmem].
  destruct (in_range out_ptr (counting_distance E n) b o) eqn:Hr.
  - rewrite !(store_range_in _ _ _ _ _ _ Hr). unfold load.
    rewrite store_range_other_block by (apply not_eq_sym; exact Hblk).
    reflexivity.
  - rewrite !(store_range_notin _ _ _ _ _ _ Hr). reflexivity.
Qed.

(** ** The rows of the edge list *)

(** X5.  Edge [r * min_samples + j] of the directed edge list belongs to row
    [r]: [coo_rows] holds [min_samples] consecutive entries [r] for every
    point [r], provided the edge count fits [value_idx]. *)
Theorem fill_coo_rows_groups_edges_by_point
  (coo_rows : ptr) (m min_samples : Z) (s : state) (r j : Z) :
  0 < idx_bits E -> 0 < min_samples -> 0 <= m ->
  size_t_range (m * min_samples) -> idx_range E (m * min_samples) ->
  0 <= r < m -> 0 <= j < min_samples ->
  load (imem (snd (fill_coo_rows E coo_rows m min_samples s))) coo_rows
       (r * min_samples + j)
  = r.
Proof.
  intros Hw Hms Hm Hsz Hidx Hr Hj.
  assert (Hc : 0 <= r * min_samples + j < m * min_samples) by nia.
  rewrite fill_coo_rows_imem_in.
  2:{ rewrite size_t_wrap_id by exact Hsz.
      rewrite counting_distance_id by assumption. exact Hc. }
  rewrite (narrow_id E (r * min_samples + j))
    by (try apply (idx_range_below E (m * min_samples)); assumption).
  assert (Hq : Z.quot (r * min_samples + j) min_samples = r).
  { rewrite Z.quot_div_nonneg by lia.
    rewrite Z.div_add_l by lia. rewrite Z.div_small by lia. lia. }
  rewrite Hq.
  assert (Hrr : idx_range E r)
    by (apply (idx_range_below E (m * min_samples)); try assumption; nia).
  rewrite arith_wrap_id
    by (apply (in_signed_wider (idx_bits E)); [exact Hw|lia|exact Hrr]).
  apply narrow_id; assumption.
Qed.

(** ** The self-loop pass *)

(** X6.  Running the self-loop pass a second time changes no edge. *)
Theorem self_loop_pass_is_idempotent (s : state) :
  let once := snd (self_loops_get_max_distance E s) in
  let twice := snd (self_loops_get_max_distance E once) in
  nnz (out twice) = nnz (out once) /\
  (forall e, rows (out twice) e = rows (out once) e) /\
  (forall e, cols (out twice) e = cols (out once) e) /\
  (forall e, vals (out twice) e = vals (out once) e).
Proof.
  intros once twice. subst once twice. rewrite !self_loops_run.
  unfold record, set_out; cbn [snd out nnz rows cols vals].
  repeat split.
  intros e. destruct ((0 <=? e) && (e <? nnz (out s))); [|reflexivity].
  unfold self_loop_weight.
  destruct (rows (out s) e =? cols (out s) e); reflexivity.
Qed.

(** ** The single-set graph builder, step by step *)

Lemma store_range_empty {T} (h : heap T) p len src b o :
  len <= 0 -> store_range h p len src b o = h b o.
Proof. intros Hlen. apply store_range_out. lia. Qed.


Lemma compute_knn_fmem X inds dists m n si nsi k metric (s : state) :
  fmem (snd (compute_knn E X inds dists m n si nsi k metric s))
  = store_range (fmem s) dists (nsi * k)
      (snd (brute_force_knn E [view (fmem s) X] [int_wrap m] n
              (view (fmem s) si) nsi k true true metric)).
Proof. reflexivity. Qed.

(** The run of [mutual_reachability_graph] on the supported metric, step
    by step. *)
Lemma mr_run (X : ptr) (m n : Z) (min_samples : Z)
  (alpha : value_t E) (indptr core_dists : ptr) (s : state) :
  let count := size_t_wrap (min_samples * m) in
  let coo_rows := mk_ptr (next_block s) 0 in
  let inds := mk_ptr (next_block s + 1) 0 in
  let dists := mk_ptr (next_block s + 1 + 1) 0 in
  let s0 :=
    snd (device_uvector E count
           (snd (device_uvector E count
                   (snd (device_uvector E count s))))) in
  let s_knn :=
    snd (compute_knn E X inds dists m n X m min_samples
           (L2SqrtExpanded E) s0) in
  let s_core :=
    snd (core_distances E dists min_samples min_samples m core_dists s_knn) in
  let s_mr :=
    snd (call_mutual_reachability_knn_l2 E inds dists X m n min_samples
           core_dists (value_div E (value_one E) alpha) s_core) in
  let s_rows := snd (fill_coo_rows E coo_rows m min_samples s_mr) in
  let s_sym := snd (call_symmetrize E coo_rows inds dists m m count s_rows) in
  let s_csr :=
    snd (call_sorted_coo_to_csr E indptr (size_t_wrap (m + 1)) s_sym) in
  mutual_reachability_graph E X m n (L2SqrtExpanded E)
    min_samples alpha indptr core_dists s
  = (Ok tt, snd (self_loops_get_max_distance E s_csr)).
Proof.
  intros count coo_rows inds dists s0 s_knn s_core s_mr s_rows s_sym s_csr.
  unfold mutual_reachability_graph.
  rewrite bind_total.
  2:{ unfold mutual_reachability_graph_to_csr.
      apply always_ok_bind; [apply always_ok_RAFT_EXPECTS_supported|intros _].
      do 3 (apply always_ok_bind; [apply always_ok_device_uvector|intro]).
      apply always_ok_bind; [apply always_ok_compute_knn|intros _].
      apply always_ok_bind; [apply always_ok_core_distances; lia|intros _].
      apply always_ok_bind;
        [apply always_ok_call_mutual_reachability_knn_l2|intros _].
      apply always_ok_bind; [apply always_ok_fill_coo_rows|intros _].
      apply always_ok_bind; [apply always_ok_call_symmetrize|intros _].
      apply always_ok_call_sorted_coo_to_csr. }
  rewrite (always_ok_run E (self_loops_get_max_distance E))
    by apply always_ok_self_loops.
  f_equal. f_equal.
  unfold mutual_reachability_graph_to_csr.
  rewrite bind_total by apply always_ok_RAFT_EXPECTS_supported.
  rewrite RAFT_EXPECTS_supported_state.
  rewrite !bind_device_uvector.
  rewrite bind_total by apply always_ok_compute_knn.
  rewrite bind_total by (apply always_ok_core_distances; lia).
  rewrite bind_total by apply always_ok_call_mutual_reachability_knn_l2.
  rewrite bind_total by apply always_ok_fill_coo_rows.
  rewrite bind_total by apply always_ok_call_symmetrize.
  reflexivity.
Qed.


(** ** The CSR offsets *)

Lemma csr_then_self_loops (indptr : ptr) (len : Z) (s_sym s_csr s' : state) :
  call_sorted_coo_to_csr E indptr len s_sym = (Ok tt, s_csr) ->
  self_loops_get_max_distance E s_csr = (Ok tt, s') ->
  forall r, 0 <= r < len ->
    load (imem s') indptr r
    = sorted_coo_to_csr E (rows (out s')) (nnz (out s')) len r.
Proof.
  intros Hcsr Hpass r Hr.
  unfold call_sorted_coo_to_csr in Hcsr. inversion Hcsr; subst; clear Hcsr.
  rewrite self_loops_run in Hpass. inversion Hpass; subst; clear Hpass.
  unfold record, set_out, set_imem; cbn [imem out rows nnz].
  apply load_store_range_in. exact Hr.
Qed.

(** X8.  When either graph builder returns, [indptr[0 .. m]] holds the CSR row
    offsets of the rows of the graph it returns: the self-loop pass that
    follows the CSR conversion changes weights only. *)
Theorem indptr_describes_the_returned_graph
  (X X1 X2 : ptr) (m n n1 n2 : Z) (metric : DistanceType E)
  (min_samples : Z) (alpha : value_t E) (indptr core_dists : ptr)
  (s : state) :
  size_t_range (m + 1) ->
  (forall s',
     mutual_reachability_graph E X m n metric min_samples alpha
       indptr core_dists s = (Ok tt, s') ->
     forall r, 0 <= r < m + 1 ->
       load (imem s') indptr r
       = sorted_coo_to_csr E (rows (out s')) (nnz (out s')) (m + 1) r) /\
  (forall s',
     mutual_reachability_graph_GF E X1 X2 m n1 n2 metric min_samples alpha
       indptr core_dists s = (Ok tt, s') ->
     forall r, 0 <= r < m + 1 ->
       load (imem s') indptr r
       = sorted_coo_to_csr E (rows (out s')) (nnz (out s')) (m + 1) r).
Proof.
  intros Hm. split; intros s' Hrun r Hr.
  - unfold mutual_reachability_graph in Hrun.
    apply bind_ok_inv in Hrun. destruct Hrun as ([] & s_pre & Hpre & Hpass).
    unfold mutual_reachability_graph_to_csr in Hpre.
    do 9 (apply bind_ok_inv in Hpre; destruct Hpre as (? & ? & _ & Hpre)).
    rewrite size_t_wrap_id in Hpre by exact Hm.
    exact (csr_then_self_loops _ _ _ _ _ Hpre Hpass r Hr).
  - unfold mutual_reachability_graph_GF in Hrun.
    apply bind_ok_inv in Hrun. destruct Hrun as ([] & s_pre & Hpre & Hpass).
    unfold mutual_reachability_graph_GF_to_csr in Hpre.
    do 8 (apply bind_ok_inv in Hpre; destruct Hpre as (? & ? & _ & Hpre)).
    rewrite size_t_wrap_id in Hpre by exact Hm.
    exact (csr_then_self_loops _ _ _ _ _ Hpre Hpass r Hr).
Qed.

(** ** What each step does to the three heaps *)

Lemma device_uvector_heaps count (s : state) :
  fmem (snd (device_uvector E count s)) = fmem s /\
  imem (snd (device_uvector E count s)) = imem s /\
  lmem (snd (device_uvector E count s)) = lmem s.
Proof. repeat split. Qed.

Lemma compute_knn_imem X inds dists m n si nsi k metric (s : state) :
  imem (snd (compute_knn E X inds dists m n si nsi k metric s))
  = store_range (imem s) inds (size_t_wrap (k * nsi))
      (fun j =>
         narrow E
           (load (store_range (lmem s) (mk_ptr (next_block s) 0) (nsi * k)
                    (fst (brute_force_knn E [view (fmem s) X] [int_wrap m] n
                            (view (fmem s) si) nsi k true true metric)))
                 (mk_ptr (next_block s) 0) j)).
Proof. reflexivity. Qed.

Lemma compute_knn_lmem X inds dists m n si nsi k metric (s : state) :
  lmem (snd (compute_knn E X inds dists m n si nsi k metric s))
  = store_range (lmem s) (mk_ptr (next_block s) 0) (nsi * k)
      (fst (brute_force_knn E [view (fmem s) X] [int_wrap m] n
              (view (fmem s) si) nsi k true true metric)).
Proof. reflexivity. Qed.

Lemma core_distances_fmem_ok knn_dists min_samples n_neighbors n out_ptr
  (s : state) :
  min_samples <= n_neighbors ->
  fmem (snd (core_distances E knn_dists min_samples n_neighbors n out_ptr s))
  = store_range (fmem s) out_ptr (counting_distance E n)
      (fun j =>
         load (fmem s) knn_dists
           (arith_wrap E (narrow E j * n_neighbors
                          + int_wrap (min_samples - 1)))).
Proof.
  intros Hle. unfold core_distances, ASSERT, bind.
  replace (n_neighbors >=? min_samples) with true
    by (symmetry; rewrite Z.geb_leb; apply Z.leb_le; exact Hle).
  reflexivity.
Qed.

Lemma core_distances_lmem knn_dists min_samples n_neighbors n out_ptr
  (s : state) :
  lmem (snd (core_distances E knn_dists min_samples n_neighbors n out_ptr s))
  = lmem s.
Proof.
  unfold core_distances, ASSERT, bind.
  destruct (n_neighbors >=? min_samples); reflexivity.
Qed.

Lemma mr_kernel_heaps oi od X m n k cd w (s : state) :
  let r := mutual_reachability_knn_l2 E (view (imem s) oi) (view (fmem s) od)
             (view (fmem s) X) m n k (view (fmem s) cd) w in
  let s' := snd (call_mutual_reachability_knn_l2 E oi od X m n k cd w s) in
  fmem s' = store_range (fmem s) od (m * k) (snd r) /\
  imem s' = store_range (imem s) oi (m * k) (fst r) /\
  lmem s' = lmem s.
Proof. repeat split. Qed.

Lemma fill_coo_rows_heaps coo_rows m min_samples (s : state) :
  let s' := snd (fill_coo_rows E coo_rows m min_samples s) in
  fmem s' = fmem s /\ lmem s' = lmem s /\
  imem s'
  = store_range (imem s) coo_rows
      (counting_distance E (size_t_wrap (m * min_samples)))
      (fun j => narrow E (arith_wrap E (Z.quot (narrow E j) min_samples))).
Proof. repeat split. Qed.

Lemma call_symmetrize_heaps r c v m n z (s : state) :
  let s' := snd (call_symmetrize E r c v m n z s) in
  fmem s' = fmem s /\ imem s' = imem s /\ lmem s' = lmem s.
Proof. repeat split. Qed.

Lemma call_symmetrize_trace r c v m n z (s : state) :
  trace (snd (call_symmetrize E r c v m n z s))
  = trace s ++ [ev_symmetrize z].
Proof. reflexivity. Qed.

Lemma call_sorted_coo_to_csr_heaps p len (s : state) :
  let s' := snd (call_sorted_coo_to_csr E p len s) in
  fmem s' = fmem s /\ lmem s' = lmem s /\
  imem s'
  = store_range (imem s) p len
      (sorted_coo_to_csr E (rows (out s)) (nnz (out s)) len).
Proof. repeat split. Qed.

Lemma self_loops_heaps (s : state) :
  let s' := snd (self_loops_get_max_distance E s) in
  fmem s' = fmem s /\ imem s' = imem s /\ lmem s' = lmem s /\
  rows (out s') = rows (out s) /\ nnz (out s') = nnz (out s).
Proof. repeat split. Qed.

(** ** The empty point set *)

(** X9.  On an empty point set ([m = 0]) and the supported metric,
    [mutual_reachability_graph] returns normally; it writes no distance,
    no core distance and no 64-bit index, hands [symmetrize] an empty edge
    list, and the one [value_idx] cell it writes is [indptr[0]]. *)
Theorem empty_point_set_writes_only_indptr_0
  (X : ptr) (n : Z) (min_samples : Z) (alpha : value_t E)
  (indptr core_dists : ptr) (s : state) :
  0 < idx_bits E ->
  let run :=
    mutual_reachability_graph E X 0 n (L2SqrtExpanded E) min_samples alpha
      indptr core_dists s in
  fst run = Ok tt /\
  (forall b o, fmem (snd run) b o = fmem s b o) /\
  (forall b o, lmem (snd run) b o = lmem s b o) /\
  (forall b o, ~ (b = blk indptr /\ o = off indptr) ->
     imem (snd run) b o = imem s b o) /\
  load (imem (snd run)) indptr 0
  = sorted_coo_to_csr E (rows (out (snd run))) (nnz (out (snd run))) 1 0 /\
  In (ev_symmetrize 0) (trace (snd run)).
Proof.
  intros Hw run. subst run. rewrite mr_run. cbn [fst snd].
  assert (Hzero : idx_range E 0).
  { unfold idx_range, in_signed.
    assert (0 < 2 ^ (idx_bits E - 1)) by (apply Z.pow_pos_nonneg; lia). lia. }
  assert (Hcount : counting_distance E 0 = 0)
    by (apply counting_distance_id; assumption).
  rewrite Z.mul_0_r.
  change (size_t_wrap 0) with 0. change (size_t_wrap (0 + 1)) with 1.
  set (coo_rows := mk_ptr (next_block s) 0).
  set (inds := mk_ptr (next_block s + 1) 0).
  set (dists := mk_ptr (next_block s + 1 + 1) 0).
  set (s0 := snd (device_uvector E 0 (snd (device_uvector E 0
                    (snd (device_uvector E 0 s)))))).
  set (s_knn := snd (compute_knn E X inds dists 0 n X 0 min_samples _ s0)).
  set (s_core := snd (core_distances E dists _ _ 0 core_dists s_knn)).
  set (s_mr := snd (call_mutual_reachability_knn_l2 E inds dists X 0 n
                      min_samples core_dists _ s_core)).
  set (s_rows := snd (fill_coo_rows E coo_rows 0 min_samples s_mr)).
  set (s_sym := snd (call_symmetrize E coo_rows inds dists 0 0 0 s_rows)).
  set (s_csr := snd (call_sorted_coo_to_csr E indptr 1 s_sym)).
  destruct (self_loops_heaps s_csr) as (Hf7 & Hi7 & Hl7 & Hrows7 & Hnnz7).
  destruct (call_sorted_coo_to_csr_heaps indptr 1 s_sym) as (Hf6 & Hl6 & Hi6).
  destruct (call_symmetrize_heaps coo_rows inds dists 0 0 0 s_rows)
    as (Hf5 & Hi5 & Hl5).
  destruct (fill_coo_rows_heaps coo_rows 0 min_samples s_mr)
    as (Hf4 & Hl4 & Hi4).
  destruct (mr_kernel_heaps inds dists X 0 n min_samples core_dists
              (value_div E (value_one E) alpha) s_core) as (Hf3 & Hi3 & Hl3).
  pose proof (core_distances_fmem_ok dists min_samples min_samples 0
                core_dists s_knn (Z.le_refl _)) as Hf2.
  pose proof (core_distances_imem E dists min_samples min_samples 0
                core_dists s_knn) as Hi2.
  pose proof (core_distances_lmem dists min_samples min_samples 0
                core_dists s_knn) as Hl2.
  pose proof (compute_knn_fmem X inds dists 0 n X 0 min_samples
                (L2SqrtExpanded E) s0) as Hf1.
  pose proof (compute_knn_imem X inds dists 0 n X 0 min_samples
                (L2SqrtExpanded E) s0) as Hi1.
  pose proof (compute_knn_lmem X inds dists 0 n X 0 min_samples
                (L2SqrtExpanded E) s0) as Hl1.
  fold s_knn in Hf1, Hi1, Hl1. fold s_core in Hf2, Hi2, Hl2.
  fold s_mr in Hf3, Hi3, Hl3. fold s_rows in Hf4, Hi4, Hl4.
  fold s_sym in Hf5, Hi5, Hl5. fold s_csr in Hf6, Hi6, Hl6.
  cbv zeta in Hf3, Hi3, Hl3, Hf4, Hi4, Hl4, Hf5, Hi5, Hl5, Hf6, Hi6, Hl6,
    Hf7, Hi7, Hl7, Hrows7, Hnnz7.
  fold s_mr in Hf3, Hi3, Hl3. fold s_rows in Hf4, Hi4, Hl4.
  fold s_sym in Hf5, Hi5, Hl5. fold s_csr in Hf6, Hi6, Hl6.
  rewrite Z.mul_0_r in Hi1. change (size_t_wrap 0) with 0 in Hi1.
  change (0 * min_samples) with 0 in *.
  change (size_t_wrap 0) with 0 in *.
  rewrite Hcount in *.
  split; [reflexivity|]. split; [|split; [|split; [|split]]].
  - intros b o. rewrite Hf7, Hf6, Hf5, Hf4, Hf3, store_range_empty by lia.
    rewrite Hf2, store_range_empty by lia.
    rewrite Hf1, store_range_empty by lia. reflexivity.
  - intros b o. rewrite Hl7, Hl6, Hl5, Hl4, Hl3, Hl2, Hl1.
    rewrite store_range_empty by lia. reflexivity.
  - intros b o Hout. rewrite Hi7, Hi6.
    rewrite store_range_out by (intros [Hb Ho]; apply Hout; split; lia).
    rewrite Hi5, Hi4, store_range_empty by lia.
    rewrite Hi3, store_range_empty by lia.
    rewrite Hi2, Hi1, store_range_empty by lia. reflexivity.
  - rewrite Hi7, Hi6, load_store_range_in by lia.
    rewrite Hrows7, Hnnz7. reflexivity.
  - eapply (appends_keeps E any_event);
      [apply appends_self_loops; intros; exact I|apply surjective_pairing|].
    eapply (appends_keeps E any_event);
      [apply appends_call_sorted_coo_to_csr; exact I
      |apply surjective_pairing|].
    fold s_csr. unfold s_sym. rewrite call_symmetrize_trace.
    apply in_or_app. right. left. reflexivity.
Qed.

(** ** The error stream *)

Lemma silent_ret {A} (Q : A -> Prop) (a : A) : Q a -> silent Q (@ret E A a).
Proof.
  intros HQ s r s' H. inversion H; subst. split; [reflexivity|].
  intros a' Ha'. inversion Ha'; subst. exact HQ.
Qed.

Lemma silent_bind {A B} (Q : A -> Prop) (R : B -> Prop) (c : M E A)
  (k : A -> M E B) :
  silent Q c -> (forall a, Q a -> silent R (k a)) -> silent R (bind c k).
Proof.
  intros Hc Hk s r s' H. apply bind_inv in H.
  destruct H as [(a & s1 & H1 & H2)|(e & H1 & ->)].
  - destruct (Hc _ _ _ H1) as (Hs1 & HQ).
    destruct (Hk a (HQ a eq_refl) _ _ _ H2) as (Hs2 & HR).
    split; [congruence|exact HR].
  - destruct (Hc _ _ _ H1) as (Hs1 & _).
    split; [exact Hs1|]. intros a Ha. discriminate.
Qed.

Lemma silent_for_each {A} (l : list A) (body : A -> M E unit) :
  (forall x, silent (fun _ => True) (body x)) ->
  silent (fun _ => True) (for_each l body).
Proof.
  intros Hbody. induction l as [|x l IH]; simpl.
  - apply silent_ret. exact I.
  - apply silent_bind with (Q := fun _ => True); [apply Hbody|].
    intros _ _. exact IH.
Qed.

Lemma silent_fold_M {A B} (f : B -> A -> M E B) (l : list A) (b0 : B) :
  (forall b1 x, silent (fun _ => True) (f b1 x)) ->
  silent (fun _ => True) (fold_M f l b0).
Proof.
  intros Hf. revert b0. induction l as [|x l IH]; intros b0; simpl.
  - apply silent_ret. exact I.
  - apply silent_bind with (Q := fun _ => True); [apply Hf|].
    intros b1 _. apply IH.
Qed.

(** A step that does not print. *)
Ltac silent_step :=
  let s := fresh "s" in
  let r := fresh "r" in
  let s' := fresh "s'" in
  let H := fresh "H" in
  intros s r s' H;
  repeat match type of H with
         | context [if ?b then _ else _] => destruct b eqn:?
         end;
  inversion H; subst; clear H;
  (split; [reflexivity|]);
  let a := fresh "a" in
  let Ha := fresh "Ha" in
  intros a Ha; inversion Ha; subst; cbn [fst snd]; auto.

Lemma silent_check_success func file line :
  silent (fun _ => True) (check E cudaSuccess func file line).
Proof.
  intros s r s' H. unfold check in H. cbn in H. inversion H; subst.
  split; [reflexivity|]. intros; exact I.
Qed.

Lemma silent_CHECK_CUDA_ERROR val func line :
  silent (fun err => err = cudaSuccess) val ->
  silent (fun _ => True) (CHECK_CUDA_ERROR E val func line).
Proof.
  intros Hval. unfold CHECK_CUDA_ERROR.
  apply silent_bind with (Q := fun err => err = cudaSuccess); [exact Hval|].
  intros err ->. apply silent_check_success.
Qed.

Section AllSucceed.

Hypothesis Hall : forall c, cuda_status (cuda E) c = cudaSuccess.

Lemma silent_cudaGetDevice d :
  silent (fun r => fst r = cudaSuccess) (cudaGetDevice E d).
Proof. unfold cudaGetDevice. silent_step. Qed.

Lemma silent_cudaGetDeviceCount d :
  silent (fun r => fst r = cudaSuccess) (cudaGetDeviceCount E d).
Proof. unfold cudaGetDeviceCount. silent_step. Qed.

Lemma silent_cudaSetDevice c :
  silent (fun err => err = cudaSuccess) (cudaSetDevice E c).
Proof. unfold cudaSetDevice. silent_step. Qed.

Lemma silent_cudaMalloc c p bytes :
  silent (fun r => fst r = cudaSuccess) (cudaMalloc E c p bytes).
Proof. unfold cudaMalloc. silent_step. Qed.

Lemma silent_cudaMemcpy_value c dst src bytes :
  silent (fun err => err = cudaSuccess) (cudaMemcpy_value E c dst src bytes).
Proof. unfold cudaMemcpy_value. silent_step. Qed.

Lemma silent_cudaMemcpy_int64 c dst src bytes :
  silent (fun err => err = cudaSuccess) (cudaMemcpy_int64 E c dst src bytes).
Proof. unfold cudaMemcpy_int64. silent_step. Qed.

Lemma silent_cudaFree c p :
  silent (fun err => err = cudaSuccess) (cudaFree E c p).
Proof. unfold cudaFree. silent_step. Qed.

Lemma silent_device_uvector count :
  silent (fun _ => True) (device_uvector E count).
Proof. unfold device_uvector. silent_step. Qed.

Lemma silent_call_brute_force_knn_GF i in1 in2 sizes D1 D2 s1 s2 n rI rD
  k x y metric :
  silent (fun _ => True)
    (call_brute_force_knn_GF E i in1 in2 sizes D1 D2 s1 s2 n rI rD k x y
       metric).
Proof. unfold call_brute_force_knn_GF. silent_step. Qed.

Lemma silent_narrow_indices p size inds :
  silent (fun _ => True) (narrow_indices E p size inds).
Proof.
  unfold narrow_indices.
  apply silent_bind with (Q := fun _ => True).
  - unfold emit. silent_step.
  - intros _ _. unfold transform_idx. silent_step.
Qed.

Lemma silent_stage_device X1 X2 m n1 n2 sentinel st i :
  silent (fun _ => True) (stage_device E X1 X2 m n1 n2 sentinel st i).
Proof.
  unfold stage_device.
  destruct (negb (i =? sentinel)); [|apply silent_ret; exact I].
  apply silent_bind with (Q := fun _ => True);
    [apply silent_CHECK_CUDA_ERROR, silent_cudaSetDevice|intros _ _].
  apply silent_bind with (Q := fun r => fst r = cudaSuccess);
    [apply silent_cudaMalloc|intros r1 Hr1].
  apply silent_bind with (Q := fun _ => True);
    [apply silent_CHECK_CUDA_ERROR, silent_ret; exact Hr1|intros _ _].
  apply silent_bind with (Q := fun r => fst r = cudaSuccess);
    [apply silent_cudaMalloc|intros r2 Hr2].
  apply silent_bind with (Q := fun _ => True);
    [apply silent_CHECK_CUDA_ERROR, silent_ret; exact Hr2|intros _ _].
  apply silent_bind with (Q := fun _ => True);
    [apply silent_CHECK_CUDA_ERROR, silent_cudaMemcpy_value|intros _ _].
  apply silent_bind with (Q := fun _ => True);
    [apply silent_CHECK_CUDA_ERROR, silent_cudaMemcpy_value|intros _ _].
  apply silent_ret. exact I.
Qed.

Lemma silent_dispatch_device st sizes dists ii n1 n2 nsi k metric nd sd i :
  silent (fun _ => True)
    (dispatch_device E st sizes dists ii n1 n2 nsi k metric nd sd i).
Proof.
  unfold dispatch_device.
  apply silent_bind with (Q := fun _ => True);
    [apply silent_CHECK_CUDA_ERROR, silent_cudaSetDevice|intros _ _].
  destruct (negb (i =? sd)); [|apply silent_call_brute_force_knn_GF].
  do 2 (apply silent_bind with (Q := fun _ => True);
        [apply silent_device_uvector|intros ? _]).
  apply silent_bind with (Q := fun _ => True);
    [apply silent_call_brute_force_knn_GF|intros _ _].
  apply silent_bind with (Q := fun _ => True);
    [apply silent_CHECK_CUDA_ERROR, silent_cudaMemcpy_value|intros _ _].
  apply silent_bind with (Q := fun _ => True);
    [apply silent_CHECK_CUDA_ERROR, silent_cudaMemcpy_int64|intros _ _].
  apply silent_bind with (Q := fun _ => True);
    [apply silent_CHECK_CUDA_ERROR, silent_cudaFree|intros _ _].
  apply silent_CHECK_CUDA_ERROR, silent_cudaFree.
Qed.

Lemma silent_compute_knn_GF X1 X2 inds dists m n1 n2 s1 s2 nsi k metric :
  silent (fun _ => True)
    (compute_knn_GF E X1 X2 inds dists m n1 n2 s1 s2 nsi k metric).
Proof.
  unfold compute_knn_GF.
  apply silent_bind with (Q := fun _ => True);
    [|intros p _; apply silent_narrow_indices].
  unfold compute_knn_GF_search.
  apply silent_bind with (Q := fun r => fst r = cudaSuccess);
    [apply silent_cudaGetDevice|intros r Hr].
  apply silent_bind with (Q := fun _ => True);
    [apply silent_CHECK_CUDA_ERROR, silent_ret; exact Hr|intros _ _].
  apply silent_bind with (Q := fun r => fst r = cudaSuccess);
    [apply silent_cudaGetDeviceCount|intros r' Hr'].
  apply silent_bind with (Q := fun _ => True);
    [apply silent_CHECK_CUDA_ERROR, silent_ret; exact Hr'|intros _ _].
  apply silent_bind with (Q := fun _ => True);
    [apply silent_fold_M; intros; apply silent_stage_device|intros st _].
  apply silent_bind with (Q := fun _ => True);
    [apply silent_CHECK_CUDA_ERROR, silent_cudaSetDevice|intros _ _].
  apply silent_bind with (Q := fun _ => True);
    [apply silent_device_uvector|intros p _].
  apply silent_bind with (Q := fun _ => True);
    [apply silent_for_each; intros; apply silent_dispatch_device|intros _ _].
  apply silent_bind with (Q := fun err => err = cudaSuccess);
    [apply silent_cudaSetDevice|intros _ _].
  apply silent_ret. exact I.
Qed.

End AllSucceed.

(** X10.  [compute_knn_GF] prints on the error stream only when a CUDA runtime
    call reports a failure: when every runtime call succeeds, the error
    stream is as it was. *)
Theorem no_failure_no_error_output
  (X1 X2 inds dists : ptr) (m n1 n2 : Z) (si1 si2 : ptr)
  (n_search_items k : Z) (metric : DistanceType E) (s : state) :
  (forall c, cuda_status (cuda E) c = cudaSuccess) ->
  cerr (snd (compute_knn_GF E X1 X2 inds dists m n1 n2 si1 si2
               n_search_items k metric s))
  = cerr s.
Proof.
  intros Hall.
  exact (proj1 (silent_compute_knn_GF Hall X1 X2 inds dists m n1 n2 si1 si2
                  n_search_items k metric s _ _ (surjective_pairing _))).
Qed.

(** ** The staging loop *)

Lemma stage_device_pushes X1 X2 m n1 n2 sentinel st i (s : state) st' s' :
  stage_device E X1 X2 m n1 n2 sentinel st i s = (Ok st', s') ->
  exists p1 p2,
    per_device_x1 st' = per_device_x1 st ++ [p1] /\
    per_device_x2 st' = per_device_x2 st ++ [p2] /\
    inputs1_vec st' = inputs1_vec st ++ [[p1]] /\
    inputs2_vec st' = inputs2_vec st ++ [[p2]] /\
    (i = sentinel -> p1 = X1 /\ p2 = X2).
Proof.
  unfold stage_device. destruct (i =? sentinel) eqn:Hi; cbn [negb].
  - intros H. inversion H; subst. exists X1, X2.
    cbn [per_device_x1 per_device_x2 inputs1_vec inputs2_vec].
    unfold push_back. do 4 (split; [reflexivity|]).
    intros _. split; reflexivity.
  - intros H.
    apply bind_ok_inv in H. destruct H as (_ & ? & _ & H).
    apply bind_ok_inv in H. destruct H as (r1 & ? & _ & H).
    apply bind_ok_inv in H. destruct H as (_ & ? & _ & H).
    apply bind_ok_inv in H. destruct H as (r2 & ? & _ & H).
    apply bind_ok_inv in H. destruct H as (_ & ? & _ & H).
    apply bind_ok_inv in H. destruct H as (_ & ? & _ & H).
    apply bind_ok_inv in H. destruct H as (_ & ? & _ & H).
    inversion H; subst. exists (snd r1), (snd r2).
    cbn [per_device_x1 per_device_x2 inputs1_vec inputs2_vec].
    unfold push_back. do 4 (split; [reflexivity|]).
    intros Heq. apply Z.eqb_neq in Hi. contradiction.
Qed.

Lemma nth_last_pushed {A} (l : list A) (x d : A) (a : nat) :
  List.length l = a -> nth a (l ++ [x]) d = x.
Proof. intros <-. apply nth_middle. Qed.

Lemma staged_for_push X1 X2 sentinel st st' a p1 p2 :
  staged_for X1 X2 sentinel st a ->
  per_device_x1 st' = per_device_x1 st ++ [p1] ->
  per_device_x2 st' = per_device_x2 st ++ [p2] ->
  inputs1_vec st' = inputs1_vec st ++ [[p1]] ->
  inputs2_vec st' = inputs2_vec st ++ [[p2]] ->
  (Z.of_nat a = sentinel -> p1 = X1 /\ p2 = X2) ->
  staged_for X1 X2 sentinel st' (S a).
Proof.
  intros (L1 & L2 & L3 & L4 & Hvec & Hhome) E1 E2 E3 E4 Hnew.
  unfold staged_for. rewrite E1, E2, E3, E4, !length_app, L1, L2, L3, L4.
  cbn [List.length].
  split; [lia|]. split; [lia|]. split; [lia|]. split; [lia|]. split.
  - intros h Hh. destruct (Nat.eq_dec h a) as [->|Hne].
    + rewrite (nth_last_pushed _ _ _ _ L1), (nth_last_pushed _ _ _ _ L2),
        (nth_last_pushed _ _ _ _ L3), (nth_last_pushed _ _ _ _ L4).
      split; reflexivity.
    + rewrite !app_nth1 by lia. apply Hvec. lia.
  - intros h Hh Hsent. destruct (Nat.eq_dec h a) as [->|Hne].
    + rewrite (nth_last_pushed _ _ _ _ L1), (nth_last_pushed _ _ _ _ L2).
      apply Hnew. exact Hsent.
    + rewrite !app_nth1 by lia. apply Hhome; [lia|exact Hsent].
Qed.

Lemma staging_from X1 X2 m n1 n2 sentinel (count : nat) :
  forall (a : nat) st (s : state) st' s',
    staged_for X1 X2 sentinel st a ->
    fold_M (stage_device E X1 X2 m n1 n2 sentinel)
      (map Z.of_nat (seq a count)) st s = (Ok st', s') ->
    staged_for X1 X2 sentinel st' (a + count).
Proof.
  induction count as [|count IH]; intros a st s st' s' Hst Hrun.
  - simpl in Hrun. inversion Hrun; subst. rewrite Nat.add_0_r. exact Hst.
  - simpl in Hrun. apply bind_ok_inv in Hrun.
    destruct Hrun as (st1 & s1 & Hstep & Hrest).
    apply stage_device_pushes in Hstep.
    destruct Hstep as (p1 & p2 & E1 & E2 & E3 & E4 & Hnew).
    replace (a + S count)%nat with (S a + count)%nat by lia.
    apply (IH (S a) st1 s1 st' s'); [|exact Hrest].
    apply (staged_for_push X1 X2 sentinel st st1 a p1 p2); assumption.
Qed.

(** X11.  The staging loop fills one entry per device in each of its four
    vectors, so that the dispatch loop indexes them within bounds; the
    input vector of a device holds that device's pointer, and the home
    device gets the caller's own pointers, without a copy. *)
Theorem staging_has_one_entry_per_device
  (X1 X2 : ptr) (m n1 n2 : Z) (sentinel_device num_devices : Z)
  (s : state) (st : staged) (s' : state) :
  fold_M (stage_device E X1 X2 m n1 n2 sentinel_device)
    (range num_devices) (mk_staged [] [] [] []) s = (Ok st, s') ->
  List.length (per_device_x1 st) = Z.to_nat num_devices /\
  List.length (per_device_x2 st) = Z.to_nat num_devices /\
  List.length (inputs1_vec st) = Z.to_nat num_devices /\
  List.length (inputs2_vec st) = Z.to_nat num_devices /\
  (forall i, 0 <= i < num_devices ->
     at_vec (inputs1_vec st) i = [at_ptr (per_device_x1 st) i] /\
     at_vec (inputs2_vec st) i = [at_ptr (per_device_x2 st) i]) /\
  (0 <= sentinel_device < num_devices ->
     at_ptr (per_device_x1 st) sentinel_device = X1 /\
     at_ptr (per_device_x2 st) sentinel_device = X2).
Proof.
  intros Hrun. unfold range in Hrun.
  assert (Hinit : staged_for X1 X2 sentinel_device (mk_staged [] [] [] [])
                    0).
  { unfold staged_for. cbn. repeat split; intros; lia. }
  pose proof (staging_from X1 X2 m n1 n2 sentinel_device
                (Z.to_nat num_devices) 0 _ s st s' Hinit Hrun)
    as (L1 & L2 & L3 & L4 & Hvec & Hhome).
  cbn [Nat.add] in *.
  do 4 (split; [assumption|]). split.
  - intros i Hi. unfold at_vec, at_ptr. apply Hvec. lia.
  - intros Hs. unfold at_ptr. apply Hhome; lia.
Qed.

(** ** No device *)

Lemma range_nil (d : Z) : d <= 0 -> range d = [].
Proof.
  intros Hd. unfold range. replace (Z.to_nat d) with 0%nat by lia.
  reflexivity.
Qed.

Lemma heaps_fixed_ret nb {A} (Q : A -> Prop) (a : A) :
  Q a -> heaps_fixed nb nb Q (@ret E A a).
Proof.
  intros HQ s r s' H Hnb. inversion H; subst.
  repeat split. intros a' Ha'. inversion Ha'; subst. exact HQ.
Qed.

Lemma heaps_fixed_bind nb nb1 nb2 {A B} (Q : A -> Prop) (R : B -> Prop)
  (c : M E A) (k : A -> M E B) :
  always_ok c ->
  heaps_fixed nb nb1 Q c -> (forall a, Q a -> heaps_fixed nb1 nb2 R (k a)) ->
  heaps_fixed nb nb2 R (bind c k).
Proof.
  intros Hok Hc Hk s r s' H Hnb.
  destruct (Hok s) as (a & s1 & H1).
  rewrite (bind_ok _ _ _ _ _ H1) in H.
  destruct (Hc _ _ _ H1 Hnb) as (Hf1 & Hi1 & Hl1 & Hnb1 & HQ).
  destruct (Hk a (HQ a eq_refl) _ _ _ H Hnb1) as (Hf2 & Hi2 & Hl2 & Hnb2 & HR).
  repeat split; try congruence. exact HR.
Qed.

(** A step that writes to no heap and allocates nothing. *)
Ltac heaps_step :=
  let s := fresh "s" in
  let r := fresh "r" in
  let s' := fresh "s'" in
  let H := fresh "H" in
  let Hnb := fresh "Hnb" in
  intros s r s' H Hnb;
  repeat match type of H with
         | context [if ?b then _ else _] => destruct b eqn:?
         end;
  inversion H; subst; clear H;
  (repeat split);
  let a := fresh "a" in
  let Ha := fresh "Ha" in
  intros a Ha; inversion Ha; subst; cbn [fst snd]; auto.

Lemma heaps_fixed_check nb err func file line :
  heaps_fixed nb nb (fun _ => True) (check E err func file line).
Proof. unfold check. heaps_step. Qed.

Lemma heaps_fixed_CHECK_ret nb err func line :
  heaps_fixed nb nb (fun _ => True)
    (CHECK_CUDA_ERROR E (ret err) func line).
Proof.
  unfold CHECK_CUDA_ERROR.
  apply heaps_fixed_bind with (nb1 := nb) (Q := fun _ => True).
  - apply always_ok_ret.
  - apply heaps_fixed_ret. exact I.
  - intros e _. apply heaps_fixed_check.
Qed.

Lemma heaps_fixed_cudaSetDevice nb c :
  heaps_fixed nb nb (fun _ => True) (cudaSetDevice E c).
Proof. unfold cudaSetDevice. heaps_step. Qed.

Lemma heaps_fixed_CHECK_cudaSetDevice nb c func line :
  heaps_fixed nb nb (fun _ => True)
    (CHECK_CUDA_ERROR E (cudaSetDevice E c) func line).
Proof.
  unfold CHECK_CUDA_ERROR.
  apply heaps_fixed_bind with (nb1 := nb) (Q := fun _ => True).
  - apply always_ok_cudaSetDevice.
  - apply heaps_fixed_cudaSetDevice.
  - intros e _. apply heaps_fixed_check.
Qed.

Lemma heaps_fixed_cudaGetDevice nb :
  heaps_fixed nb nb (fun r => snd r = sentinel_device_of E)
    (cudaGetDevice E 0).
Proof. unfold cudaGetDevice, sentinel_device_of. heaps_step. Qed.

Lemma heaps_fixed_cudaGetDeviceCount nb :
  heaps_fixed nb nb (fun r => snd r = num_devices_of E)
    (cudaGetDeviceCount E 0).
Proof. unfold cudaGetDeviceCount, num_devices_of. heaps_step. Qed.

Lemma heaps_fixed_device_uvector nb count :
  heaps_fixed nb (nb + 1) (fun p => p = mk_ptr nb 0)
    (device_uvector E count).
Proof.
  intros s r s' H Hnb. unfold device_uvector in H. inversion H; subst.
  repeat split. intros a Ha. inversion Ha; subst. reflexivity.
Qed.

Lemma heaps_fixed_search_without_device nb X1 X2 dists m n1 n2 nsi k metric :
  num_devices_of E <= 0 ->
  heaps_fixed nb (nb + 1) (fun p => p = mk_ptr nb 0)
    (compute_knn_GF_search E X1 X2 dists m n1 n2 nsi k metric).
Proof.
  intros Hd. unfold compute_knn_GF_search.
  apply heaps_fixed_bind with (nb1 := nb)
                              (Q := fun r => snd r = sentinel_device_of E);
    [apply always_ok_cudaGetDevice|apply heaps_fixed_cudaGetDevice|].
  intros r _.
  apply heaps_fixed_bind with (nb1 := nb) (Q := fun _ => True);
    [apply always_ok_CHECK_CUDA_ERROR, always_ok_ret
    |apply heaps_fixed_CHECK_ret|].
  intros _ _.
  apply heaps_fixed_bind with (nb1 := nb)
                              (Q := fun r => snd r = num_devices_of E);
    [apply always_ok_cudaGetDeviceCount|apply heaps_fixed_cudaGetDeviceCount|].
  intros r' Hr'. rewrite Hr', (range_nil _ Hd). cbn [fold_M for_each].
  apply heaps_fixed_bind with (nb1 := nb) (Q := fun _ => True);
    [apply always_ok_CHECK_CUDA_ERROR, always_ok_ret
    |apply heaps_fixed_CHECK_ret|].
  intros _ _.
  apply heaps_fixed_bind with (nb1 := nb) (Q := fun _ => True);
    [apply always_ok_ret|apply heaps_fixed_ret; exact I|].
  intros st _.
  apply heaps_fixed_bind with (nb1 := nb) (Q := fun _ => True);
    [apply always_ok_CHECK_CUDA_ERROR, always_ok_cudaSetDevice
    |apply heaps_fixed_CHECK_cudaSetDevice|].
  intros _ _.
  apply heaps_fixed_bind with (nb1 := nb + 1) (Q := fun p => p = mk_ptr nb 0);
    [apply always_ok_device_uvector|apply heaps_fixed_device_uvector|].
  intros p ->.
  apply heaps_fixed_bind with (nb1 := nb + 1) (Q := fun _ => True);
    [apply always_ok_ret|apply heaps_fixed_ret; exact I|].
  intros _ _.
  apply heaps_fixed_bind with (nb1 := nb + 1) (Q := fun _ => True);
    [apply always_ok_cudaSetDevice|apply heaps_fixed_cudaSetDevice|].
  intros _ _. apply heaps_fixed_ret. reflexivity.
Qed.

Lemma appends_bind_with (P : event -> Prop) {A B} (Q : A -> Prop)
  (c : M E A) (k : A -> M E B) :
  returns Q c -> appends P c -> (forall a, Q a -> appends P (k a)) ->
  appends P (bind c k).
Proof.
  intros Hret Hc Hk s r s' H. apply bind_inv in H.
  destruct H as [(a & s1 & H1 & H2)|(e & H1 & _)].
  - destruct (Hc _ _ _ H1) as (t1 & Ht1 & Hall1).
    destruct (Hk a (Hret _ _ _ H1) _ _ _ H2) as (t2 & Ht2 & Hall2).
    exists (t1 ++ t2). rewrite Ht2, Ht1, app_assoc.
    split; [reflexivity|]. apply Forall_app. split; assumption.
  - exact (Hc _ _ _ H1).
Qed.

Create HintDb dev_quiet.
#[local] Hint Resolve appends_ret appends_check appends_device_uvector
  appends_transform_idx appends_cudaGetDevice appends_cudaGetDeviceCount
  appends_cudaSetDevice : dev_quiet.
#[local] Hint Extern 1 (no_search _) => exact I : dev_quiet.

(** Walk through a sequence of binds none of whose steps is a search. *)
Ltac quiet_seq :=
  repeat first
    [ solve [auto with dev_quiet]
    | apply appends_bind; [|intro] ].

Lemma no_search_without_device X1 X2 inds dists m n1 n2 s1 s2 nsi k metric :
  num_devices_of E <= 0 ->
  appends no_search
    (compute_knn_GF E X1 X2 inds dists m n1 n2 s1 s2 nsi k metric).
Proof.
  intros Hd. unfold compute_knn_GF.
  apply appends_bind;
    [|intros p; unfold narrow_indices;
      apply appends_bind; [apply appends_emit; exact I|intro; quiet_seq]].
  unfold compute_knn_GF_search.
  do 2 (apply appends_bind; [unfold CHECK_CUDA_ERROR; quiet_seq|intro]).
  apply appends_bind_with with (Q := fun r => snd r = num_devices_of E);
    [apply returns_cudaGetDeviceCount|quiet_seq|].
  intros r' Hr'. rewrite Hr', (range_nil _ Hd). cbn [fold_M for_each].
  unfold CHECK_CUDA_ERROR. quiet_seq.
Qed.

(** X12.  When no device is discovered (the count query fails, or reports none),
    [compute_knn_GF] still returns normally, without having run any
    search: value memory, the distance buffer included, and 64-bit memory
    are untouched, and [inds[j]] receives the conversion of whatever the
    uninitialised 64-bit scratch buffer holds at [j]. *)
Theorem no_device_no_search
  (X1 X2 inds dists : ptr) (m n1 n2 : Z) (si1 si2 : ptr)
  (n_search_items k : Z) (metric : DistanceType E) (s : state) :
  num_devices_of E <= 0 ->
  let run :=
    compute_knn_GF E X1 X2 inds dists m n1 n2 si1 si2 n_search_items k
      metric s in
  fst run = Ok tt /\
  fmem (snd run) = fmem s /\
  lmem (snd run) = lmem s /\
  (forall j, 0 <= j < size_t_wrap (k * n_search_items) ->
     load (imem (snd run)) inds j
     = narrow E (load (lmem s) (mk_ptr (next_block s) 0) j)) /\
  (exists t, trace (snd run) = trace s ++ t /\ Forall no_search t).
Proof.
  intros Hd run. subst run.
  destruct (always_ok_compute_knn_GF_search E X1 X2 dists m n1 n2
              n_search_items k metric s) as (p & s_mid & Hsearch).
  destruct (heaps_fixed_search_without_device (next_block s) X1 X2 dists m
              n1 n2 n_search_items k metric Hd s _ _ Hsearch eq_refl)
    as (Hf & Hi & Hl & _ & Hp).
  specialize (Hp p eq_refl). subst p.
  split; [|split; [|split; [|split]]].
  - rewrite (always_ok_run E _ s
               (always_ok_compute_knn_GF E X1 X2 inds dists m n1 n2 si1 si2
                  n_search_items k metric)).
    reflexivity.
  - unfold compute_knn_GF. rewrite (bind_ok _ _ _ _ _ Hsearch).
    rewrite narrow_indices_run. exact Hf.
  - unfold compute_knn_GF. rewrite (bind_ok _ _ _ _ _ Hsearch).
    rewrite narrow_indices_run. exact Hl.
  - intros j Hj. unfold compute_knn_GF.
    rewrite (bind_ok _ _ _ _ _ Hsearch), narrow_indices_run.
    unfold set_imem; cbn [snd imem].
    rewrite load_store_range_in by exact Hj. rewrite Hl. reflexivity.
  - apply (no_search_without_device X1 X2 inds dists m n1 n2 si1 si2
             n_search_items k metric Hd s _ _ (surjective_pairing _)).
Qed.

Lemma run_eta {A} (c : M E A) (s : state) (a : A) :
  fst (c s) = Ok a -> c s = (Ok a, snd (c s)).
Proof. destruct (c s) as [r s']. cbn. intros ->. reflexivity. Qed.

(** ** One device *)

Lemma hoare_bind {A B} (P : state -> Prop) (Q : A -> state -> Prop)
  (R : B -> state -> Prop) (c : M E A) (k : A -> M E B) :
  hoare P c Q -> (forall a, hoare (Q a) (k a) R) -> hoare P (bind c k) R.
Proof.
  intros Hc Hk s HP. destruct (Hc s HP) as (a & s1 & H1 & HQ).
  destruct (Hk a s1 HQ) as (b & s2 & H2 & HR).
  exists b, s2. split; [|exact HR].
  rewrite (bind_ok _ _ _ _ _ H1). exact H2.
Qed.

Lemma hoare_pure (phi : Prop) (P : state -> Prop) {A} (c : M E A)
  (Q : A -> state -> Prop) :
  (phi -> hoare P c Q) -> hoare (fun s => phi /\ P s) c Q.
Proof. intros H s [Hphi HP]. exact (H Hphi s HP). Qed.

Lemma hoare_ret (P : state -> Prop) {A} (a : A) :
  hoare P (@ret E A a) (fun a' s' => a' = a /\ P s').
Proof. intros s HP. exists a, s. repeat split. exact HP. Qed.

Lemma hoare_fixed (s0 : state) nb nb' {A} (Q : A -> Prop) (c : M E A) :
  always_ok c -> heaps_fixed nb nb' Q c ->
  hoare (same_heaps s0 nb) c (fun a s' => Q a /\ same_heaps s0 nb' s').
Proof.
  intros Hok Hc s (Hf & Hi & Hl & Hnb).
  destruct (Hok s) as (a & s' & H). exists a, s'. split; [exact H|].
  destruct (Hc _ _ _ H Hnb) as (Hf' & Hi' & Hl' & Hnb' & HQ).
  split; [exact (HQ a eq_refl)|].
  unfold same_heaps. repeat split; congruence.
Qed.

Lemma ptr_add_0 (p : ptr) : ptr_add p 0 = p.
Proof. destruct p as [b o]. unfold ptr_add. cbn. f_equal. lia. Qed.

Lemma start_pos_idx_one (n : Z) : start_pos_idx n 1 0 = 0.
Proof. unfold start_pos_idx. rewrite Z.mul_0_r. reflexivity. Qed.

Lemma num_search_items_me_one (n : Z) :
  size_t_range n -> num_search_items_me n 1 0 = n.
Proof.
  intros Hn. unfold num_search_items_me.
  change (0 =? int_wrap (1 - 1)) with true. cbv iota.
  change (size_t_wrap 1) with 1.
  rewrite Z.div_1_r, Z.mod_1_r, Z.add_0_r. apply size_t_wrap_id, Hn.
Qed.

(** The dispatch loop's body on the only device, which is the home device:
    one search over all the rows, written straight into the outputs. *)
Lemma dispatch_on_one_device (s0 : state) nb (p X1 X2 dists : ptr)
  (m n1 n2 nsi k : Z) (metric : DistanceType E) :
  size_t_range nsi ->
  let r := brute_force_knn_GF E [view (fmem s0) X1] [view (fmem s0) X2]
             [int_wrap m] n1 n2 (view (fmem s0) X1) (view (fmem s0) X2)
             nsi k true true metric in
  hoare (same_heaps s0 nb)
    (dispatch_device E (mk_staged [X1] [X2] [[X1]] [[X2]]) [int_wrap m]
       dists p n1 n2 nsi k metric 1 0 0)
    (fun _ s' =>
       fmem s' = store_range (fmem s0) dists (nsi * k) (snd r) /\
       lmem s' = store_range (lmem s0) p (nsi * k) (fst r) /\
       imem s' = imem s0).
Proof.
  intros Hn r. unfold dispatch_device. cbv zeta.
  change (negb (0 =? 0)) with false. cbv iota.
  change (at_vec [[X1]] 0) with [X1]. change (at_vec [[X2]] 0) with [X2].
  change (at_ptr [X1] 0) with X1. change (at_ptr [X2] 0) with X2.
  rewrite (start_pos_idx_one nsi), (num_search_items_me_one nsi Hn).
  rewrite !Z.mul_0_r, Z.mul_0_l. change (size_t_wrap 0) with 0.
  rewrite !ptr_add_0.
  eapply hoare_bind.
  - apply hoare_fixed;
      [apply always_ok_CHECK_CUDA_ERROR, always_ok_cudaSetDevice
      |apply heaps_fixed_CHECK_cudaSetDevice].
  - intros ?. apply hoare_pure. intros _ s (Hf & Hi & Hl & _).
    eexists. eexists. split; [reflexivity|].
    unfold set_fmem, set_lmem, record. cbn [fmem lmem imem map].
    rewrite Hf, Hl, Hi. repeat split.
Qed.

Lemma search_on_one_device (s0 : state) (X1 X2 dists : ptr)
  (m n1 n2 nsi k : Z) (metric : DistanceType E) :
  sentinel_device_of E = 0 -> num_devices_of E = 1 -> size_t_range nsi ->
  let r := brute_force_knn_GF E [view (fmem s0) X1] [view (fmem s0) X2]
             [int_wrap m] n1 n2 (view (fmem s0) X1) (view (fmem s0) X2)
             nsi k true true metric in
  hoare (same_heaps s0 (next_block s0))
    (compute_knn_GF_search E X1 X2 dists m n1 n2 nsi k metric)
    (fun p s' =>
       p = mk_ptr (next_block s0) 0 /\
       fmem s' = store_range (fmem s0) dists (nsi * k) (snd r) /\
       lmem s' = store_range (lmem s0) p (nsi * k) (fst r) /\
       imem s' = imem s0).
Proof.
  intros Hhome Hcount Hn r. unfold compute_knn_GF_search. cbv zeta.
  eapply hoare_bind;
    [apply hoare_fixed;
       [apply always_ok_cudaGetDevice|apply heaps_fixed_cudaGetDevice]|].
  intros r0. apply hoare_pure. intros Hr0. rewrite Hr0, Hhome.
  eapply hoare_bind;
    [apply hoare_fixed;
       [apply always_ok_CHECK_CUDA_ERROR, always_ok_ret
       |apply heaps_fixed_CHECK_ret]|].
  intros ?. apply hoare_pure. intros _.
  eapply hoare_bind;
    [apply hoare_fixed;
       [apply always_ok_cudaGetDeviceCount
       |apply heaps_fixed_cudaGetDeviceCount]|].
  intros r1. apply hoare_pure. intros Hr1. rewrite Hr1, Hcount.
  change (range 1) with [0].
  eapply hoare_bind;
    [apply hoare_fixed;
       [apply always_ok_CHECK_CUDA_ERROR, always_ok_ret
       |apply heaps_fixed_CHECK_ret]|].
  intros ?. apply hoare_pure. intros _.
  eapply hoare_bind;
    [apply (hoare_ret _ (mk_staged [X1] [X2] [[X1]] [[X2]]))|].
  intros st. apply hoare_pure. intros ->.
  eapply hoare_bind;
    [apply hoare_fixed;
       [apply always_ok_CHECK_CUDA_ERROR, always_ok_cudaSetDevice
       |apply heaps_fixed_CHECK_cudaSetDevice]|].
  intros ?. apply hoare_pure. intros _.
  eapply hoare_bind;
    [apply hoare_fixed;
       [apply always_ok_device_uvector|apply heaps_fixed_device_uvector]|].
  intros p. apply hoare_pure. intros ->.
  cbn [for_each].
  eapply hoare_bind.
  - eapply hoare_bind; [apply (dispatch_on_one_device s0); exact Hn|].
    intros ?. apply hoare_ret.
  - intros ?. apply hoare_pure. intros _ s (Hf & Hl & Hi).
    eexists. eexists. split; [reflexivity|].
    unfold record. cbn [fmem lmem imem].
    repeat split; assumption.
Qed.

(** X13.  With a single device, which is then the home device, [compute_knn_GF]
    is one call of [brute_force_knn_GF] with the caller's two matrices as
    index and as queries, over all [n_search_items] rows: the distances go
    straight to [dists], and [inds] holds the narrowed indices.  No status
    of a [cudaSetDevice] call matters for this. *)
Theorem one_device_is_one_search
  (X1 X2 inds dists : ptr) (m n1 n2 : Z) (si1 si2 : ptr)
  (n_search_items k : Z) (metric : DistanceType E) (s : state) :
  sentinel_device_of E = 0 -> num_devices_of E = 1 ->
  size_t_range n_search_items -> size_t_range (k * n_search_items) ->
  let run :=
    compute_knn_GF E X1 X2 inds dists m n1 n2 si1 si2 n_search_items k
      metric s in
  let r := brute_force_knn_GF E [view (fmem s) X1] [view (fmem s) X2]
             [int_wrap m] n1 n2 (view (fmem s) X1) (view (fmem s) X2)
             n_search_items k true true metric in
  fst run = Ok tt /\
  fmem (snd run) = store_range (fmem s) dists (n_search_items * k) (snd r) /\
  (forall j, 0 <= j < n_search_items * k ->
     load (imem (snd run)) inds j = narrow E (fst r j)).
Proof.
  intros Hhome Hcount Hn Hkn run r. subst run.
  destruct (search_on_one_device s X1 X2 dists m n1 n2 n_search_items k
              metric Hhome Hcount Hn s)
    as (p & s_mid & Hsearch & Hp & Hf & Hl & Hi).
  { repeat split. }
  subst p. unfold compute_knn_GF.
  rewrite (bind_ok _ _ _ _ _ Hsearch), narrow_indices_run.
  unfold set_imem, record. cbn [fst snd fmem imem].
  split; [reflexivity|]. split; [exact Hf|].
  intros j Hj. rewrite (size_t_wrap_id _ Hkn).
  rewrite load_store_range_in by lia.
  rewrite Hl. fold r. rewrite load_store_range_in by exact Hj. reflexivity.
Qed.

End MoreFacts.

(** * What the multi-device search leaves in the merged buffers *)

(** ** Arrays that a write elsewhere leaves alone *)

Lemma view_store_range_other {T} (h : heap T) (q : ptr) (len : Z)
  (src : Z -> T) (p : ptr) :
  blk p <> blk q -> view (store_range h q len src) p = view h p.
Proof.
  intros Hne. unfold view, load, store_range, in_range.
  replace (blk p =? blk q) with false
    by (symmetry; apply Z.eqb_neq; exact Hne).
  reflexivity.
Qed.

Lemma same_views_refl {T} (B : Z -> Prop) (h : heap T) : same_views B h h.
Proof. intros p _. reflexivity. Qed.

Lemma same_views_trans {T} (B : Z -> Prop) (h1 h2 h3 : heap T) :
  same_views B h1 h2 -> same_views B h2 h3 -> same_views B h1 h3.
Proof.
  intros H12 H23 p Hp. rewrite (H23 p Hp). apply H12. exact Hp.
Qed.

Lemma same_views_store {T} (B : Z -> Prop) (h : heap T) (q : ptr)
  (len : Z) (src : Z -> T) :
  ~ B (blk q) -> same_views B h (store_range h q len src).
Proof.
  intros Hq p Hp. apply view_store_range_other.
  intros Heq. apply Hq. rewrite <- Heq. exact Hp.
Qed.

Lemma same_views_weaken {T} (B B' : Z -> Prop) (h h' : heap T) :
  (forall b, B' b -> B b) -> same_views B h h' -> same_views B' h h'.
Proof. intros Himp H p Hp. apply H, Himp, Hp. Qed.

Lemma load_store_range_at {T} (h : heap T) (q : ptr) (o len : Z)
  (src : Z -> T) (j : Z) :
  0 <= j < len ->
  load (store_range h (ptr_add q o) len src) q (o + j) = src j.
Proof.
  intros Hj. unfold load, store_range, ptr_add. cbn [blk off].
  replace (in_range {| blk := blk q; off := off q + o |} len (blk q)
             (off q + (o + j))) with true.
  - f_equal. lia.
  - symmetry. apply in_range_spec. cbn [blk off]. lia.
Qed.

Lemma load_store_range_before {T} (h : heap T) (q : ptr) (o len : Z)
  (src : Z -> T) (c : Z) :
  c < o -> load (store_range h (ptr_add q o) len src) q c = load h q c.
Proof.
  intros Hc. unfold load. apply store_range_out.
  unfold ptr_add. cbn [blk off]. lia.
Qed.

Lemma load_store_range_other {T} (h : heap T) (q p : ptr) (len : Z)
  (src : Z -> T) (c : Z) :
  blk p <> blk q -> load (store_range h q len src) p c = load h p c.
Proof. intros Hne. unfold load. apply store_range_other_block. exact Hne. Qed.

Lemma chunk_within (n d i : Z) :
  size_t_range n -> 1 <= d -> int_range d -> 0 <= i < d ->
  0 <= start_pos_idx n d i /\ 0 <= num_search_items_me n d i /\
  start_pos_idx n d i + num_search_items_me n d i <= n.
Proof.
  intros Hn Hd Hdr Hi.
  rewrite start_pos_idx_eq, num_search_items_me_eq by assumption.
  destruct (chunk_facts n d Hn Hd Hdr) as (_ & _ & Hq & Hr & Hdiv).
  destruct (i =? d - 1) eqn:Hlast.
  - apply Z.eqb_eq in Hlast. subst i. nia.
  - apply Z.eqb_neq in Hlast. nia.
Qed.

Lemma memcpy_len_exact (count sz : Z) :
  0 < sz -> size_t_range (count * sz) ->
  size_t_wrap (count * sz) / sz = count.
Proof.
  intros Hsz Hr. rewrite size_t_wrap_id by exact Hr.
  apply Z.div_mul. lia.
Qed.

Lemma chunk_bytes_in_range (n k sz cnt : Z) :
  size_t_range (n * k * sz) -> 0 <= k -> 0 < sz -> 0 <= cnt <= n ->
  size_t_range (cnt * k * sz).
Proof.
  unfold size_t_range, in_unsigned. intros Hr Hk Hsz Hc.
  assert (0 <= cnt * k * sz) by (apply Z.mul_nonneg_nonneg; nia).
  assert (cnt * k * sz <= n * k * sz).
  { apply Z.mul_le_mono_nonneg_r; [lia|].
    apply Z.mul_le_mono_nonneg_r; lia. }
  lia.
Qed.

Section GFSearch.

Variable E : Externals.

Local Abbreviation state := (device_state E).

(** ** Exact effect of the device primitives on the heaps *)

Lemma exact_fixed F I L N nb' {A} (Q : A -> Prop) (c : M E A) :
  always_ok c -> heaps_fixed N nb' Q c ->
  hoare (heaps_are F I L N) c (fun a s' => Q a /\ heaps_are F I L nb' s').
Proof.
  intros Hok Hc s (Hf & Hi & Hl & Hnb).
  destruct (Hok s) as (a & s' & H). exists a, s'. split; [exact H|].
  destruct (Hc _ _ _ H Hnb) as (Hf' & Hi' & Hl' & Hnb' & HQ).
  split; [exact (HQ a eq_refl)|].
  unfold heaps_are. repeat split; congruence.
Qed.

Lemma exact_CHECK (P : state -> Prop) F I L N (val : M E cudaError_t)
  func line :
  hoare P val (fun _ s' => heaps_are F I L N s') ->
  hoare P (CHECK_CUDA_ERROR E val func line)
    (fun _ s' => heaps_are F I L N s').
Proof.
  intros Hval. unfold CHECK_CUDA_ERROR.
  eapply hoare_bind; [exact Hval|]. intros err.
  intros s Hs. unfold check.
  destruct (negb (err =? cudaSuccess)); eexists; eexists;
    (split; [reflexivity|]); exact Hs.
Qed.

Lemma exact_quiet_CHECK F I L N (val : M E cudaError_t) func line :
  always_ok val -> heaps_fixed N N (fun _ => True) val ->
  hoare (heaps_are F I L N) (CHECK_CUDA_ERROR E val func line)
    (fun _ s' => heaps_are F I L N s').
Proof.
  intros Hok Hfix. apply exact_CHECK.
  intros s Hs. destruct (exact_fixed F I L N N _ val Hok Hfix s Hs)
    as (a & s' & H & _ & Hs').
  exists a, s'. split; assumption.
Qed.

Lemma heaps_fixed_cudaFree nb c p :
  heaps_fixed nb nb (fun _ => True) (cudaFree E c p).
Proof.
  intros s r s' H Hnb. unfold cudaFree in H. inversion H; subst.
  repeat split.
Qed.

Lemma exact_cudaMalloc F I L N c p bytes :
  hoare (heaps_are F I L N) (cudaMalloc E c p bytes)
    (fun r s' =>
       snd r = (if cuda_status (cuda E) c =? cudaSuccess
                then mk_ptr N 0 else p) /\
       heaps_are F I L
         (if cuda_status (cuda E) c =? cudaSuccess then N + 1 else N) s').
Proof.
  intros s (Hf & Hi & Hl & Hnb). unfold cudaMalloc.
  destruct (cuda_status (cuda E) c =? cudaSuccess);
    eexists; eexists; (split; [reflexivity|]);
    unfold heaps_are, set_next_block, record;
    cbn [fst snd fmem imem lmem next_block]; subst; repeat split.
Qed.

Lemma exact_cudaMemcpy_value F I L N c dst src bytes :
  hoare (heaps_are F I L N) (cudaMemcpy_value E c dst src bytes)
    (fun _ s' =>
       heaps_are
         (if cuda_status (cuda E) c =? cudaSuccess
          then store_range F dst (bytes / sizeof_value_t E) (view F src)
          else F) I L N s').
Proof.
  intros s (Hf & Hi & Hl & Hnb). unfold cudaMemcpy_value.
  destruct (cuda_status (cuda E) c =? cudaSuccess);
    eexists; eexists; (split; [reflexivity|]);
    unfold heaps_are, set_fmem, record;
    cbn [fst snd fmem imem lmem next_block]; subst; repeat split.
Qed.

Lemma exact_cudaMemcpy_int64 F I L N c dst src bytes :
  hoare (heaps_are F I L N) (cudaMemcpy_int64 E c dst src bytes)
    (fun _ s' =>
       heaps_are F I
         (if cuda_status (cuda E) c =? cudaSuccess
          then store_range L dst (bytes / sizeof_int64_t) (view L src)
          else L) N s').
Proof.
  intros s (Hf & Hi & Hl & Hnb). unfold cudaMemcpy_int64.
  destruct (cuda_status (cuda E) c =? cudaSuccess);
    eexists; eexists; (split; [reflexivity|]);
    unfold heaps_are, set_lmem, record;
    cbn [fst snd fmem imem lmem next_block]; subst; repeat split.
Qed.

Lemma exact_call_brute_force_knn_GF F I L N i in1 in2 sizes D1 D2 s1 s2 n
  rI rD k x y metric :
  let r := brute_force_knn_GF E (map (view F) in1) (map (view F) in2) sizes
             D1 D2 (view F s1) (view F s2) n k x y metric in
  hoare (heaps_are F I L N)
    (call_brute_force_knn_GF E i in1 in2 sizes D1 D2 s1 s2 n rI rD k x y
       metric)
    (fun _ s' =>
       heaps_are (store_range F rD (n * k) (snd r)) I
         (store_range L rI (n * k) (fst r)) N s').
Proof.
  intros r s (Hf & Hi & Hl & Hnb). unfold call_brute_force_knn_GF.
  eexists; eexists; (split; [reflexivity|]).
  unfold heaps_are, set_fmem, set_lmem, record.
  cbn [fst snd fmem imem lmem next_block]. subst. repeat split.
Qed.

Lemma hoare_post (P : state -> Prop) {A} (c : M E A)
  (Q Q' : A -> state -> Prop) :
  hoare P c Q -> (forall a s, Q a s -> Q' a s) -> hoare P c Q'.
Proof.
  intros Hc Himp s HP. destruct (Hc s HP) as (a & s' & H & HQ).
  exists a, s'. split; [exact H|]. apply Himp, HQ.
Qed.

(** ** The staging loop *)

(** One iteration of the staging loop on a device other than the home
    device, whatever the runtime answers. *)
Lemma stage_device_exact (X1 X2 : ptr) (m n1 n2 h : Z) (st : staged)
  (i : Z) F I L N :
  i <> h ->
  let ok c := cuda_status (cuda E) c =? cudaSuccess in
  let p1 := if ok (call_stage_Malloc_x1 i) then mk_ptr N 0 else NULL in
  let N1 := if ok (call_stage_Malloc_x1 i) then N + 1 else N in
  let p2 := if ok (call_stage_Malloc_x2 i) then mk_ptr N1 0 else NULL in
  let N2 := if ok (call_stage_Malloc_x2 i) then N1 + 1 else N1 in
  let F1 :=
    if ok (call_stage_Memcpy_x1 i)
    then store_range F p1
           (size_t_wrap (m * n1 * sizeof_value_t E) / sizeof_value_t E)
           (view F X1)
    else F in
  let F2 :=
    if ok (call_stage_Memcpy_x2 i)
    then store_range F1 p2
           (size_t_wrap (m * n2 * sizeof_value_t E) / sizeof_value_t E)
           (view F1 X2)
    else F1 in
  hoare (heaps_are F I L N) (stage_device E X1 X2 m n1 n2 h st i)
    (fun st' s' =>
       st' = mk_staged (per_device_x1 st ++ [p1]) (per_device_x2 st ++ [p2])
               (inputs1_vec st ++ [[p1]]) (inputs2_vec st ++ [[p2]]) /\
       heaps_are F2 I L N2 s').
Proof.
  intros Hih ok p1 N1 p2 N2 F1 F2. unfold stage_device.
  replace (i =? h) with false by (symmetry; apply Z.eqb_neq; exact Hih).
  cbn [negb]. cbv zeta.
  eapply hoare_bind.
  { apply exact_quiet_CHECK;
      [apply always_ok_cudaSetDevice|apply heaps_fixed_cudaSetDevice]. }
  intros ?.
  eapply hoare_bind; [apply exact_cudaMalloc|].
  intros r1. apply hoare_pure. intros Hr1. rewrite Hr1.
  fold (ok (call_stage_Malloc_x1 i)). fold p1 N1.
  eapply hoare_bind.
  { apply exact_quiet_CHECK; [apply always_ok_ret|].
    apply heaps_fixed_ret. constructor. }
  intros ?.
  eapply hoare_bind; [apply exact_cudaMalloc|].
  intros r2. apply hoare_pure. intros Hr2. rewrite Hr2.
  fold (ok (call_stage_Malloc_x2 i)). fold p2 N2.
  eapply hoare_bind.
  { apply exact_quiet_CHECK; [apply always_ok_ret|].
    apply heaps_fixed_ret. constructor. }
  intros ?.
  eapply hoare_bind; [apply exact_CHECK, exact_cudaMemcpy_value|].
  intros ?. fold (ok (call_stage_Memcpy_x1 i)). fold F1.
  eapply hoare_bind; [apply exact_CHECK, exact_cudaMemcpy_value|].
  intros ?. fold (ok (call_stage_Memcpy_x2 i)). fold F2.
  intros s Hs. eexists. eexists. split; [reflexivity|].
  split; [reflexivity|exact Hs].
Qed.

Lemma hoare_ex {X A} (P : X -> state -> Prop) (c : M E A)
  (Q : A -> state -> Prop) :
  (forall x, hoare (P x) c Q) -> hoare (fun s => exists x, P x s) c Q.
Proof. intros H s (x & HP). exact (H x s HP). Qed.

Lemma hoare_pure_r (phi : Prop) (P : state -> Prop) {A} (c : M E A)
  (Q : A -> state -> Prop) :
  (phi -> hoare P c Q) -> hoare (fun s => P s /\ phi) c Q.
Proof. intros H s [HP Hphi]. exact (H Hphi s HP). Qed.

(** ** The staging loop *)

Ltac views_frame :=
  repeat match goal with
         | |- same_views _ ?h ?h => apply same_views_refl
         | |- same_views ?B ?h (store_range ?h' ?q ?len ?src) =>
             apply (same_views_trans B h h' _);
             [|apply same_views_store; cbn [blk]; lia]
         end.

(** One iteration of the staging loop: it pushes one pointer on each
    vector, allocates at most two blocks, and writes to fresh blocks only
    (or through the null pointer, when an allocation failed).  After a
    successful allocation and copy the new block holds the caller's
    array. *)
Lemma stage_device_effect (X1 X2 : ptr) (m n1 n2 h : Z) (st : staged)
  (i : Z) F I L N :
  0 < blk X1 < N -> 0 < blk X2 < N ->
  hoare (heaps_are F I L N) (stage_device E X1 X2 m n1 n2 h st i)
    (fun st' s' =>
       exists p1 p2 F' N',
         st' = mk_staged (per_device_x1 st ++ [p1])
                 (per_device_x2 st ++ [p2])
                 (inputs1_vec st ++ [[p1]]) (inputs2_vec st ++ [[p2]]) /\
         heaps_are F' I L N' s' /\
         N <= N' /\
         same_views (fun b => 0 < b < N) F F' /\
         blk p1 < N' /\ blk p2 < N' /\
         (blk p1 = blk X1 \/ blk p1 = 0 \/ N <= blk p1) /\
         (blk p2 = blk X2 \/ blk p2 = 0 \/ N <= blk p2) /\
         (i = h -> p1 = X1 /\ p2 = X2) /\
         (i <> h ->
          cuda_status (cuda E) (call_stage_Malloc_x1 i) = cudaSuccess ->
          cuda_status (cuda E) (call_stage_Memcpy_x1 i) = cudaSuccess ->
          N <= blk p1 /\
          forall o,
            0 <= o
            < size_t_wrap (m * n1 * sizeof_value_t E) / sizeof_value_t E ->
            load F' p1 o = load F X1 o) /\
         (i <> h ->
          cuda_status (cuda E) (call_stage_Malloc_x2 i) = cudaSuccess ->
          cuda_status (cuda E) (call_stage_Memcpy_x2 i) = cudaSuccess ->
          N <= blk p2 /\
          forall o,
            0 <= o
            < size_t_wrap (m * n2 * sizeof_value_t E) / sizeof_value_t E ->
            load F' p2 o = load F X2 o)).
Proof.
  intros HX1 HX2. destruct (Z.eq_dec i h) as [Hih|Hih].
  - unfold stage_device.
    replace (i =? h) with true by (symmetry; apply Z.eqb_eq; exact Hih).
    cbn [negb]. intros s Hs. eexists. eexists. split; [reflexivity|].
    exists X1, X2, F, N. unfold push_back.
    split; [reflexivity|]. split; [exact Hs|]. split; [lia|].
    split; [apply same_views_refl|].
    split; [lia|]. split; [lia|]. split; [left; reflexivity|].
    split; [left; reflexivity|].
    split; [intros _; split; reflexivity|].
    split; intros Hne; contradiction.
  - eapply hoare_post; [apply stage_device_exact; exact Hih|].
    cbv zeta. intros st' s' (Hst & Hs). rewrite Hst. clear Hst.
    eexists. eexists. eexists. eexists. split; [reflexivity|].
    split; [exact Hs|]. clear Hs.
    destruct (cuda_status (cuda E) (call_stage_Malloc_x1 i) =? cudaSuccess)
      eqn:Hm1;
      destruct (cuda_status (cuda E) (call_stage_Malloc_x2 i) =? cudaSuccess)
        eqn:Hm2;
      destruct (cuda_status (cuda E) (call_stage_Memcpy_x1 i) =? cudaSuccess)
        eqn:Hc1;
      destruct (cuda_status (cuda E) (call_stage_Memcpy_x2 i) =? cudaSuccess)
        eqn:Hc2;
      unfold NULL; cbn [blk];
      (split; [lia|]); (split; [views_frame|]);
      (split; [lia|]); (split; [lia|]);
      (split; [lia|]); (split; [lia|]);
      (split; [intros Heq; contradiction|]);
      (split; intros _ Hok1 Hok2;
       try (rewrite Hok1, Z.eqb_refl in *; discriminate);
       try (rewrite Hok2, Z.eqb_refl in *; discriminate);
       (split; [lia|]); intros o Ho;
       repeat first
         [ rewrite load_store_range_in by exact Ho
         | rewrite load_store_range_other by (cbn [blk]; lia) ];
       reflexivity).
Qed.

Lemma nth_pushed {A} (l : list A) (x d : A) (a i : nat) :
  List.length l = a ->
  nth i (l ++ [x]) d
  = if (i <? a)%nat then nth i l d else if (i =? a)%nat then x else d.
Proof.
  intros Hlen. destruct (i <? a)%nat eqn:Hlt.
  - apply Nat.ltb_lt in Hlt. apply app_nth1. lia.
  - apply Nat.ltb_ge in Hlt. destruct (i =? a)%nat eqn:Heq.
    + apply Nat.eqb_eq in Heq. subst i. apply nth_last_pushed. exact Hlen.
    + apply Nat.eqb_neq in Heq. apply nth_overflow.
      rewrite length_app. cbn [List.length]. lia.
Qed.

Lemma staging_step (X1 X2 : ptr) (m n1 n2 h : Z) F0 N0 bd I L (a : nat)
  (st : staged) F N :
  0 < blk X1 < N0 -> 0 < blk X2 < N0 -> 0 < bd < N0 ->
  blk X1 <> bd -> blk X2 <> bd ->
  staging_inv E X1 X2 m n1 n2 h F0 N0 bd a st F N ->
  hoare (heaps_are F I L N)
    (stage_device E X1 X2 m n1 n2 h st (Z.of_nat a))
    (fun st' s' =>
       exists F' N',
         heaps_are F' I L N' s' /\
         staging_inv E X1 X2 m n1 n2 h F0 N0 bd (S a) st' F' N').
Proof.
  intros HX1 HX2 Hbd Hd1 Hd2 (Hsf & HN0 & Hv0 & Hblk & Hcont).
  eapply hoare_post; [apply stage_device_effect; lia|].
  intros st' s'
    (p1 & p2 & F' & N' & Hst & Hs & HN & Hviews & Hb1 & Hb2 & Ho1 & Ho2
     & Hhome & Hc1 & Hc2).
  exists F', N'. split; [exact Hs|]. subst st'.
  pose proof Hsf as (L1 & L2 & _).
  assert (Hkeep : forall p o, N0 <= blk p < N -> load F' p o = load F p o).
  { intros p o Hp. change (view F' p o = view F p o).
    rewrite (Hviews p) by lia. reflexivity. }
  assert (Hold : forall p o, 0 < blk p < N0 -> load F p o = load F0 p o).
  { intros p o Hp. change (view F p o = view F0 p o).
    rewrite (Hv0 p) by lia. reflexivity. }
  unfold staging_inv. cbn [per_device_x1 per_device_x2].
  split; [|split; [|split; [|split]]].
  - apply (staged_for_push X1 X2 h st _ a p1 p2 Hsf); try reflexivity.
    exact Hhome.
  - lia.
  - apply (same_views_trans _ F0 F F'); [exact Hv0|].
    apply (same_views_weaken (fun b => 0 < b < N)); [|exact Hviews].
    intros b Hb. lia.
  - intros i. rewrite (nth_pushed _ p1 NULL a i L1),
      (nth_pushed _ p2 NULL a i L2).
    destruct (Hblk i) as ((Hi1 & Hi1') & (Hi2 & Hi2')).
    destruct (i <? a)%nat; [split; split; (lia || assumption)|].
    destruct (i =? a)%nat; [|unfold NULL; cbn [blk]; lia].
    split; split; lia.
  - intros i Hi Hne.
    rewrite (nth_pushed _ p1 NULL a i L1), (nth_pushed _ p2 NULL a i L2).
    destruct (i <? a)%nat eqn:Hlt.
    + apply Nat.ltb_lt in Hlt. destruct (Hcont i Hlt Hne) as (Hx1 & Hx2).
      destruct (Hblk i) as ((Hi1 & _) & (Hi2 & _)).
      split; intros Hm Hc.
      * destruct (Hx1 Hm Hc) as (Hlo & Hld). split; [exact Hlo|].
        intros o Ho. rewrite Hkeep by lia. apply Hld, Ho.
      * destruct (Hx2 Hm Hc) as (Hlo & Hld). split; [exact Hlo|].
        intros o Ho. rewrite Hkeep by lia. apply Hld, Ho.
    + apply Nat.ltb_ge in Hlt. assert (i = a) by lia. subst i.
      rewrite Nat.eqb_refl.
      split; intros Hm Hc.
      * destruct (Hc1 Hne Hm Hc) as (Hlo & Hld). split; [lia|].
        intros o Ho. rewrite Hld by exact Ho. apply Hold. lia.
      * destruct (Hc2 Hne Hm Hc) as (Hlo & Hld). split; [lia|].
        intros o Ho. rewrite Hld by exact Ho. apply Hold. lia.
Qed.

Lemma staging_loop (X1 X2 : ptr) (m n1 n2 h : Z) F0 N0 bd I L
  (count : nat) :
  0 < blk X1 < N0 -> 0 < blk X2 < N0 -> 0 < bd < N0 ->
  blk X1 <> bd -> blk X2 <> bd ->
  forall (a : nat) (st : staged) F N,
    staging_inv E X1 X2 m n1 n2 h F0 N0 bd a st F N ->
    hoare (heaps_are F I L N)
      (fold_M (stage_device E X1 X2 m n1 n2 h)
         (map Z.of_nat (seq a count)) st)
      (fun st' s' =>
         exists F' N',
           heaps_are F' I L N' s' /\
           staging_inv E X1 X2 m n1 n2 h F0 N0 bd (a + count) st' F' N').
Proof.
  intros HX1 HX2 Hbd Hd1 Hd2.
  induction count as [|count IH]; intros a st F N Hinv.
  - cbn [seq map fold_M]. intros s Hs. exists st, s.
    split; [reflexivity|]. exists F, N. rewrite Nat.add_0_r.
    split; assumption.
  - cbn [seq map fold_M].
    eapply hoare_bind;
      [apply (staging_step X1 X2 m n1 n2 h F0 N0 bd I L a st F N);
       assumption|].
    intros st1 s (F1 & N1 & Hs & Hinv1).
    replace (a + S count)%nat with (S a + count)%nat by lia.
    exact (IH (S a) st1 F1 N1 Hinv1 s Hs).
Qed.

(** ** The dispatch loop *)

(** One iteration of the dispatch loop, whatever the runtime answers:
    the home device writes the result of its search into its slice of the
    merged buffers; another device writes it to two fresh blocks, which
    the two gather copies carry over when they succeed. *)
Lemma dispatch_device_exact (st : staged) (dists p : ptr)
  (m n1 n2 nsi k : Z) (metric : DistanceType E) (D h i : Z) F I L N :
  at_vec (inputs1_vec st) i = [at_ptr (per_device_x1 st) i] ->
  at_vec (inputs2_vec st) i = [at_ptr (per_device_x2 st) i] ->
  let r :=
    device_search F (at_ptr (per_device_x1 st) i)
      (at_ptr (per_device_x2 st) i) m n1 n2 nsi k metric D i in
  let cnt := num_search_items_me nsi D i in
  let slice q := ptr_add q (size_t_wrap (start_pos_idx nsi D i * k)) in
  let F1 := store_range F (mk_ptr (N + 1) 0) (cnt * k) (snd r) in
  let L1 := store_range L (mk_ptr N 0) (cnt * k) (fst r) in
  hoare (heaps_are F I L N)
    (dispatch_device E st [int_wrap m] dists p n1 n2 nsi k metric D h i)
    (fun _ s' =>
       if i =? h
       then heaps_are (store_range F (slice dists) (cnt * k) (snd r)) I
              (store_range L (slice p) (cnt * k) (fst r)) N s'
       else heaps_are
              (if cuda_status (cuda E) (call_gather_Memcpy_dists i)
                  =? cudaSuccess
               then store_range F1 (slice dists)
                      (size_t_wrap (cnt * k * sizeof_value_t E)
                       / sizeof_value_t E)
                      (view F1 (mk_ptr (N + 1) 0))
               else F1) I
              (if cuda_status (cuda E) (call_gather_Memcpy_inds i)
                  =? cudaSuccess
               then store_range L1 (slice p)
                      (size_t_wrap (cnt * k * sizeof_int64_t)
                       / sizeof_int64_t)
                      (view L1 (mk_ptr N 0))
               else L1) (N + 1 + 1) s').
Proof.
  intros Hv1 Hv2 r cnt slice F1 L1. unfold dispatch_device. cbv zeta.
  rewrite Hv1, Hv2.
  eapply hoare_bind.
  { apply exact_quiet_CHECK;
      [apply always_ok_cudaSetDevice|apply heaps_fixed_cudaSetDevice]. }
  intros ?. destruct (i =? h); cbn [negb].
  - eapply hoare_post; [apply exact_call_brute_force_knn_GF|].
    cbv zeta. intros ? s' Hs. exact Hs.
  - eapply hoare_bind.
    { apply exact_fixed;
        [apply always_ok_device_uvector|apply heaps_fixed_device_uvector]. }
    intros p1. apply hoare_pure. intros ->.
    eapply hoare_bind.
    { apply exact_fixed;
        [apply always_ok_device_uvector|apply heaps_fixed_device_uvector]. }
    intros p2. apply hoare_pure. intros ->.
    eapply hoare_bind; [apply exact_call_brute_force_knn_GF|].
    intros ?. cbv zeta. cbn [map].
    fold (device_search F (at_ptr (per_device_x1 st) i)
            (at_ptr (per_device_x2 st) i) m n1 n2 nsi k metric D i).
    fold r. fold cnt. fold F1 L1.
    eapply hoare_bind; [apply exact_CHECK, exact_cudaMemcpy_value|].
    intros ?.
    eapply hoare_bind; [apply exact_CHECK, exact_cudaMemcpy_int64|].
    intros ?.
    eapply hoare_bind.
    { apply exact_quiet_CHECK;
        [apply always_ok_cudaFree|apply heaps_fixed_cudaFree]. }
    intros ?.
    apply exact_quiet_CHECK;
      [apply always_ok_cudaFree|apply heaps_fixed_cudaFree].
Qed.

Section MergedBuffers.

Variables (st : staged) (dists p : ptr) (m n1 n2 nsi k : Z).
Variables (metric : DistanceType E) (D h : Z).
Variables (Fd : heap (value_t E)) (Nd : Z) (I : heap Z).

Hypothesis Hn : size_t_range nsi.
Hypothesis Hd : 1 <= D.
Hypothesis Hdr : int_range D.
Hypothesis Hk : 0 <= k.
Hypothesis Hnk : size_t_range (nsi * k).
Hypothesis Hsz : 0 < sizeof_value_t E.
Hypothesis Hbytes : size_t_range (nsi * k * sizeof_value_t E).
Hypothesis Hbytes64 : size_t_range (nsi * k * sizeof_int64_t).
Hypothesis Hgather :
  forall i, 0 <= i < D -> i <> h ->
    cuda_status (cuda E) (call_gather_Memcpy_dists i) = cudaSuccess /\
    cuda_status (cuda E) (call_gather_Memcpy_inds i) = cudaSuccess.
Hypothesis Hdists : blk dists < Nd.
Hypothesis Hp : blk p < Nd.
Hypothesis Hst :
  forall i, 0 <= i < D ->
    at_vec (inputs1_vec st) i = [at_ptr (per_device_x1 st) i] /\
    at_vec (inputs2_vec st) i = [at_ptr (per_device_x2 st) i] /\
    (blk (at_ptr (per_device_x1 st) i) < Nd /\
     blk (at_ptr (per_device_x1 st) i) <> blk dists) /\
    (blk (at_ptr (per_device_x2 st) i) < Nd /\
     blk (at_ptr (per_device_x2 st) i) <> blk dists).

Local Abbreviation inv :=
  (dispatch_inv E st dists p m n1 n2 nsi k metric D Fd Nd).

Lemma dispatch_step (a : Z) F L N :
  0 <= a < D -> inv a F L N ->
  hoare (heaps_are F I L N)
    (dispatch_device E st [int_wrap m] dists p n1 n2 nsi k metric D h a)
    (fun _ s' =>
       exists F' L' N', heaps_are F' I L' N' s' /\ inv (a + 1) F' L' N').
Proof.
  intros Ha (HN & Hv & Hch).
  destruct (Hst a Ha) as (Hv1 & Hv2 & Hb1 & Hb2).
  eapply hoare_post;
    [apply (dispatch_device_exact st dists p m n1 n2 nsi k metric D h a
              F I L N Hv1 Hv2)|].
  cbv zeta. intros ? s' Hs.
  assert (Hr : device_search F (at_ptr (per_device_x1 st) a)
                 (at_ptr (per_device_x2 st) a) m n1 n2 nsi k metric D a
               = device_search Fd (at_ptr (per_device_x1 st) a)
                   (at_ptr (per_device_x2 st) a) m n1 n2 nsi k metric D a).
  { unfold device_search.
    rewrite (Hv (at_ptr (per_device_x1 st) a) Hb1),
      (Hv (at_ptr (per_device_x2 st) a) Hb2),
      (Hv (ptr_add (at_ptr (per_device_x1 st) a) _) Hb1),
      (Hv (ptr_add (at_ptr (per_device_x2 st) a) _) Hb2).
    reflexivity. }
  rewrite Hr in Hs. clear Hr.
  set (r := device_search Fd (at_ptr (per_device_x1 st) a)
              (at_ptr (per_device_x2 st) a) m n1 n2 nsi k metric D a) in *.
  pose proof (chunk_within nsi D a Hn Hd Hdr Ha) as (Hs0 & Hc0 & Hend).
  pose proof (chunk_offset_exact nsi D k a Hn Hd Hdr Hk Hnk Ha) as Hoff.
  rewrite Hoff in Hs.
  set (cnt := num_search_items_me nsi D a) in *.
  set (start := start_pos_idx nsi D a) in *.
  assert (Hbefore : forall i j, 0 <= i < a ->
            0 <= j < num_search_items_me nsi D i * k ->
            start_pos_idx nsi D i * k + j < start * k).
  { intros i j Hi Hj.
    pose proof (chunk_end_le_next_start nsi D i a Hn Hd Hdr
                  ltac:(lia) ltac:(lia)) as Hle.
    fold start in Hle. nia. }
  destruct (a =? h) eqn:Hah.
  - eexists. eexists. eexists. split; [exact Hs|].
    split; [lia|]. split.
    + apply (same_views_trans _ Fd F _ Hv). apply same_views_store.
      cbn [blk ptr_add]. intros [_ Hne]. apply Hne. reflexivity.
    + intros i Hi j Hj. cbv zeta.
      destruct (Z.eq_dec i a) as [->|Hia].
      * fold start r. rewrite !load_store_range_at by exact Hj.
        split; reflexivity.
      * rewrite !load_store_range_before
          by (apply Hbefore; [lia|exact Hj]).
        apply Hch; [lia|exact Hj].
  - apply Z.eqb_neq in Hah.
    destruct (Hgather a Ha Hah) as (Hgd & Hgi).
    rewrite Hgd, Hgi, Z.eqb_refl in Hs.
    rewrite !memcpy_len_exact in Hs;
      try first
        [ exact Hsz
        | unfold sizeof_int64_t; lia
        | apply (chunk_bytes_in_range nsi);
          first [assumption | unfold sizeof_int64_t; lia] ].
    eexists. eexists. eexists. split; [exact Hs|].
    split; [lia|]. split.
    + apply (same_views_trans _ Fd
               (store_range F (mk_ptr (N + 1) 0) (cnt * k) (snd r))).
      * apply (same_views_trans _ Fd F _ Hv). apply same_views_store.
        cbn [blk]. lia.
      * apply same_views_store.
        cbn [blk ptr_add]. intros [_ Hne]. apply Hne. reflexivity.
    + intros i Hi j Hj. cbv zeta.
      destruct (Z.eq_dec i a) as [->|Hia].
      * fold start r. rewrite !load_store_range_at by exact Hj.
        unfold view. rewrite !load_store_range_in by exact Hj.
        split; reflexivity.
      * rewrite !load_store_range_before
          by (apply Hbefore; [lia|exact Hj]).
        rewrite !load_store_range_other by (cbn [blk]; lia).
        apply Hch; [lia|exact Hj].
Qed.

Lemma dispatch_loop (count : nat) :
  forall (a : nat) F L N,
    (a + count <= Z.to_nat D)%nat ->
    inv (Z.of_nat a) F L N ->
    hoare (heaps_are F I L N)
      (for_each (map Z.of_nat (seq a count))
         (dispatch_device E st [int_wrap m] dists p n1 n2 nsi k metric D h))
      (fun _ s' =>
         exists F' L' N',
           heaps_are F' I L' N' s' /\ inv (Z.of_nat (a + count)) F' L' N').
Proof.
  induction count as [|count IH]; intros a F L N Hle Hinv.
  - cbn [seq map for_each]. intros s Hs. exists tt, s.
    split; [reflexivity|]. exists F, L, N. rewrite Nat.add_0_r.
    split; assumption.
  - cbn [seq map for_each].
    eapply hoare_bind; [apply (dispatch_step (Z.of_nat a)); [lia|exact Hinv]|].
    intros ? s (F1 & L1 & N1 & Hs & Hinv1).
    replace (a + S count)%nat with (S a + count)%nat by lia.
    apply (IH (S a) F1 L1 N1); [lia| |exact Hs].
    replace (Z.of_nat (S a)) with (Z.of_nat a + 1) by lia. exact Hinv1.
Qed.

End MergedBuffers.

(** ** The whole search *)

Lemma staging_inv_start (X1 X2 : ptr) (m n1 n2 h : Z) F0 N0 bd :
  0 < N0 -> bd <> 0 ->
  staging_inv E X1 X2 m n1 n2 h F0 N0 bd 0 (mk_staged [] [] [] []) F0 N0.
Proof.
  intros HN Hbd. unfold staging_inv.
  split; [|split; [|split; [|split]]].
  - unfold staged_for. cbn. repeat split; intros; lia.
  - lia.
  - apply same_views_refl.
  - intros i. cbn [per_device_x1 per_device_x2].
    destruct i; cbn [nth NULL blk]; repeat split; lia.
  - intros i Hi. lia.
Qed.

Lemma dispatch_inv_start (st : staged) (dists p : ptr) (m n1 n2 nsi k : Z)
  (metric : DistanceType E) (D : Z) Fd Nd L :
  dispatch_inv E st dists p m n1 n2 nsi k metric D Fd Nd 0 Fd L Nd.
Proof.
  split; [lia|]. split; [apply same_views_refl|]. intros i Hi. lia.
Qed.

(** The multi-device search, when at least one device is found and the
    gather copies of every device but the home device succeed. *)
Lemma compute_knn_GF_search_merges (X1 X2 dists : ptr)
  (m n1 n2 nsi k : Z) (metric : DistanceType E) F0 I0 L0 N0 :
  let h := sentinel_device_of E in
  let D := num_devices_of E in
  size_t_range nsi -> 1 <= D -> int_range D -> 0 <= k ->
  size_t_range (nsi * k) -> 0 < sizeof_value_t E ->
  size_t_range (nsi * k * sizeof_value_t E) ->
  size_t_range (nsi * k * sizeof_int64_t) ->
  (forall i, 0 <= i < D -> i <> h ->
     cuda_status (cuda E) (call_gather_Memcpy_dists i) = cudaSuccess /\
     cuda_status (cuda E) (call_gather_Memcpy_inds i) = cudaSuccess) ->
  0 < blk X1 < N0 -> 0 < blk X2 < N0 -> 0 < blk dists < N0 ->
  blk X1 <> blk dists -> blk X2 <> blk dists ->
  hoare (heaps_are F0 I0 L0 N0)
    (compute_knn_GF_search E X1 X2 dists m n1 n2 nsi k metric)
    (fun pp s' =>
       exists st Fst Nst F' L' N',
         pp = mk_ptr Nst 0 /\
         staging_inv E X1 X2 m n1 n2 h F0 N0 (blk dists) (Z.to_nat D) st
           Fst Nst /\
         dispatch_inv E st dists (mk_ptr Nst 0) m n1 n2 nsi k metric D Fst
           (Nst + 1) D F' L' N' /\
         heaps_are F' I0 L' N' s').
Proof.
  intros h D Hn Hd Hdr Hk Hnk Hsz Hbytes Hbytes64 Hgather HX1 HX2 Hdists
    Hne1 Hne2.
  unfold compute_knn_GF_search. cbv zeta.
  eapply hoare_bind.
  { apply exact_fixed;
      [apply always_ok_cudaGetDevice|apply heaps_fixed_cudaGetDevice]. }
  intros r0. apply hoare_pure. intros Hr0. rewrite Hr0. fold h.
  eapply hoare_bind.
  { apply exact_quiet_CHECK; [apply always_ok_ret|].
    apply heaps_fixed_ret. constructor. }
  intros ?.
  eapply hoare_bind.
  { apply exact_fixed;
      [apply always_ok_cudaGetDeviceCount
      |apply heaps_fixed_cudaGetDeviceCount]. }
  intros r1. apply hoare_pure. intros Hr1. rewrite Hr1. fold D.
  eapply hoare_bind.
  { apply exact_quiet_CHECK; [apply always_ok_ret|].
    apply heaps_fixed_ret. constructor. }
  intros ?. unfold range.
  eapply hoare_bind.
  { apply (staging_loop X1 X2 m n1 n2 h F0 N0 (blk dists) I0 L0
             (Z.to_nat D)); try assumption.
    apply staging_inv_start; lia. }
  intros st. apply hoare_ex. intros Fst. apply hoare_ex. intros Nst.
  apply hoare_pure_r. cbn [Nat.add]. intros Hinv.
  eapply hoare_bind.
  { apply exact_quiet_CHECK;
      [apply always_ok_cudaSetDevice|apply heaps_fixed_cudaSetDevice]. }
  intros ?.
  eapply hoare_bind.
  { apply exact_fixed;
      [apply always_ok_device_uvector|apply heaps_fixed_device_uvector]. }
  intros p. apply hoare_pure. intros ->.
  pose proof Hinv as (Hsf & HN0 & Hv0 & Hblk & Hcont).
  destruct Hsf as (_ & _ & _ & _ & Hvec & _).
  eapply hoare_bind.
  { apply (dispatch_loop st dists (mk_ptr Nst 0) m n1 n2 nsi k metric D h
             Fst (Nst + 1) I0 Hn Hd Hdr Hk Hnk Hsz Hbytes Hbytes64 Hgather)
      with (count := Z.to_nat D) (a := 0%nat).
    - lia.
    - cbn [blk]. lia.
    - intros i Hi. unfold at_vec, at_ptr.
      destruct (Hvec (Z.to_nat i) ltac:(lia)) as (Hv1 & Hv2).
      destruct (Hblk (Z.to_nat i)) as ((Hb1 & Hb1') & (Hb2 & Hb2')).
      split; [exact Hv1|]. split; [exact Hv2|].
      split; split; (lia || assumption).
    - lia.
    - apply dispatch_inv_start. }
  intros ?. apply hoare_ex. intros F'. apply hoare_ex. intros L'.
  apply hoare_ex. intros N'. apply hoare_pure_r. intros Hdisp.
  replace (Z.of_nat (0 + Z.to_nat D)) with D in Hdisp by lia.
  eapply hoare_bind.
  { apply exact_fixed;
      [apply always_ok_cudaSetDevice|apply heaps_fixed_cudaSetDevice]. }
  intros ?. apply hoare_pure. intros _.
  intros s Hs. eexists. eexists. split; [reflexivity|].
  exists st, Fst, Nst, F', L', N'.
  split; [reflexivity|]. split; [exact Hinv|]. split; [exact Hdisp|exact Hs].
Qed.

(** [compute_knn_GF] as a whole, from a state [s]: slice [i] of [dists]
    holds the distances and slice [i] of [inds] the narrowed indices that
    the search of device [i] returned. *)
Lemma compute_knn_GF_merges (X1 X2 inds dists : ptr) (m n1 n2 : Z)
  (si1 si2 : ptr) (nsi k : Z) (metric : DistanceType E) (s : state) :
  let h := sentinel_device_of E in
  let D := num_devices_of E in
  size_t_range nsi -> 1 <= D -> int_range D -> 0 <= k ->
  size_t_range (nsi * k) -> 0 < sizeof_value_t E ->
  size_t_range (nsi * k * sizeof_value_t E) ->
  size_t_range (nsi * k * sizeof_int64_t) ->
  (forall i, 0 <= i < D -> i <> h ->
     cuda_status (cuda E) (call_gather_Memcpy_dists i) = cudaSuccess /\
     cuda_status (cuda E) (call_gather_Memcpy_inds i) = cudaSuccess) ->
  0 < blk X1 < next_block s -> 0 < blk X2 < next_block s ->
  0 < blk dists < next_block s ->
  blk X1 <> blk dists -> blk X2 <> blk dists ->
  exists st Fst Nst s',
    compute_knn_GF E X1 X2 inds dists m n1 n2 si1 si2 nsi k metric s
    = (Ok tt, s') /\
    staging_inv E X1 X2 m n1 n2 h (fmem s) (next_block s) (blk dists)
      (Z.to_nat D) st Fst Nst /\
    (forall i, 0 <= i < D ->
       forall j, 0 <= j < num_search_items_me nsi D i * k ->
         let r :=
           device_search Fst (at_ptr (per_device_x1 st) i)
             (at_ptr (per_device_x2 st) i) m n1 n2 nsi k metric D i in
         load (fmem s') dists (start_pos_idx nsi D i * k + j) = snd r j /\
         load (imem s') inds (start_pos_idx nsi D i * k + j)
         = narrow E (fst r j)) /\
    (forall b o, b <> blk inds -> imem s' b o = imem s b o).
Proof.
  intros h D Hn Hd Hdr Hk Hnk Hsz Hbytes Hbytes64 Hgather HX1 HX2 Hdists
    Hne1 Hne2.
  destruct (compute_knn_GF_search_merges X1 X2 dists m n1 n2 nsi k metric
              (fmem s) (imem s) (lmem s) (next_block s)
              Hn Hd Hdr Hk Hnk Hsz Hbytes Hbytes64 Hgather HX1 HX2 Hdists
              Hne1 Hne2 s)
    as (pp & s_mid & Hsearch & st & Fst & Nst & F' & L' & N' & Hpp & Hstg
        & Hdisp & Hf & Hi & Hl & HN).
  { repeat split. }
  subst pp h D. exists st, Fst, Nst. eexists. split.
  { unfold compute_knn_GF. rewrite (bind_ok _ _ _ _ _ Hsearch).
    apply narrow_indices_run. }
  split; [exact Hstg|].
  unfold set_imem, record. cbn [fmem imem].
  destruct Hdisp as (_ & _ & Hch). split.
  - intros i Hir j Hj. cbv zeta.
    destruct (Hch i ltac:(lia) j Hj) as (Hd1 & Hd2).
    rewrite Hf, Hi, Hl. split; [exact Hd1|].
    pose proof (chunk_within nsi _ i Hn Hd Hdr Hir) as (Hs0 & Hc0 & Hend).
    rewrite load_store_range_in.
    + rewrite Hd2. reflexivity.
    + replace (k * nsi) with (nsi * k) by lia.
      rewrite (size_t_wrap_id _ Hnk). nia.
  - intros b o Hb. rewrite Hi. apply store_range_other_block. exact Hb.
Qed.

Lemma row_has_a_device (n d r : Z) :
  size_t_range n -> 1 <= d -> int_range d -> 0 <= r < n ->
  exists i, 0 <= i < d /\
    start_pos_idx n d i <= r
    < start_pos_idx n d i + num_search_items_me n d i.
Proof.
  intros Hn Hd Hdr Hrow.
  destruct (chunk_facts _ _ Hn Hd Hdr) as (_ & _ & Hq & Hr & Hdiv).
  set (q := n / d) in *.
  destruct (Z_lt_le_dec r (q * (d - 1))) as [Hin|Hlast].
  - assert (Hqpos : 0 < q) by nia.
    exists (r / q).
    assert (Hrq : r = q * (r / q) + r mod q) by apply Z_div_mod_eq_full.
    pose proof (Z.mod_pos_bound r q Hqpos) as Hm.
    assert (Hlo : 0 <= r / q) by (apply Z.div_pos; lia).
    assert (Hhi : r / q < d - 1).
    { apply Z.div_lt_upper_bound; lia. }
    rewrite start_pos_idx_eq, num_search_items_me_eq by (assumption || lia).
    replace (r / q =? d - 1) with false
      by (symmetry; apply Z.eqb_neq; lia).
    fold q. split; [lia|]. nia.
  - exists (d - 1).
    pose proof (last_chunk_end _ _ Hn Hd Hdr) as Hend.
    rewrite start_pos_idx_eq in * by (assumption || lia).
    fold q in Hend |- *. split; [lia|]. split; [lia|]. lia.
Qed.

Lemma cell_has_a_device (n d k c : Z) :
  size_t_range n -> 1 <= d -> int_range d -> 0 < k -> 0 <= c < n * k ->
  exists i, 0 <= i < d /\
    start_pos_idx n d i * k <= c
    < (start_pos_idx n d i + num_search_items_me n d i) * k.
Proof.
  intros Hn Hd Hdr Hk Hc.
  assert (Hrow : 0 <= c / k < n).
  { split; [apply Z.div_pos; lia|].
    apply Z.div_lt_upper_bound; lia. }
  destruct (row_has_a_device n d (c / k) Hn Hd Hdr Hrow) as (i & Hi & Hin).
  exists i. split; [exact Hi|].
  pose proof (Z_div_mod_eq_full c k) as Hck.
  pose proof (Z.mod_pos_bound c k Hk) as Hm. nia.
Qed.

(** ** The graph of the GF variant *)

(** C9.  [mutual_reachability_graph_GF] applies neither the
    mutual-reachability transform nor the scaling by [1/alpha]: its outcome
    and final state (core distances included) do not depend on [alpha], and
    it never launches the mutual-reachability kernel.  On the supported
    metric, when at least one device is found and the two gather copies of
    every device other than the home device succeed, the graph it returns
    is [symmetrize] applied to the raw output of the searches: slice [i] of
    the distance array holds the distances, and slice [i] of the column
    array the (narrowed) indices, that [brute_force_knn_GF] returned on
    device [i] with 64 neighbours, the slices cover the [m * 64] edges, and
    the weight of every edge of the output that is not a self-loop is the
    weight [symmetrize] computed.  The search of the home device runs on
    the caller's [X1] and [X2]; the search of another device runs on that
    device's copies, which hold the caller's arrays when their allocation
    and copy succeeded. *)
Theorem GF_skips_mutual_reachability
  (X1 X2 : ptr) (m n1 n2 : Z) (metric : DistanceType E) (min_samples : Z)
  (alpha : value_t E) (indptr core_dists : ptr) (s : state) :
  (forall alpha',
     mutual_reachability_graph_GF E X1 X2 m n1 n2 metric min_samples alpha'
       indptr core_dists s
     = mutual_reachability_graph_GF E X1 X2 m n1 n2 metric min_samples alpha
         indptr core_dists s) /\
  (exists t,
     trace (snd (mutual_reachability_graph_GF E X1 X2 m n1 n2 metric
                   min_samples alpha indptr core_dists s))
     = trace s ++ t /\
     Forall not_mutual_reachability t) /\
  (metric = L2SqrtExpanded E ->
   let h := sentinel_device_of E in
   let D := num_devices_of E in
   let start := start_pos_idx m D in
   let share := num_search_items_me m D in
   1 <= D -> int_range D ->
   0 <= m -> 0 < sizeof_value_t E ->
   size_t_range (m * 64 * sizeof_value_t E) ->
   size_t_range (m * 64 * sizeof_int64_t) ->
   (forall i, 0 <= i < D -> i <> h ->
      cuda_status (cuda E) (call_gather_Memcpy_dists i) = cudaSuccess /\
      cuda_status (cuda E) (call_gather_Memcpy_inds i) = cudaSuccess) ->
   0 < blk X1 < next_block s -> 0 < blk X2 < next_block s ->
   blk core_dists < next_block s ->
   exists (coo_rows inds dists : ptr) (st : staged)
          (Fst : heap (value_t E)) (s_sym s' : state),
     mutual_reachability_graph_GF E X1 X2 m n1 n2 metric min_samples alpha
       indptr core_dists s = (Ok tt, s') /\
     (* what the devices search: [Fst] is the value heap after staging *)
     (forall p, 0 < blk p < next_block s ->
        view Fst p = view (fmem s) p) /\
     (0 <= h < D ->
      at_ptr (per_device_x1 st) h = X1 /\ at_ptr (per_device_x2 st) h = X2) /\
     (forall i, 0 <= i < D -> i <> h ->
        (cuda_status (cuda E) (call_stage_Malloc_x1 i) = cudaSuccess ->
         cuda_status (cuda E) (call_stage_Memcpy_x1 i) = cudaSuccess ->
         forall o,
           0 <= o
           < size_t_wrap (m * n1 * sizeof_value_t E) / sizeof_value_t E ->
           load Fst (at_ptr (per_device_x1 st) i) o = load (fmem s) X1 o) /\
        (cuda_status (cuda E) (call_stage_Malloc_x2 i) = cudaSuccess ->
         cuda_status (cuda E) (call_stage_Memcpy_x2 i) = cudaSuccess ->
         forall o,
           0 <= o
           < size_t_wrap (m * n2 * sizeof_value_t E) / sizeof_value_t E ->
           load Fst (at_ptr (per_device_x2 st) i) o = load (fmem s) X2 o)) /\
     (* what [symmetrize] reads is what the searches returned *)
     (forall i, 0 <= i < D ->
        forall j, 0 <= j < share i * 64 ->
          let r :=
            device_search Fst (at_ptr (per_device_x1 st) i)
              (at_ptr (per_device_x2 st) i) m n1 n2 m 64 metric D i in
          view (fmem s_sym) dists (start i * 64 + j) = snd r j /\
          view (imem s_sym) inds (start i * 64 + j) = narrow E (fst r j)) /\
     (forall c, 0 <= c < m * 64 ->
        exists i, 0 <= i < D /\
          start i * 64 <= c < (start i + share i) * 64) /\
     (forall c, 0 <= c < counting_distance E (size_t_wrap (m * 64)) ->
        view (imem s_sym) coo_rows c
        = narrow E (arith_wrap E (Z.quot (narrow E c) 64))) /\
     (* the graph *)
     let sym :=
       symmetrize E (view (imem s_sym) coo_rows) (view (imem s_sym) inds)
         (view (fmem s_sym) dists) m m (size_t_wrap (64 * m)) in
     nnz (out s') = nnz sym /\
     (forall e, rows (out s') e = rows sym e /\
                cols (out s') e = cols sym e) /\
     (forall e, 0 <= e < nnz (out s') ->
        rows (out s') e <> cols (out s') e ->
        vals (out s') e = vals sym e)).
Proof.
  split; [|split].
  - intros alpha'. reflexivity.
  - destruct (gf_trace E X1 X2 m n1 n2 metric min_samples alpha indptr
                core_dists s _ _ (surjective_pairing _)) as (t & Ht & Hall).
    exists t. split; [exact Ht|]. revert Hall. apply Forall_impl.
    intros [] Hev; simpl in *; auto.
  - intros -> h D start share Hd Hdr Hm Hsz Hbytes Hbytes64 Hgather HX1 HX2
      Hcd. subst h D start share.
    assert (Hnk : size_t_range (m * 64)).
    { unfold size_t_range, in_unsigned in *. nia. }
    assert (Hn : size_t_range m).
    { unfold size_t_range, in_unsigned in *. nia. }
    pose proof (gf_run E X1 X2 m n1 n2 min_samples alpha indptr core_dists s)
      as Hrun. cbv zeta in Hrun.
    set (count := size_t_wrap (64 * m)) in *.
    set (coo_rows := mk_ptr (next_block s) 0) in *.
    set (inds := mk_ptr (next_block s + 1) 0) in *.
    set (dists := mk_ptr (next_block s + 1 + 1) 0) in *.
    set (s0 := snd (device_uvector E count
                      (snd (device_uvector E count
                              (snd (device_uvector E count s)))))) in *.
    set (s_knn := snd (compute_knn_GF E X1 X2 inds dists m n1 n2 X1 X2 m 64
                         (L2SqrtExpanded E) s0)) in *.
    set (s_core := snd (core_distances E dists 64 64 m core_dists s_knn)) in *.
    set (s_rows := snd (fill_coo_rows E coo_rows m 64 s_core)) in *.
    set (s_sym := snd (call_symmetrize E coo_rows inds dists m m count
                         s_rows)) in *.
    set (s_csr := snd (call_sorted_coo_to_csr E indptr (size_t_wrap (m + 1))
                         s_sym)) in *.
    assert (Hnb0 : next_block s0 = next_block s + 1 + 1 + 1) by reflexivity.
    destruct (compute_knn_GF_merges X1 X2 inds dists m n1 n2 X1 X2 m 64
                (L2SqrtExpanded E) s0 Hn Hd Hdr ltac:(lia) Hnk Hsz Hbytes
                Hbytes64 Hgather)
      as (st & Fst & Nst & s_k & Hknn & Hstg & Hcells & _);
      try (rewrite ?Hnb0; unfold dists; cbn [blk]; lia).
    assert (Hsk : s_knn = s_k) by (unfold s_knn; rewrite Hknn; reflexivity).
    destruct Hstg as (Hsf & _ & Hv0 & _ & Hcont).
    destruct Hsf as (_ & _ & _ & _ & _ & Hhome).
    exists coo_rows, inds, dists, st, Fst, s_rows,
      (snd (self_loops_get_max_distance E s_csr)).
    split; [exact Hrun|].
    split.
    { intros p Hp. apply (Hv0 p). rewrite Hnb0. lia. }
    split.
    { intros Hh. unfold at_ptr. apply Hhome; lia. }
    split.
    { intros i Hi Hne. unfold at_ptr.
      destruct (Hcont (Z.to_nat i) ltac:(lia) ltac:(lia)) as (Hc1 & Hc2).
      rewrite Z2Nat.id in Hc1, Hc2 by lia.
      split; intros Hok1 Hok2 o Ho.
      - apply (proj2 (Hc1 Hok1 Hok2) o Ho).
      - apply (proj2 (Hc2 Hok1 Hok2) o Ho). }
    split.
    { intros i Hi j Hj. cbv zeta.
      destruct (Hcells i Hi j Hj) as (Hd1 & Hd2). rewrite <- Hsk in Hd1, Hd2.
      split.
      - unfold view. rewrite <- Hd1. unfold load, s_rows.
        rewrite fill_coo_rows_fmem.
        unfold s_core. apply core_distances_fmem_other.
        unfold dists; cbn [blk]. lia.
      - unfold view. rewrite <- Hd2. unfold load, s_rows.
        rewrite fill_coo_rows_imem_other
          by (unfold inds, coo_rows; cbn [blk]; lia).
        unfold s_core. rewrite core_distances_imem. reflexivity. }
    split.
    { intros c Hc. apply cell_has_a_device; (assumption || lia). }
    split.
    { intros c Hc. unfold view, s_rows. apply fill_coo_rows_imem_in.
      exact Hc. }
    pose proof (self_loops_post E s_csr _
                  (always_ok_run E _ s_csr (always_ok_self_loops E)))
      as (Hnnz & Hrows & Hcols & Hvals).
    assert (Hout : out s_csr
                   = symmetrize E (view (imem s_rows) coo_rows)
                       (view (imem s_rows) inds) (view (fmem s_rows) dists)
                       m m count).
    { unfold s_csr. rewrite call_sorted_coo_to_csr_out.
      unfold s_sym. apply call_symmetrize_out. }
    cbv zeta. fold count. rewrite <- Hout. split; [exact Hnnz|].
    split; [intros e; split; [apply Hrows|apply Hcols]|].
    intros e He Hne. apply Hvals; assumption.
Qed.

End GFSearch.

(** * The theorems at concrete inputs *)

Module Instances.
Import Example.

(** Closed arithmetic facts about literals. *)
Ltac by_computation :=
  vm_compute; repeat split;
  first [reflexivity | discriminate | intro; discriminate].


(** Two neighbours and [min_samples = 3]. *)
Lemma core_distances_rejects_small_neighborhood_witness :
  2 < 3 /\
  exists msg,
    core_distances (E32 runtime_ok) dists 3 2 4 core_dists
      (initial runtime_ok)
    = (Err (invalid_configuration msg), initial runtime_ok).
Proof.
  split; [lia|].
  apply (core_distances_rejects_small_neighborhood (E32 runtime_ok)
           dists core_dists 3 2 4 (initial runtime_ok)).
  lia.
Defined.

(** Ten rows on three devices: chunks [0..2], [3..5], [6..9]. *)
Lemma partition_is_contiguous_disjoint_and_covers_witness :
  (1 <= 3) /\
  (forall i, 0 <= i < 3 ->
     start_pos_idx 10 3 i = i * (10 / 3) /\
     num_search_items_me 10 3 i
       = if i =? 3 - 1 then 10 / 3 + 10 mod 3 else 10 / 3) /\
  (forall i j, 0 <= i < j -> j < 3 ->
     start_pos_idx 10 3 i + num_search_items_me 10 3 i
     <= start_pos_idx 10 3 j) /\
  (forall r, 0 <= r < 10 ->
     exists i, 0 <= i < 3 /\
       start_pos_idx 10 3 i <= r
       < start_pos_idx 10 3 i + num_search_items_me 10 3 i).
Proof.
  split; [lia|].
  apply (partition_is_contiguous_disjoint_and_covers 10 3).
  - by_computation.
  - lia.
  - by_computation.
Defined.

(** Index conversion with 32-bit indices. *)
Lemma index_narrowing_is_lossless_witness :
  narrow (E32 runtime_ok) 2147483647 = 2147483647 /\
  load (imem (snd (compute_knn (E32 runtime_ok) X1 inds dists 2 1 X1 2 2
                     m_L2SqrtExpanded (initial runtime_ok)))) inds 3
  = 1.
Proof.
  pose proof (index_narrowing_is_lossless (E32 runtime_ok)
                ltac:(vm_compute; reflexivity)) as (Hone & Hknn & _).
  split.
  - apply Hone. by_computation.
  - apply (Hknn X1 inds dists 2 1 X1 2 2 m_L2SqrtExpanded
             (initial runtime_ok) 3); by_computation.
Defined.

(** The metric [m_L1] is not the supported one. *)
Lemma unsupported_metric_fails_fast_witness :
  (exists msg,
     mutual_reachability_graph (E32 runtime_ok) X1 2 1 m_L1 2 1
       indptr core_dists (initial runtime_ok)
     = (Err (unsupported_metric msg), initial runtime_ok)) /\
  (exists msg,
     mutual_reachability_graph_GF (E32 runtime_ok) X1 X2 2 1 1 m_L1 2 1
       indptr core_dists (initial runtime_ok)
     = (Err (unsupported_metric msg), initial runtime_ok)).
Proof.
  apply (unsupported_metric_fails_fast (E32 runtime_ok) X1 X1 X2 2 1 1 1
           m_L1 2 1 indptr core_dists (initial runtime_ok)).
  discriminate.
Defined.

(** Two points with [min_samples = 2]: edges 0 and 3 of the output are
    self-loops. *)
Lemma self_loops_get_max_weight_witness :
  let run :=
    mutual_reachability_graph (E32 runtime_ok) X1 2 1 m_L2SqrtExpanded 2 1
      indptr core_dists (initial runtime_ok) in
  exists s_pre,
    mutual_reachability_graph_to_csr (E32 runtime_ok) X1 2 1
      m_L2SqrtExpanded 2 1 indptr core_dists (initial runtime_ok)
    = (Ok tt, s_pre) /\
    self_loops_get_max_distance (E32 runtime_ok) s_pre = (Ok tt, snd run) /\
    nnz (out (snd run)) = nnz (out s_pre) /\
    (forall e, rows (out (snd run)) e = rows (out s_pre) e) /\
    (forall e, cols (out (snd run)) e = cols (out s_pre) e) /\
    (forall e, 0 <= e < nnz (out (snd run)) ->
       (rows (out (snd run)) e = cols (out (snd run)) e ->
          vals (out (snd run)) e = value_max (E32 runtime_ok)) /\
       (rows (out (snd run)) e <> cols (out (snd run)) e ->
          vals (out (snd run)) e = vals (out s_pre) e)).
Proof.
  intros run.
  apply (proj1 (self_loops_get_max_weight (E32 runtime_ok) X1 X1 X2 2 1 1 1
                  m_L2SqrtExpanded 2 1 indptr core_dists
                  (initial runtime_ok))).
  apply always_ok_run.
  apply (always_ok_mutual_reachability_graph_supported (E32 runtime_ok)).
Defined.

(** The same run, evaluated: four edges, the self-loops 0 and 3
    at [FLT_MAX], the edges 1 and 2 at the weight the toy
    mutual-reachability kernel gave them. *)
Example self_loops_evaluated :
  let o := out (snd (mutual_reachability_graph (E32 runtime_ok) X1 2 1
                       m_L2SqrtExpanded 2 1 indptr core_dists
                       (initial runtime_ok))) in
  nnz o = 4 /\
  map (rows o) [0; 1; 2; 3] = [0; 0; 1; 1] /\
  map (cols o) [0; 1; 2; 3] = [0; 1; 0; 1] /\
  map (vals o) [0; 1; 2; 3] = [FLT_MAX; 101; 103; FLT_MAX].
Proof. cbv zeta. repeat split; vm_compute; reflexivity. Qed.


(** The history of that run, evaluated: the searches of the two
    devices and the core-distance kernel all carry 64. *)
Example GF_history_evaluated :
  filter (fun ev => match ev with
                    | ev_brute_force_knn_GF _ _ _ => true
                    | ev_core_distances _ _ _ => true
                    | ev_mutual_reachability_knn_l2 _ => true
                    | _ => false
                    end)
    (trace (snd (mutual_reachability_graph_GF (E32 runtime_ok) X1 X2 2 1 1
                   m_L2SqrtExpanded 2 1 indptr core_dists
                   (initial runtime_ok))))
  = [ev_brute_force_knn_GF 0 1 64; ev_brute_force_knn_GF 1 1 64;
     ev_core_distances 64 64 2].
Proof. vm_compute. reflexivity. Qed.

(** The GF variant on two points, two devices, the caller on device 0
    and no failing call, with [alpha = 3]. *)
Lemma GF_skips_mutual_reachability_witness :
  let E := E32 runtime_ok in
  let s := initial runtime_ok in
  let h := sentinel_device_of E in
  let D := num_devices_of E in
  let start := start_pos_idx 2 D in
  let share := num_search_items_me 2 D in
  exists (coo_rows inds dists : ptr) (st : staged)
         (Fst : heap (value_t E)) (s_sym s' : device_state E),
    mutual_reachability_graph_GF E X1 X2 2 1 1 m_L2SqrtExpanded 2 3
      indptr core_dists s = (Ok tt, s') /\
    (forall p, 0 < blk p < next_block s -> view Fst p = view (fmem s) p) /\
    (0 <= h < D ->
     at_ptr (per_device_x1 st) h = X1 /\ at_ptr (per_device_x2 st) h = X2) /\
    (forall i, 0 <= i < D -> i <> h ->
       (cuda_status (cuda E) (call_stage_Malloc_x1 i) = cudaSuccess ->
        cuda_status (cuda E) (call_stage_Memcpy_x1 i) = cudaSuccess ->
        forall o,
          0 <= o < size_t_wrap (2 * 1 * sizeof_value_t E) / sizeof_value_t E ->
          load Fst (at_ptr (per_device_x1 st) i) o = load (fmem s) X1 o) /\
       (cuda_status (cuda E) (call_stage_Malloc_x2 i) = cudaSuccess ->
        cuda_status (cuda E) (call_stage_Memcpy_x2 i) = cudaSuccess ->
        forall o,
          0 <= o < size_t_wrap (2 * 1 * sizeof_value_t E) / sizeof_value_t E ->
          load Fst (at_ptr (per_device_x2 st) i) o = load (fmem s) X2 o)) /\
    (forall i, 0 <= i < D ->
       forall j, 0 <= j < share i * 64 ->
         let r :=
           device_search (E := E) Fst (at_ptr (per_device_x1 st) i)
             (at_ptr (per_device_x2 st) i) 2 1 1 2 64 m_L2SqrtExpanded D i in
         view (fmem s_sym) dists (start i * 64 + j) = snd r j /\
         view (imem s_sym) inds (start i * 64 + j) = narrow E (fst r j)) /\
    (forall c, 0 <= c < 2 * 64 ->
       exists i, 0 <= i < D /\
         start i * 64 <= c < (start i + share i) * 64) /\
    (forall c, 0 <= c < counting_distance E (size_t_wrap (2 * 64)) ->
       view (imem s_sym) coo_rows c
       = narrow E (arith_wrap E (Z.quot (narrow E c) 64))) /\
    let sym :=
      symmetrize E (view (imem s_sym) coo_rows) (view (imem s_sym) inds)
        (view (fmem s_sym) dists) 2 2 (size_t_wrap (64 * 2)) in
    nnz (out s') = nnz sym /\
    (forall e, rows (out s') e = rows sym e /\ cols (out s') e = cols sym e) /\
    (forall e, 0 <= e < nnz (out s') ->
       rows (out s') e <> cols (out s') e ->
       vals (out s') e = vals sym e).
Proof.
  intros E s h D start share.
  apply (proj2 (proj2 (GF_skips_mutual_reachability (E32 runtime_ok) X1 X2
                         2 1 1 m_L2SqrtExpanded 2 3 indptr core_dists
                         (initial runtime_ok)))).
  - reflexivity.
  - by_computation.
  - by_computation.
  - lia.
  - by_computation.
  - by_computation.
  - by_computation.
  - intros i _ _. split; reflexivity.
  - by_computation.
  - by_computation.
  - by_computation.
Defined.

(** A weight that no search returned: with two devices, the copy that
    gathers the distances of device 1 reports error 700.  The call returns
    normally; edge 64 of the output joins point 1 to point 0, is the first
    entry of the slice of device 1, and carries 12064, which is what the
    scratch block of the distances held before the call.  The search of
    device 1 returned 100 for this entry, as the run without the failure
    shows, and no search of the example returns 12064. *)
Lemma GF_weight_from_a_failed_gather :
  let E := E32 runtime_gather_fails in
  let s := initial runtime_gather_fails in
  let run :=
    mutual_reachability_graph_GF E X1 X2 2 1 1 m_L2SqrtExpanded 2 1
      indptr core_dists s in
  cuda_status runtime_gather_fails (call_gather_Memcpy_dists 1)
    <> cudaSuccess /\
  fst run = Ok tt /\
  0 <= 64 < nnz (out (snd run)) /\
  (rows (out (snd run)) 64, cols (out (snd run)) 64) = (1, 0) /\
  vals (out (snd run)) 64 = 12064 /\
  load (fmem s) (mk_ptr (next_block s + 2) 0) 64 = 12064 /\
  64 = start_pos_idx 2 (num_devices_of E) 1 * 64 + 0 /\
  (forall (F : heap Z) (p1 p2 : ptr),
     snd (device_search (E := E) F p1 p2 2 1 1 2 64 m_L2SqrtExpanded
            (num_devices_of E) 1) 0 = 100) /\
  (forall (F : heap Z) (p1 p2 : ptr) (i j : Z),
     0 <= j < 2 * 64 ->
     snd (device_search (E := E) F p1 p2 2 1 1 2 64 m_L2SqrtExpanded
            (num_devices_of E) i) j <> 12064) /\
  vals (out (snd (mutual_reachability_graph_GF (E32 runtime_ok) X1 X2 2 1 1
                    m_L2SqrtExpanded 2 1 indptr core_dists
                    (initial runtime_ok)))) 64
  = 100.
Proof.
  intros E s run. subst E s run.
  split; [vm_compute; discriminate|].
  split; [vm_compute; reflexivity|].
  split; [vm_compute; split; (discriminate || reflexivity)|].
  split; [vm_compute; reflexivity|].
  split; [vm_compute; reflexivity|].
  split; [vm_compute; reflexivity|].
  split; [vm_compute; reflexivity|].
  split; [intros F p1 p2; reflexivity|].
  split; [|vm_compute; reflexivity].
  intros F p1 p2 i j Hj.
  change (100 + j <> 12064). lia.
Qed.

(** The output of that run, evaluated: edge 1 joins point 0 to point 1
    and carries the raw distance 101 of the search for every [alpha],
    although the core distance of point 0 is 163. *)
Example GF_edges_evaluated :
  let o alpha :=
    out (snd (mutual_reachability_graph_GF (E32 runtime_ok) X1 X2 2 1 1
                m_L2SqrtExpanded 2 alpha indptr core_dists
                (initial runtime_ok))) in
  nnz (o 3) = 128 /\
  (rows (o 3) 1, cols (o 3) 1, vals (o 3) 1) = (0, 1, 101) /\
  (rows (o 3) 0, cols (o 3) 0, vals (o 3) 0) = (0, 0, FLT_MAX) /\
  vals (o 1) 1 = 101 /\
  load (fmem (snd (mutual_reachability_graph_GF (E32 runtime_ok) X1 X2 2 1 1
                     m_L2SqrtExpanded 2 3 indptr core_dists
                     (initial runtime_ok)))) core_dists 0
  = 163.
Proof. cbv zeta. repeat split; vm_compute; reflexivity. Qed.

(** The single-set variant on two points with [min_samples = 2]. *)
Lemma invalid_configuration_is_unreachable_witness :
  let run :=
    mutual_reachability_graph (E32 runtime_ok) X1 2 1 m_L2SqrtExpanded
      2 1 indptr core_dists (initial runtime_ok) in
  fst run = Ok tt /\
  In (ev_brute_force_knn 2 2) (trace (snd run)) /\
  In (ev_core_distances 2 2 2) (trace (snd run)).
Proof.
  intros run.
  apply (proj2 (proj2 (invalid_configuration_is_unreachable (E32 runtime_ok)
                         X1 2 1 m_L2SqrtExpanded 2 1 indptr core_dists
                         (initial runtime_ok)))).
  reflexivity.
Defined.

(** A failure that is not surfaced: with two devices, the copy that gathers the
    distances of device 1 reports error 700; [compute_knn_GF] logs it and
    returns normally, and entry 1 of the merged distances still holds what
    the buffer held before the call (3001), not the distance the search
    on device 1 found (100, as the run without the failure shows). *)
Lemma failed_gather_is_not_surfaced :
  cuda_status runtime_gather_fails (call_gather_Memcpy_dists 1)
    <> cudaSuccess /\
  fst (compute_knn_GF (E32 runtime_gather_fails) X1 X2 inds dists 2 1 1
         X1 X2 2 1 m_L2SqrtExpanded (initial runtime_gather_fails))
  = Ok tt /\
  map log_line
      (cerr (snd (compute_knn_GF (E32 runtime_gather_fails) X1 X2 inds dists
                    2 1 1 X1 X2 2 1 m_L2SqrtExpanded
                    (initial runtime_gather_fails))))
  = [323] /\
  load (fmem (snd (compute_knn_GF (E32 runtime_gather_fails) X1 X2 inds dists
                     2 1 1 X1 X2 2 1 m_L2SqrtExpanded
                     (initial runtime_gather_fails)))) dists 1
  = load (fmem (initial runtime_gather_fails)) dists 1 /\
  load (fmem (initial runtime_gather_fails)) dists 1 = 3001 /\
  load (fmem (snd (compute_knn_GF (E32 runtime_ok) X1 X2 inds dists
                     2 1 1 X1 X2 2 1 m_L2SqrtExpanded
                     (initial runtime_ok)))) dists 1
  = 100.
Proof. repeat split; vm_compute; (reflexivity || discriminate). Qed.

(** The same run: offset 1 is the slice of device 1. *)
Lemma device_failures_are_logged_not_raised_witness :
  chunk_cells dists 2 1 (num_devices_of (E32 runtime_gather_fails)) 1 1 /\
  fmem (snd (compute_knn_GF (E32 runtime_gather_fails) X1 X2 inds dists
               2 1 1 X1 X2 2 1 m_L2SqrtExpanded
               (initial runtime_gather_fails))) (blk dists) 1
  = fmem (initial runtime_gather_fails) (blk dists) 1.
Proof.
  split; [by_computation|].
  apply (proj2 (proj2 (proj2 (device_failures_are_logged_not_raised
                                (E32 runtime_gather_fails) X1 X2 inds dists
                                2 1 1 X1 X2 2 1 m_L2SqrtExpanded
                                (initial runtime_gather_fails)))) 1);
    by_computation.
Defined.

End Instances.

(** * The further properties at concrete inputs *)

Module MoreInstances.
Import Example.
Import MoreExample.

Ltac by_evaluation :=
  vm_compute; repeat split;
  first [reflexivity | discriminate | intro; discriminate].

(** Ten rows on three devices: the chunks start at 0, 3 and 6 and the last
    one ends at 10. *)
Lemma partition_tiles_the_rows_witness :
  start_pos_idx 10 3 0 = 0 /\
  (forall i, 0 <= i < 3 - 1 ->
     start_pos_idx 10 3 (i + 1)
     = start_pos_idx 10 3 i + num_search_items_me 10 3 i) /\
  start_pos_idx 10 3 (3 - 1) + num_search_items_me 10 3 (3 - 1) = 10.
Proof.
  apply (partition_tiles_the_rows 10 3).
  - by_evaluation.
  - lia.
  - by_evaluation.
Defined.

(** [2^31] is not a 32-bit index: its conversion is one, and differs. *)
Lemma narrow_keeps_exactly_the_representable_witness :
  idx_range (E32 runtime_ok) (narrow (E32 runtime_ok) 2147483648) /\
  (narrow (E32 runtime_ok) 2147483648 = 2147483648
   <-> idx_range (E32 runtime_ok) 2147483648).
Proof.
  apply (narrow_keeps_exactly_the_representable (E32 runtime_ok)
           2147483648).
  by_evaluation.
Defined.

(** Three points with two neighbours each. *)
Lemma core_distances_writes_within_output_witness :
  let s' :=
    snd (core_distances (E32 runtime_ok) dists 2 2 3 core_dists
           (initial runtime_ok)) in
  (forall b o, ~ (b = blk core_dists /\
                  off core_dists <= o < off core_dists + 3) ->
     fmem s' b o = fmem (initial runtime_ok) b o) /\
  imem s' = imem (initial runtime_ok) /\
  lmem s' = lmem (initial runtime_ok) /\
  out s' = out (initial runtime_ok) /\
  cerr s' = cerr (initial runtime_ok) /\
  next_block s' = next_block (initial runtime_ok).
Proof.
  apply (core_distances_writes_within_output (E32 runtime_ok) dists
           core_dists 2 2 3 (initial runtime_ok)).
  - by_evaluation.
  - lia.
Defined.

(** The same call, twice. *)
Lemma core_distances_is_idempotent_witness :
  let once :=
    snd (core_distances (E32 runtime_ok) dists 2 2 3 core_dists
           (initial runtime_ok)) in
  let twice :=
    snd (core_distances (E32 runtime_ok) dists 2 2 3 core_dists once) in
  fmem twice 6 1 = fmem once 6 1 /\ fmem once 6 1 = 3003.
Proof.
  split.
  - apply (core_distances_is_idempotent (E32 runtime_ok) dists core_dists
             2 2 3 (initial runtime_ok)).
    by_evaluation.
  - vm_compute. reflexivity.
Defined.

(** Three points with two edges each: edge [1 * 2 + 1] leaves point 1. *)
Lemma fill_coo_rows_groups_edges_by_point_witness :
  load (imem (snd (fill_coo_rows (E32 runtime_ok) coo_rows 3 2
                     (initial runtime_ok)))) coo_rows (1 * 2 + 1)
  = 1.
Proof.
  apply (fill_coo_rows_groups_edges_by_point (E32 runtime_ok) coo_rows 3 2
           (initial runtime_ok) 1 1); first [lia | by_evaluation].
Defined.


(** Two points, on either path. *)
Lemma indptr_describes_the_returned_graph_witness :
  size_t_range (2 + 1) /\
  (forall s',
     mutual_reachability_graph (E32 runtime_ok) X1 2 1 m_L2SqrtExpanded 2 1
       indptr core_dists (initial runtime_ok) = (Ok tt, s') ->
     forall r, 0 <= r < 2 + 1 ->
       load (imem s') indptr r
       = csr (rows (out s')) (nnz (out s')) (2 + 1) r) /\
  (forall s',
     mutual_reachability_graph_GF (E32 runtime_ok) X1 X2 2 1 1
       m_L2SqrtExpanded 2 1 indptr core_dists (initial runtime_ok)
     = (Ok tt, s') ->
     forall r, 0 <= r < 2 + 1 ->
       load (imem s') indptr r
       = csr (rows (out s')) (nnz (out s')) (2 + 1) r).
Proof.
  assert (H : size_t_range (2 + 1)) by by_evaluation.
  split; [exact H|].
  exact (indptr_describes_the_returned_graph (E32 runtime_ok) X1 X1 X2 2 1
           1 1 m_L2SqrtExpanded 2 1 indptr core_dists (initial runtime_ok)
           H).
Defined.

(** No point at all. *)
Lemma empty_point_set_writes_only_indptr_0_witness :
  let run :=
    mutual_reachability_graph (E32 runtime_ok) X1 0 1 m_L2SqrtExpanded 2 1
      indptr core_dists (initial runtime_ok) in
  fst run = Ok tt /\
  (forall b o, fmem (snd run) b o = fmem (initial runtime_ok) b o) /\
  (forall b o, lmem (snd run) b o = lmem (initial runtime_ok) b o) /\
  (forall b o, ~ (b = blk indptr /\ o = off indptr) ->
     imem (snd run) b o = imem (initial runtime_ok) b o) /\
  load (imem (snd run)) indptr 0
  = csr (rows (out (snd run))) (nnz (out (snd run))) 1 0 /\
  In (ev_symmetrize 0) (trace (snd run)).
Proof.
  apply (empty_point_set_writes_only_indptr_0 (E32 runtime_ok) X1 1 2 1
           indptr core_dists (initial runtime_ok)).
  by_evaluation.
Defined.

(** Two devices and no failing call. *)
Lemma no_failure_no_error_output_witness :
  cerr (snd (compute_knn_GF (E32 runtime_ok) X1 X2 inds dists 4 1 1 X1 X2
               4 2 m_L2SqrtExpanded (initial runtime_ok)))
  = cerr (initial runtime_ok).
Proof.
  apply (no_failure_no_error_output (E32 runtime_ok) X1 X2 inds dists 4 1 1
           X1 X2 4 2 m_L2SqrtExpanded (initial runtime_ok)).
  intros c. reflexivity.
Defined.

(** Two devices, the caller on device 0: device 1 gets the fresh blocks 10
    and 11. *)
Lemma staging_has_one_entry_per_device_witness :
  let run :=
    fold_M (stage_device (E32 runtime_ok) X1 X2 2 1 1 0) (range 2)
      (mk_staged [] [] [] []) (initial runtime_ok) in
  let st :=
    mk_staged [X1; mk_ptr 10 0] [X2; mk_ptr 11 0]
      [[X1]; [mk_ptr 10 0]] [[X2]; [mk_ptr 11 0]] in
  fst run = Ok st /\
  List.length (per_device_x1 st) = Z.to_nat 2 /\
  List.length (per_device_x2 st) = Z.to_nat 2 /\
  List.length (inputs1_vec st) = Z.to_nat 2 /\
  List.length (inputs2_vec st) = Z.to_nat 2 /\
  (forall i, 0 <= i < 2 ->
     at_vec (inputs1_vec st) i = [at_ptr (per_device_x1 st) i] /\
     at_vec (inputs2_vec st) i = [at_ptr (per_device_x2 st) i]) /\
  (0 <= 0 < 2 ->
     at_ptr (per_device_x1 st) 0 = X1 /\ at_ptr (per_device_x2 st) 0 = X2).
Proof.
  intros run st.
  assert (H : fst run = Ok st) by (vm_compute; reflexivity).
  split; [exact H|].
  exact (staging_has_one_entry_per_device (E32 runtime_ok) X1 X2 2 1 1 0 2
           (initial runtime_ok) st (snd run)
           (run_eta (E32 runtime_ok) _ _ _ H)).
Defined.

(** No device: cell 1 of [inds] receives the conversion of the
    uninitialised scratch cell. *)
Lemma no_device_no_search_witness :
  let run :=
    compute_knn_GF (E32 runtime_no_device) X1 X2 inds dists 4 1 1 X1 X2 4 2
      m_L2SqrtExpanded (initial runtime_no_device) in
  num_devices_of (E32 runtime_no_device) <= 0 /\
  fst run = Ok tt /\
  fmem (snd run) = fmem (initial runtime_no_device) /\
  lmem (snd run) = lmem (initial runtime_no_device) /\
  (forall j, 0 <= j < size_t_wrap (2 * 4) ->
     load (imem (snd run)) inds j
     = narrow (E32 runtime_no_device)
         (load (lmem (initial runtime_no_device))
            (mk_ptr (next_block (initial runtime_no_device)) 0) j)) /\
  (exists t,
     trace (snd run) = trace (initial runtime_no_device) ++ t /\
     Forall no_search t).
Proof.
  intros run.
  assert (H : num_devices_of (E32 runtime_no_device) <= 0)
    by by_evaluation.
  split; [exact H|].
  exact (no_device_no_search (E32 runtime_no_device) X1 X2 inds dists 4 1 1
           X1 X2 4 2 m_L2SqrtExpanded (initial runtime_no_device) H).
Defined.

(** One device on which every [cudaSetDevice] fails: four rows, two
    neighbours. *)
Lemma one_device_is_one_search_witness :
  let run :=
    compute_knn_GF (E32 runtime_one_device) X1 X2 inds dists 4 1 1 X1 X2 4 2
      m_L2SqrtExpanded (initial runtime_one_device) in
  let r :=
    knn_GF [view (fmem (initial runtime_one_device)) X1]
      [view (fmem (initial runtime_one_device)) X2] [int_wrap 4] 1 1
      (view (fmem (initial runtime_one_device)) X1)
      (view (fmem (initial runtime_one_device)) X2) 4 2 true true
      m_L2SqrtExpanded in
  fst run = Ok tt /\
  fmem (snd run)
  = store_range (fmem (initial runtime_one_device)) dists (4 * 2) (snd r) /\
  (forall j, 0 <= j < 4 * 2 ->
     load (imem (snd run)) inds j
     = narrow (E32 runtime_one_device) (fst r j)).
Proof.
  apply (one_device_is_one_search (E32 runtime_one_device) X1 X2 inds dists
           4 1 1 X1 X2 4 2 m_L2SqrtExpanded (initial runtime_one_device));
    by_evaluation.
Defined.

End MoreInstances.
